(** * SPZ Devpack Builder: a shallow embedding of [src/js/app.js]

    The development follows the source file section by section: the local
    file list ([updatePreview] and the drop handler), the asset extractor
    ([extractAssetsFromFiles] and its [urlRegex]), the remote fetcher
    ([validateAndFetchAssets] with [generateUniqueName]), the name
    sanitizer ([validateInputs]) and the archive builder (the click
    listener of [generateBtn]).

    JavaScript strings are modelled as [string]; a character stands for a
    code unit below 256.  JavaScript regular expressions are embedded as
    syntax trees and run by a backtracking matcher that explores the
    alternatives in the order ECMAScript prescribes. *)

From Stdlib Require Import List Bool Arith Lia ZArith FinFun Permutation.
From Stdlib Require Import Ascii String.
From Stdlib Require Import DecimalString DecimalNat DecimalZ.
Import ListNotations.

Local Open Scope list_scope.
Local Open Scope string_scope.

Set Implicit Arguments.

(** ** JavaScript strings *)

Module JsString.

(** [WhiteSpace] and [LineTerminator] code units below 256: the characters
    that [\s] matches and that [String.prototype.trim] removes. *)
Definition is_space (c : ascii) : bool :=
  existsb (Ascii.eqb c)
    ["009"; "010"; "011"; "012"; "013"; " "; "160"]%char.

Definition in_range (lo hi c : ascii) : bool :=
  (Ascii.leb lo c && Ascii.leb c hi)%bool.

Definition is_lower (c : ascii) : bool := in_range "a" "z" c.
Definition is_upper (c : ascii) : bool := in_range "A" "Z" c.
Definition is_digit (c : ascii) : bool := in_range "0" "9" c.

(** [Canonicalize] of a non-unicode, case-insensitive pattern, as far as a
    comparison with an ASCII pattern character can observe it: ASCII
    letters go to upper case, and no code unit from 128 on is ever mapped
    below 128. *)
Definition canonicalize (c : ascii) : ascii :=
  if is_lower c then ascii_of_nat (nat_of_ascii c - 32) else c.

(** [s.toLowerCase()], on ASCII letters. *)
Definition lower_char (c : ascii) : ascii :=
  if is_upper c then ascii_of_nat (nat_of_ascii c + 32) else c.

Fixpoint toLowerCase (s : string) : string :=
  match s with
  | "" => ""
  | String c s' => String (lower_char c) (toLowerCase s')
  end.

Fixpoint forallb_str (p : ascii -> bool) (s : string) : bool :=
  match s with
  | "" => true
  | String c s' => (p c && forallb_str p s')%bool
  end.

(** [s.startsWith(p)] *)
Definition startsWith (p s : string) : bool := String.prefix p s.

(** [s.endsWith(p)] *)
Fixpoint endsWith (p s : string) : bool :=
  if (s =? p) then true
  else match s with
       | "" => false
       | String _ s' => endsWith p s'
       end.

(** [s.includes(p)] *)
Fixpoint includes (p s : string) : bool :=
  if String.prefix p s then true
  else match s with
       | "" => false
       | String _ s' => includes p s'
       end.

Fixpoint trimStart (s : string) : string :=
  match s with
  | "" => ""
  | String c s' => if is_space c then trimStart s' else s
  end.

Fixpoint trimEnd (s : string) : string :=
  match s with
  | "" => ""
  | String c s' =>
      let t := trimEnd s' in
      if (is_space c && (t =? ""))%bool then "" else String c t
  end.

(** [s.trim()] *)
Definition trim (s : string) : string := trimEnd (trimStart s).

(** [s.split(sep)] for a separator that is one character, or a pattern
    that is one character class: the pieces between the separators, of
    which there is always at least one. *)
Fixpoint split (sep : ascii -> bool) (s : string) : list string :=
  match s with
  | "" => [""]
  | String c s' =>
      if sep c then "" :: split sep s'
      else match split sep s' with
           | piece :: rest => String c piece :: rest
           | [] => [String c ""]
           end
  end.

(** [a[0]] and [a.pop()] of a non-empty array of strings. *)
Definition first (a : list string) : string := hd "" a.
Definition pop (a : list string) : string := last a "".

(** A number in a template literal. *)
Definition of_nat (n : nat) : string :=
  NilZero.string_of_uint (Nat.to_uint n).

Definition of_Z (z : Z) : string :=
  NilZero.string_of_int (Z.to_int z).

End JsString.

Import JsString.

(** ** Regular expressions

    The fragment of ECMAScript patterns that the source uses.  Every
    quantifier other than [?] is applied to a character class in the
    source, so repetition is a constructor of its own. *)

Module Regex.

Inductive regex : Type :=
| Empty                                         (* the empty pattern *)
| Chr (c : ascii)                               (* a pattern character *)
| Class (p : ascii -> bool)                     (* [...] , [^...] , \s *)
| Seq (r1 r2 : regex)                           (* r1 r2 *)
| Alt (r1 r2 : regex)                           (* r1|r2 *)
| Opt (r : regex)                               (* r? *)
| Rep (lazy : bool) (min : nat) (p : ascii -> bool)
                                                (* [p]* [p]+ [p]+? *)
| Group (n : nat) (r : regex)                   (* the n-th ( ... ) *)
| Bol                                           (* ^ *)
| Eol.                                          (* $ *)

(** A literal run of pattern characters. *)
Fixpoint Lit (s : string) : regex :=
  match s with
  | "" => Empty
  | String c "" => Chr c
  | String c s' => Seq (Chr c) (Lit s')
  end.

Definition Star (p : ascii -> bool) : regex := Rep false 0 p.
Definition Plus (p : ascii -> bool) : regex := Rep false 1 p.
Definition PlusLazy (p : ascii -> bool) : regex := Rep true 1 p.

(** Captures, most recent first. *)
Definition captures : Type := list (nat * string).

Fixpoint capture (n : nat) (cs : captures) : option string :=
  match cs with
  | [] => None
  | (m, w) :: cs' => if Nat.eqb m n then Some w else capture n cs'
  end.

(** A pattern character against an input character; [icase] is the [i]
    flag. *)
Definition chr_match (icase : bool) (c d : ascii) : bool :=
  if icase then Ascii.eqb (canonicalize c) (canonicalize d)
  else Ascii.eqb c d.

Section Matcher.

Variable R : Type.
Variable icase : bool.

(** A continuation receives the index reached, the input left and the
    captures so far. *)
Definition cont : Type := nat -> string -> captures -> option R.

(** A greedy repetition takes as many characters as it can and gives
    them back one at a time. *)
Fixpoint rep_greedy (p : ascii -> bool) (min i : nat) (s : string)
    (cs : captures) (k : cont) {struct s} : option R :=
  let stop := if Nat.eqb min 0 then k i s cs else None in
  match s with
  | "" => stop
  | String c s' =>
      if p c then
        match rep_greedy p (pred min) (S i) s' cs k with
        | Some x => Some x
        | None => stop
        end
      else stop
  end.

(** A lazy repetition stops as soon as the rest of the pattern matches. *)
Fixpoint rep_lazy (p : ascii -> bool) (min i : nat) (s : string)
    (cs : captures) (k : cont) {struct s} : option R :=
  let more :=
    match s with
    | "" => None
    | String c s' =>
        if p c then rep_lazy p (pred min) (S i) s' cs k else None
    end in
  if Nat.eqb min 0 then
    match k i s cs with
    | Some x => Some x
    | None => more
    end
  else more.

(** The backtracking matcher: [rmatch r i s cs k] matches [r] at index
    [i], where [s] is the input from [i] on. *)
Fixpoint rmatch (r : regex) (i : nat) (s : string) (cs : captures)
    (k : cont) {struct r} : option R :=
  match r with
  | Empty => k i s cs
  | Chr c =>
      match s with
      | String d s' => if chr_match icase c d then k (S i) s' cs else None
      | "" => None
      end
  | Class p =>
      match s with
      | String d s' => if p d then k (S i) s' cs else None
      | "" => None
      end
  | Seq r1 r2 =>
      rmatch r1 i s cs (fun i' s' cs' => rmatch r2 i' s' cs' k)
  | Alt r1 r2 =>
      match rmatch r1 i s cs k with
      | Some x => Some x
      | None => rmatch r2 i s cs k
      end
  | Opt r1 =>
      match rmatch r1 i s cs
              (fun i' s' cs' => if Nat.eqb i' i then None else k i' s' cs')
      with
      | Some x => Some x
      | None => k i s cs
      end
  | Rep lazy min p =>
      if lazy then rep_lazy p min i s cs k else rep_greedy p min i s cs k
  | Group n r1 =>
      rmatch r1 i s cs
        (fun i' s' cs' => k i' s' ((n, substring 0 (i' - i) s) :: cs'))
  | Bol => if Nat.eqb i 0 then k i s cs else None
  | Eol => match s with "" => k i s cs | String _ _ => None end
  end.

End Matcher.

(** A match: where it starts, where it ends, what the groups captured. *)
Record rmatch_result : Type := MkMatch {
  m_index : nat;
  m_end : nat;
  m_groups : captures
}.

(** The pattern tried at index [i] only. *)
Definition match_at (icase : bool) (r : regex) (i : nat) (s : string)
  : option rmatch_result :=
  rmatch icase r i s [] (fun j _ cs => Some (MkMatch i j cs)).

(** [RegExpBuiltinExec] from index [i] on: the leftmost index at which
    the pattern matches. *)
Fixpoint exec_from (icase : bool) (r : regex) (i : nat) (s : string)
  : option rmatch_result :=
  match match_at icase r i s with
  | Some m => Some m
  | None =>
      match s with
      | "" => None
      | String _ s' => exec_from icase r (S i) s'
      end
  end.

(** [r.test(s)] for a pattern without the [g] flag. *)
Definition test (icase : bool) (r : regex) (s : string) : bool :=
  match exec_from icase r 0 s with Some _ => true | None => false end.

(** [s.matchAll(r)] for a pattern with the [g] flag: the next search
    starts where the last match ended, one further if that match was
    empty.  [skip] counts the characters of the last match still to be
    stepped over. *)
Fixpoint matchAll_from (icase : bool) (r : regex) (i skip : nat)
    (s : string) {struct s} : list rmatch_result :=
  match skip with
  | S skip' =>
      match s with
      | "" => []
      | String _ s' => matchAll_from icase r (S i) skip' s'
      end
  | 0 =>
      match match_at icase r i s with
      | Some m =>
          m :: match s with
               | "" => []
               | String _ s' =>
                   matchAll_from icase r (S i) (pred (m_end m - i)) s'
               end
      | None =>
          match s with
          | "" => []
          | String _ s' => matchAll_from icase r (S i) 0 s'
          end
      end
  end.

Definition matchAll (icase : bool) (r : regex) (s : string)
  : list rmatch_result :=
  matchAll_from icase r 0 0 s.

(** [s.replace(r, by)] for a pattern with the [g] flag and a replacement
    without [$]. *)
Fixpoint replace_from (icase : bool) (r : regex) (by_ : string)
    (i skip : nat) (s : string) {struct s} : string :=
  match skip with
  | S skip' =>
      match s with
      | "" => ""
      | String _ s' => replace_from icase r by_ (S i) skip' s'
      end
  | 0 =>
      match match_at icase r i s with
      | Some m =>
          by_ ++
          match s with
          | "" => ""
          | String c s' =>
              match m_end m - i with
              | 0 => String c (replace_from icase r by_ (S i) 0 s')
              | S len => replace_from icase r by_ (S i) len s'
              end
          end
      | None =>
          match s with
          | "" => ""
          | String c s' => String c (replace_from icase r by_ (S i) 0 s')
          end
      end
  end.

Definition replaceAll (icase : bool) (r : regex) (by_ s : string) : string :=
  replace_from icase r by_ 0 0 s.

End Regex.

Import Regex.

(** ** The collections of the source *)

(** A JavaScript [Set] of strings: insertion ordered, without
    repetition. *)
Module JsSet.

Definition t : Type := list string.

Definition empty : t := [].

Definition has (x : string) (s : t) : bool := existsb (String.eqb x) s.

Definition add (x : string) (s : t) : t :=
  if has x s then s else (s ++ [x])%list.

Definition size (s : t) : nat := List.length s.

End JsSet.

(** A JavaScript [Map] (or the key table of an object) with string keys:
    insertion ordered; [set] on a key that is present replaces the value
    where it stands. *)
Module JsMap.

Section WithValue.

Variable V : Type.

Definition t : Type := list (string * V).

Definition empty : t := [].

Definition has (k : string) (m : t) : bool :=
  existsb (fun e => String.eqb k (fst e)) m.

Fixpoint get (k : string) (m : t) : option V :=
  match m with
  | [] => None
  | (k', v) :: m' => if String.eqb k k' then Some v else get k m'
  end.

Fixpoint set (k : string) (v : V) (m : t) : t :=
  match m with
  | [] => [(k, v)]
  | (k', v') :: m' =>
      if String.eqb k k' then (k, v) :: m' else (k', v') :: set k v m'
  end.

Definition size (m : t) : nat := List.length m.

Definition keys (m : t) : list string := map fst m.

End WithValue.

End JsMap.

(** The patterns of the source share a few character classes. *)
Module Classes.

Definition one (c : ascii) : ascii -> bool := Ascii.eqb c.

Definition dquote : ascii := "034"%char.
Definition squote : ascii := "039"%char.

(** The class of the two quote characters. *)
Definition quote (c : ascii) : bool := (one squote c || one dquote c)%bool.

(** The negated class of [\s], the two quotes and the two parentheses:
    what a URL is made of. *)
Definition url_char (c : ascii) : bool :=
  negb (is_space c || one dquote c || one squote c || one "(" c
        || one ")" c).

(** The class of [?] and [#]. *)
Definition query_or_hash (c : ascii) : bool := (one "?" c || one "#" c)%bool.

(** The negated class of the two quotes, the closing parenthesis and
    [\s]. *)
Definition tail_char (c : ascii) : bool :=
  negb (one dquote c || one squote c || one ")" c || is_space c).

(** The class [a-zA-Z0-9-]. *)
Definition name_char (c : ascii) : bool :=
  (is_lower c || is_upper c || is_digit c || one "-" c)%bool.

End Classes.

Import Classes.

Declare Scope regex_scope.
Delimit Scope regex_scope with regex.
Bind Scope regex_scope with regex.
Infix "+++" := Seq (at level 60, right associativity) : regex_scope.
Infix "|+|" := Alt (at level 65, right associativity) : regex_scope.

(** ** Global state and the local file list *)

(** A [File]: its name, size and time stamp, and what [file.text()]
    gives, [None] when the read is rejected. *)
Record File : Type := MkFile {
  name : string;
  size : nat;
  lastModified : Z;
  text : option string
}.

Definition Blob : Type := list Byte.byte.

(** The key of a file in both [updatePreview] and the zip listener. *)
Definition fileKey (f : File) : string :=
  name f ++ "-" ++ of_nat (size f) ++ "-" ++ of_Z (lastModified f).

(** The alternatives of a group of literal extensions. *)
Fixpoint AnyOf (rs : list regex) : regex :=
  match rs with
  | [] => Empty
  | [r] => r
  | r :: rs' => Alt r (AnyOf rs')
  end.

Section Patterns.

Local Open Scope regex_scope.

(** The filter of the drop listener, without flags. *)
Definition dropRegex : regex :=
  Chr "." +++ Group 1 (AnyOf [Lit "js"; Lit "css"; Lit "html"]) +++ Eol.

Definition jpeg : regex := Lit "jp" +++ Opt (Chr "e") +++ Chr "g".
Definition woff : regex := Lit "woff" +++ Opt (Chr "2").

(** The extensions of [urlRegex], in the order of the source. *)
Definition urlExtensions : regex :=
  AnyOf [Lit "js"; Lit "css"; Lit "png"; jpeg; Lit "svg"; Lit "webp";
         Lit "gif"; Lit "mp4"; Lit "webm"; Lit "ogg"; woff; Lit "ttf";
         Lit "otf"; Lit "eot"].

(** The URL proper, group 1 of [urlRegex]. *)
Definition urlBody : regex :=
  Opt (Lit "http" +++ Opt (Chr "s") +++ Chr ":") +++
  Lit "//" +++ Plus url_char +++ Chr "/" +++ PlusLazy url_char +++
  Chr "." +++ Group 2 urlExtensions +++
  Opt (Group 3 (Chr "?" +++ Star url_char)).

(** [urlRegex], flags [gi]: an optional opening ([url(] with spaces and
    a quote, or a quote alone), the URL, an optional closing. *)
Definition urlRegex : regex :=
  Opt ((Lit "url(" +++ Star is_space +++ Opt (Class quote))
       |+| Class quote) +++
  Group 1 urlBody +++
  Opt (Opt (Class quote) +++ Star is_space +++ Chr ")").

(** The image and font patterns of the classification, flag [i]. *)
Definition imageRegex : regex :=
  Chr "." +++
  Group 1 (AnyOf [Lit "png"; jpeg; Lit "svg"; Lit "webp"; Lit "gif";
                  Lit "mp4"; Lit "webm"; Lit "ogg"]) +++
  Opt (Group 2 (Class query_or_hash +++ Star tail_char)) +++ Eol.

Definition fontRegex : regex :=
  Chr "." +++
  Group 1 (AnyOf [woff; Lit "ttf"; Lit "otf"; Lit "eot"]) +++
  Opt (Group 2 (Class query_or_hash +++ Star tail_char)) +++ Eol.

(** The guard of the fetcher, without flags. *)
Definition guardRegex : regex :=
  Bol +++ Lit "http" +++ Opt (Chr "s") +++ Lit "://".

(** The three patterns of [validateInputs]. *)
Definition spacesRegex : regex := Plus is_space.
Definition specialRegex : regex := Class (fun c => negb (name_char c)).
Definition validNameRegex : regex := Bol +++ Plus name_char +++ Eol.

(** The patterns of the zip listener, flag [i]. *)
Definition gifOrVideoRegex : regex :=
  Chr "." +++
  Group 1 (AnyOf [Lit "gif"; Lit "mp4"; Lit "webm"; Lit "ogg"]) +++ Eol.

Definition videoRegex : regex :=
  Chr "." +++ Group 1 (AnyOf [Lit "mp4"; Lit "webm"; Lit "ogg"]) +++ Eol.

Definition gifRegex : regex := Lit ".gif" +++ Eol.

End Patterns.

(** *** The page state *)

Inductive AssetType : Type := Images | Css | Js | Fonts.

(** [result.valid], and later [zipContent]: the maps are created in the
    order images, fonts, css, js. *)
Record ValidAssets : Type := MkValid {
  valid_images : JsMap.t Blob;
  valid_fonts : JsMap.t Blob;
  valid_css : JsMap.t Blob;
  valid_js : JsMap.t Blob
}.

Record AppState : Type := MkApp {
  collectedFiles : list File;
  uploadedFileSet : JsSet.t;
  zipContent : option ValidAssets
}.

Definition initialState : AppState := MkApp [] JsSet.empty None.

(** The loop of [updatePreview]: the files whose key is new, and the key
    set extended with them. *)
Fixpoint newUniqueFiles (newFiles : list File) (keys : JsSet.t)
  : list File * JsSet.t :=
  match newFiles with
  | [] => ([], keys)
  | f :: rest =>
      if negb (JsSet.has (fileKey f) keys) then
        let (fs, keys') := newUniqueFiles rest (JsSet.add (fileKey f) keys) in
        (f :: fs, keys')
      else newUniqueFiles rest keys
  end.

(** [updatePreview], without the rendering of the list. *)
Definition updatePreview (newFiles : list File) (st : AppState) : AppState :=
  let (fresh, keys) := newUniqueFiles newFiles (uploadedFileSet st) in
  MkApp (collectedFiles st ++ fresh)%list keys (zipContent st).

(** The [drop] listener of the drop zone. *)
Definition onDrop (files : list File) (st : AppState) : AppState :=
  let dropped := filter (fun f => Regex.test false dropRegex (name f)) files in
  updatePreview dropped st.

(** The [change] listener of the three file inputs. *)
Definition onChange (files : list File) (st : AppState) : AppState :=
  updatePreview files st.

(** ** Asset extraction *)

(** The four check boxes. *)
Record Include : Type := MkInclude {
  include_js : bool;
  include_css : bool;
  include_fonts : bool;
  include_images : bool
}.

(** The object of four sets that [extractAssetsFromFiles] fills; its
    keys are created in the order images, css, js, fonts. *)
Record Assets : Type := MkAssets {
  assets_images : JsSet.t;
  assets_css : JsSet.t;
  assets_js : JsSet.t;
  assets_fonts : JsSet.t
}.

Definition noAssets : Assets :=
  MkAssets JsSet.empty JsSet.empty JsSet.empty JsSet.empty.

(** [rawUrl.startsWith('//') ? 'https:' + rawUrl : rawUrl] *)
Definition normalizeProtocol (rawUrl : string) : string :=
  if startsWith "//" rawUrl then "https:" ++ rawUrl else rawUrl.

(** The chain of tests that puts a URL into at most one set. *)
Definition categorize (include : Include) (fullUrl : string) (assets : Assets)
  : Assets :=
  if ((endsWith ".js" fullUrl || includes ".js?" fullUrl)
      && include_js include)%bool then
    MkAssets (assets_images assets) (assets_css assets)
             (JsSet.add fullUrl (assets_js assets)) (assets_fonts assets)
  else if ((endsWith ".css" fullUrl || includes ".css?" fullUrl)
           && include_css include)%bool then
    MkAssets (assets_images assets) (JsSet.add fullUrl (assets_css assets))
             (assets_js assets) (assets_fonts assets)
  else if (Regex.test true imageRegex fullUrl
           && include_images include)%bool then
    MkAssets (JsSet.add fullUrl (assets_images assets)) (assets_css assets)
             (assets_js assets) (assets_fonts assets)
  else if (Regex.test true fontRegex fullUrl
           && include_fonts include)%bool then
    MkAssets (assets_images assets) (assets_css assets)
             (assets_js assets) (JsSet.add fullUrl (assets_fonts assets))
  else assets.

(** The body of [matches.forEach].  [match[1]] is the first group; were
    it undefined, [startsWith] would throw and the [catch] of the file
    would end the scan of that file. *)
Fixpoint scanMatches (include : Include) (matches : list rmatch_result)
    (assets : Assets) : Assets :=
  match matches with
  | [] => assets
  | m :: rest =>
      match capture 1 (m_groups m) with
      | None => assets
      | Some rawUrl =>
          scanMatches include rest
            (categorize include (normalizeProtocol rawUrl) assets)
      end
  end.

(** One round of the loop over the files: a file that cannot be read is
    skipped. *)
Definition scanFile (include : Include) (assets : Assets) (file : File)
  : Assets :=
  match text file with
  | None => assets
  | Some content =>
      scanMatches include (Regex.matchAll true urlRegex content) assets
  end.

Definition extractAssetsFromFiles (files : list File) (include : Include)
  : Assets :=
  fold_left (scanFile include) files noAssets.

(** [Object.entries(assets)] *)
Definition entries (assets : Assets) : list (AssetType * JsSet.t) :=
  [(Images, assets_images assets); (Css, assets_css assets);
   (Js, assets_js assets); (Fonts, assets_fonts assets)].

(** Every URL of the four sets. *)
Definition allUrls (assets : Assets) : list string :=
  flat_map snd (entries assets).

(** ** Unique names

    The loop [while (tracker.has(name)) name = `duplicate-${i++}-${base}`]
    occurs in [generateUniqueName] and once per folder in the zip
    listener.  [fuel] bounds the number of rounds; [None] stands for a
    loop that is still running when the fuel is used up. *)

Definition duplicateName (i : nat) (base : string) : string :=
  "duplicate-" ++ of_nat i ++ "-" ++ base.

Fixpoint whileHas (fuel : nat) (tracker : JsSet.t) (base name : string)
    (i : nat) : option string :=
  if JsSet.has name tracker then
    match fuel with
    | 0 => None
    | S fuel' => whileHas fuel' tracker base (duplicateName i base) (S i)
    end
  else Some name.

(** The loop from [name = base] and [i = 1], with as many rounds as the
    tracker has elements. *)
Definition uniqueName (tracker : JsSet.t) (base : string) : option string :=
  whileHas (JsSet.size tracker) tracker base base 1.

(** [url.split('/').pop().split('?')[0].split('#')[0]] *)
Definition baseOfUrl (url : string) : string :=
  first (split (one "#") (first (split (one "?") (pop (split (one "/") url))))).

Definition generateUniqueName (tracker : JsSet.t) (url : string)
  : option (string * JsSet.t) :=
  match uniqueName tracker (baseOfUrl url) with
  | Some name => Some (name, JsSet.add name tracker)
  | None => None
  end.

(** ** Validation and download *)

(** An entry of [result.failed]. *)
Record FailedAsset : Type := MkFailed {
  failed_url : string;
  failed_type : AssetType;
  failed_reason : string
}.

(** A [Response]: its status, and what [res.blob()] gives, the message of
    the error when the body cannot be read. *)
Record Response : Type := MkResponse {
  status : nat;
  blob : string + Blob
}.

(** [res.ok] *)
Definition ok (res : Response) : bool :=
  (Nat.leb 200 (status res) && Nat.leb (status res) 299)%bool.

(** How the promise of [fetch] settles: with a response, or with an
    error and its message. *)
Inductive FetchOutcome : Type :=
| Resolved (res : Response)
| Rejected (message : string).

(** [result] together with [assetNameTracker]. *)
Record FetchState : Type := MkFetch {
  valid : ValidAssets;
  failed : list FailedAsset;
  assetNameTracker : JsSet.t
}.

Definition noValid : ValidAssets :=
  MkValid (JsMap.empty Blob) (JsMap.empty Blob) (JsMap.empty Blob)
          (JsMap.empty Blob).

(** [result.valid[type]] *)
Definition validOf (type : AssetType) (v : ValidAssets) : JsMap.t Blob :=
  match type with
  | Images => valid_images v
  | Css => valid_css v
  | Js => valid_js v
  | Fonts => valid_fonts v
  end.

(** [result.valid[type].set(filename, blob)] *)
Definition validSet (type : AssetType) (filename : string) (b : Blob)
    (v : ValidAssets) : ValidAssets :=
  match type with
  | Images => MkValid (JsMap.set filename b (valid_images v)) (valid_fonts v)
                      (valid_css v) (valid_js v)
  | Css => MkValid (valid_images v) (valid_fonts v)
                   (JsMap.set filename b (valid_css v)) (valid_js v)
  | Js => MkValid (valid_images v) (valid_fonts v) (valid_css v)
                  (JsMap.set filename b (valid_js v))
  | Fonts => MkValid (valid_images v) (JsMap.set filename b (valid_fonts v))
                     (valid_css v) (valid_js v)
  end.

(** A request that has been issued: its type and the normalized URL. *)
Definition Request : Type := (AssetType * string)%type.

(** The part of the loop body before [fetch]: trim, complete a
    protocol-relative URL, and turn away what the guard does not accept. *)
Definition prepare (type : AssetType) (rawUrl : string)
  : FailedAsset + Request :=
  let url := trim rawUrl in
  let url := if startsWith "//" url then "https:" ++ url else url in
  if negb (Regex.test false guardRegex url) then
    inl (MkFailed rawUrl type "Unsupported or local path")
  else inr (type, url).

(** The two nested loops: the entries turned away, and [allFetches], both
    in the order of the iteration. *)
Fixpoint dispatchUrls (type : AssetType) (urls : list string)
  : list FailedAsset * list Request :=
  match urls with
  | [] => ([], [])
  | rawUrl :: rest =>
      let (fs, rs) := dispatchUrls type rest in
      match prepare type rawUrl with
      | inl f => (f :: fs, rs)
      | inr r => (fs, r :: rs)
      end
  end.

Fixpoint dispatch (es : list (AssetType * JsSet.t))
  : list FailedAsset * list Request :=
  match es with
  | [] => ([], [])
  | (type, urls) :: rest =>
      let (fs1, rs1) := dispatchUrls type urls in
      let (fs2, rs2) := dispatch rest in
      ((fs1 ++ fs2)%list, (rs1 ++ rs2)%list)
  end.

(** The [catch] handler. *)
Definition fail (req : Request) (reason : string) (st : FetchState)
  : FetchState :=
  MkFetch (valid st)
          (failed st ++ [MkFailed (snd req) (fst req) reason])%list
          (assetNameTracker st).

(** A request settles: the [then] handler runs, and the [catch] handler
    when it throws or when [fetch] itself was rejected.  Nothing else
    runs between the end of [res.blob()] and [set]. *)
Definition settle (st : FetchState) (req : Request) (out : FetchOutcome)
  : option FetchState :=
  match out with
  | Rejected message => Some (fail req message st)
  | Resolved res =>
      if negb (ok res) then Some (fail req ("HTTP " ++ of_nat (status res)) st)
      else
        match blob res with
        | inl message => Some (fail req message st)
        | inr b =>
            match generateUniqueName (assetNameTracker st) (snd req) with
            | None => None
            | Some (filename, tracker) =>
                Some (MkFetch (validSet (fst req) filename b (valid st))
                              (failed st) tracker)
            end
        end
  end.

(** The requests run concurrently and settle in some order: [order]
    lists positions of [allFetches], and [network] tells how the request
    at a position settles. *)
Fixpoint settleAll (requests : list Request) (network : nat -> FetchOutcome)
    (order : list nat) (st : FetchState) : option FetchState :=
  match order with
  | [] => Some st
  | n :: rest =>
      match nth_error requests n with
      | None => settleAll requests network rest st
      | Some req =>
          match settle st req (network n) with
          | None => None
          | Some st' => settleAll requests network rest st'
          end
      end
  end.

(** [validateAndFetchAssets]; the tracker is dropped with the closure. *)
Definition fetchAssets (assets : Assets) (network : nat -> FetchOutcome)
    (order : list nat) : option FetchState :=
  let (turnedAway, allFetches) := dispatch (entries assets) in
  settleAll allFetches network order (MkFetch noValid turnedAway JsSet.empty).

Definition validateAndFetchAssets (assets : Assets)
    (network : nat -> FetchOutcome) (order : list nat)
  : option (ValidAssets * list FailedAsset) :=
  match fetchAssets assets network order with
  | Some st => Some (valid st, failed st)
  | None => None
  end.

(** The fetches that succeeded along [order]. *)
Definition succeeded (out : FetchOutcome) : bool :=
  match out with
  | Resolved res =>
      (ok res && match blob res with inr _ => true | inl _ => false end)%bool
  | Rejected _ => false
  end.

Fixpoint successes (requests : list Request) (network : nat -> FetchOutcome)
    (order : list nat) : nat :=
  match order with
  | [] => 0
  | n :: rest =>
      match nth_error requests n with
      | None => successes requests network rest
      | Some _ =>
          (if succeeded (network n) then 1 else 0)
          + successes requests network rest
      end
  end.

(** The names given in a batch: the keys of the four maps. *)
Definition validNames (v : ValidAssets) : list string :=
  (JsMap.keys (valid_images v) ++ JsMap.keys (valid_fonts v) ++
   JsMap.keys (valid_css v) ++ JsMap.keys (valid_js v))%list.

(** ** The base name *)

(** [validateInputs]: the new value of the name field, and whether the
    button that generates the archive is disabled. *)
Definition sanitize (value : string) : string :=
  Regex.replaceAll false specialRegex ""
    (Regex.replaceAll false spacesRegex "-" (trim value)).

Definition validateInputs (value : string) : string * bool :=
  let name := sanitize value in
  let isValid :=
    (Regex.test false validNameRegex name && Nat.ltb 0 (length name))%bool in
  (name, negb isValid).

(** [folderName] in the zip listener, from the value of the name field. *)
Definition folderName (value : string) : string := trim value ++ "-devpack".

(** ** The archive *)

(** What is stored under a name: a local file, or a downloaded body. *)
Inductive Payload : Type :=
| LocalFile (f : File)
| Fetched (b : Blob).

(** The listener drives the JSZip library through two calls: [folder]
    on the archive or on a folder of it, and [file] on a folder.  A folder
    is named by its path, which ends in a slash. *)
Inductive ZipCall : Type :=
| MkFolder (path : string)
| AddFile (folder name : string) (data : Payload).

(** [parent.folder(name)]: the call, and the path of the new folder. *)
Definition folder (parent name : string) : ZipCall * string :=
  let path := parent ++ name ++ "/" in (MkFolder path, path).

(** What JSZip keeps after the calls: an entry per path, where [file] on
    a path that is present replaces its entry and [folder] leaves it. *)
Inductive ZipEntry : Type :=
| IsFolder
| IsFile (data : Payload).

Fixpoint zipFiles (calls : list ZipCall) (files : JsMap.t ZipEntry)
  : JsMap.t ZipEntry :=
  match calls with
  | [] => files
  | MkFolder path :: rest =>
      zipFiles rest
        (if JsMap.has path files then files else JsMap.set path IsFolder files)
  | AddFile dir file data :: rest =>
      zipFiles rest (JsMap.set (dir ++ file) (IsFile data) files)
  end.

(** The names and payloads that the calls put into one folder. *)
Fixpoint placedIn (dir : string) (calls : list ZipCall)
  : list (string * Payload) :=
  match calls with
  | [] => []
  | AddFile d file data :: rest =>
      if String.eqb d dir then (file, data) :: placedIn dir rest
      else placedIn dir rest
  | MkFolder _ :: rest => placedIn dir rest
  end.

Definition created (dir : string) (calls : list ZipCall) : bool :=
  existsb (fun c => match c with
                    | MkFolder path => String.eqb path dir
                    | AddFile _ _ _ => false
                    end) calls.

(** How a run of the listener ends. *)
Inductive Outcome (A : Type) : Type :=
| Finished (a : A)
| Running                  (* a loop that has not ended when the fuel is out *)
| TypeError.               (* a property of [null] was read *)

Arguments Running {A}.
Arguments TypeError {A}.

(** The loop over [collectedFiles].  Its condition looks [fileKey] up,
    which the body does not change: [fuel] bounds the rounds. *)
Fixpoint whileHasKey (fuel : nat) (fileKeyTracker : JsSet.t)
    (key fileName baseName : string) (i : nat) : option string :=
  if JsSet.has key fileKeyTracker then
    match fuel with
    | 0 => None
    | S fuel' =>
        whileHasKey fuel' fileKeyTracker key fileName
          (duplicateName i fileName) (S i)
    end
  else Some baseName.

Fixpoint addLocalFiles (fuel : nat) (root : string) (files : list File)
    (fileKeyTracker : JsSet.t) : option (list ZipCall) :=
  match files with
  | [] => Some []
  | file :: rest =>
      match whileHasKey fuel fileKeyTracker (fileKey file) (name file)
              (name file) 1 with
      | None => None
      | Some baseName =>
          match addLocalFiles fuel root rest
                  (JsSet.add (fileKey file) fileKeyTracker) with
          | None => None
          | Some calls => Some (AddFile root baseName (LocalFile file) :: calls)
          end
      end
  end.

(** A [forEach] over one of the maps with a fresh [normalizedTracker];
    [keep] is the test on the file name, where the loop has one. *)
Fixpoint placeEntries (keep : string -> bool) (dir : string)
    (entries : JsMap.t Blob) (normalizedTracker : JsSet.t)
  : option (list ZipCall) :=
  match entries with
  | [] => Some []
  | (filename, b) :: rest =>
      if keep filename then
        let baseFilename := first (split query_or_hash filename) in
        match uniqueName normalizedTracker baseFilename with
        | None => None
        | Some finalName =>
            match placeEntries keep dir rest
                    (JsSet.add finalName normalizedTracker) with
            | None => None
            | Some calls => Some (AddFile dir finalName (Fetched b) :: calls)
            end
        end
      else placeEntries keep dir rest normalizedTracker
  end.

(** [zipContent[type]]: the object has the four keys of [result.valid]
    and no other. *)
Definition zipContentOf (zc : ValidAssets) (type : string)
  : option (JsMap.t Blob) :=
  if type =? "images" then Some (valid_images zc)
  else if type =? "fonts" then Some (valid_fonts zc)
  else if type =? "css" then Some (valid_css zc)
  else if type =? "js" then Some (valid_js zc)
  else None.

Definition hasAssets (zc : ValidAssets) (type : string) : bool :=
  match zipContentOf zc type with
  | Some m => Nat.ltb 0 (JsMap.size m)
  | None => false
  end.

(** The tests of the three loops over [zipContent.images]. *)
Definition isGifOrVideo (filename : string) : bool :=
  Regex.test true gifOrVideoRegex filename.
Definition isVideo (filename : string) : bool :=
  Regex.test true videoRegex filename.
Definition isGif (filename : string) : bool :=
  Regex.test true gifRegex filename.

(** A folder that is made under a condition, with the loop that fills
    it. *)
Definition folderIf (cond : bool) (parent name : string)
    (keep : string -> bool) (entries : JsMap.t Blob)
  : option (list ZipCall) :=
  if cond then
    let (call, dir) := folder parent name in
    match placeEntries keep dir entries JsSet.empty with
    | None => None
    | Some calls => Some (call :: calls)
    end
  else Some [].

Definition andThen (a b : option (list ZipCall)) : option (list ZipCall) :=
  match a, b with
  | Some x, Some y => Some (x ++ y)%list
  | _, _ => None
  end.

Definition everything (_ : string) : bool := true.

(** The block guarded by the test on images, fonts, videos and gifs. *)
Definition addAssets (root : string) (zc : ValidAssets)
  : option (list ZipCall) :=
  if (hasAssets zc "images" || hasAssets zc "fonts" || hasAssets zc "videos"
      || hasAssets zc "gifs")%bool then
    let (call, assets) := folder root "assets" in
    let hasVideo := existsb (fun e => isVideo (fst e)) (valid_images zc) in
    let hasGif := existsb (fun e => isGif (fst e)) (valid_images zc) in
    andThen (Some [call])
      (andThen
         (folderIf (hasAssets zc "images") assets "images"
            (fun filename => negb (isGifOrVideo filename)) (valid_images zc))
         (andThen
            (folderIf (hasAssets zc "fonts") assets "fonts" everything
               (valid_fonts zc))
            (andThen
               (folderIf hasVideo assets "videos" isVideo (valid_images zc))
               (folderIf hasGif assets "gifs" isGif (valid_images zc)))))
  else Some [].

(** The calls after the local files: assets, script, style. *)
Definition addFetched (root : string) (zc : ValidAssets)
  : option (list ZipCall) :=
  andThen (addAssets root zc)
    (andThen
       (folderIf (hasAssets zc "js") root "script" everything (valid_js zc))
       (folderIf (hasAssets zc "css") root "style" everything (valid_css zc))).

(** The [click] listener of [generateBtn]: the name of the download and
    the calls made on the archive.  [value] is the content of the name
    field, [date] the date as [toLocaleDateString] prints it, [fuel] the
    bound of the loop over the local files. *)
Definition generateZip (fuel : nat) (date value : string) (st : AppState)
  : Outcome (string * list ZipCall) :=
  let name := trim value in
  let date := toLowerCase (Regex.replaceAll false (Chr " ") "-" date) in
  let filename := "Devpack-" ++ name ++ "-" ++ date ++ ".zip" in
  let (call, root) := folder "" (folderName value) in
  match addLocalFiles fuel root (collectedFiles st) JsSet.empty with
  | None => Running
  | Some locals =>
      match zipContent st with
      | None => TypeError
      | Some zc =>
          match addFetched root zc with
          | None => Running
          | Some fetched =>
              Finished (filename, (call :: locals ++ fetched)%list)
          end
      end
  end.

(** The root folder of the archive for a value of the name field. *)
Definition rootOf (value : string) : string := folderName value ++ "/".

(** ** What a pattern matches

    The relation that the matcher is checked against: [matches r i w rest]
    says that [r] can match the word [w] at index [i] when [rest] follows.
    It knows nothing of the order in which alternatives are tried. *)

Fixpoint matches (icase : bool) (r : regex) (i : nat) (w rest : string)
  : Prop :=
  match r with
  | Empty => w = ""
  | Chr c => exists d, w = String d "" /\ chr_match icase c d = true
  | Class p => exists d, w = String d "" /\ p d = true
  | Seq r1 r2 =>
      exists w1 w2, w = w1 ++ w2 /\ matches icase r1 i w1 (w2 ++ rest) /\
                    matches icase r2 (i + length w1) w2 rest
  | Alt r1 r2 => matches icase r1 i w rest \/ matches icase r2 i w rest
  | Opt r1 => w = "" \/ matches icase r1 i w rest
  | Rep _ min p => min <= length w /\ forallb_str p w = true
  | Group _ r1 => matches icase r1 i w rest
  | Bol => w = "" /\ i = 0
  | Eol => w = "" /\ rest = ""
  end.

(** The numbers of the groups of a pattern. *)
Fixpoint groups (r : regex) : list nat :=
  match r with
  | Seq r1 r2 | Alt r1 r2 => (groups r1 ++ groups r2)%list
  | Opt r1 => groups r1
  | Group n r1 => n :: groups r1
  | _ => []
  end.

(** The 256 characters. *)
Definition all_ascii : list ascii := map ascii_of_nat (seq 0 256).

(** Every character that a pattern can consume satisfies [good]; the
    test goes through the 256 characters. *)
Fixpoint consumes (icase : bool) (good : ascii -> bool) (r : regex) : bool :=
  match r with
  | Chr c =>
      forallb (fun d => implb (chr_match icase c d) (good d)) all_ascii
  | Class p | Rep _ _ p =>
      forallb (fun d => implb (p d) (good d)) all_ascii
  | Seq r1 r2 | Alt r1 r2 =>
      (consumes icase good r1 && consumes icase good r2)%bool
  | Opt r1 | Group _ r1 => consumes icase good r1
  | Empty | Bol | Eol => true
  end.

(** ** The sanitizer in words

    What the description of the base name says, written without
    patterns, to compare [sanitize] with. *)

(** Every run of white space becomes one hyphen; [inRun] tells that the
    character before was white space. *)
Fixpoint hyphenate (inRun : bool) (s : string) : string :=
  match s with
  | "" => ""
  | String c s' =>
      if is_space c then
        if inRun then hyphenate true s' else String "-" (hyphenate true s')
      else String c (hyphenate false s')
  end.

(** Only the characters of a class are kept. *)
Fixpoint keepChars (p : ascii -> bool) (s : string) : string :=
  match s with
  | "" => ""
  | String c s' => if p c then String c (keepChars p s') else keepChars p s'
  end.

(** The sanitizer as the description states it: runs to hyphens, then
    the class [a-zA-Z0-9-]. *)
Definition sanitizeAsStated (value : string) : string :=
  keepChars name_char (hyphenate false value).

(** The length of the longest prefix made of characters of a class. *)
Fixpoint span (p : ascii -> bool) (s : string) : nat :=
  match s with
  | "" => 0
  | String c s' => if p c then S (span p s') else 0
  end.

(** ** Names in words *)

(** The names that the loop tries for a base name, in turn: the base
    name itself, then the base name behind [duplicate-1-],
    [duplicate-2-] and so on. *)
Definition candidate (base : string) (n : nat) : string :=
  match n with
  | 0 => base
  | S _ => duplicateName n base
  end.

(** A URL in its parts: the scheme, [//], the authority, the path, and
    then the query string and the fragment, which begin at the first [?]
    or [#] of the URL. *)

(** A URL, or a name, without its query string and fragment. *)
Fixpoint beforeQuery (url : string) : string :=
  match url with
  | "" => ""
  | String c s => if query_or_hash c then "" else String c (beforeQuery s)
  end.

(** The query string and the fragment, from the [?] or [#] that begins
    them. *)
Fixpoint queryAndFragment (url : string) : string :=
  match url with
  | "" => ""
  | String c s => if query_or_hash c then url else queryAndFragment s
  end.

(** What follows the first [//]: the authority and the path. *)
Fixpoint afterScheme (s : string) : string :=
  match s with
  | "" => ""
  | String c s' =>
      match s' with
      | "" => ""
      | String d rest =>
          if (one "/" c && one "/" d)%bool then rest else afterScheme s'
      end
  end.

(** The authority ends at the first slash, where the path begins. *)
Fixpoint fromSlash (s : string) : string :=
  match s with
  | "" => ""
  | String c s' => if one "/" c then s else fromSlash s'
  end.

(** The path of a URL, empty when the URL has none. *)
Definition pathOf (url : string) : string :=
  fromSlash (afterScheme (beforeQuery url)).

Definition noSlash (s : string) : bool :=
  forallb_str (fun c => negb (one "/" c)) s.

(** What follows the last slash of a string. *)
Fixpoint afterLastSlash (s : string) : string :=
  match s with
  | "" => ""
  | String c s' =>
      if noSlash s' then (if one "/" c then s' else s) else afterLastSlash s'
  end.

(** The final path segment of a URL: what follows the last slash of its
    path. *)
Definition finalSegment (url : string) : string :=
  afterLastSlash (pathOf url).

Fixpoint dropChars (n : nat) (s : string) : string :=
  match n, s with
  | S n', String _ s' => dropChars n' s'
  | _, _ => s
  end.

(** A name without a leading [duplicate-<n>-], whatever put it there:
    the word [duplicate-], one digit or more, a hyphen. *)
Definition stripDuplicatePrefix (s : string) : string :=
  if startsWith "duplicate-" s then
    let t := dropChars 10 s in
    match span is_digit t, dropChars (span is_digit t) t with
    | S _, String "-" rest => rest
    | _, _ => s
    end
  else s.

(** ** Folders in words *)

Fixpoint lastChar (s : string) : option ascii :=
  match s with
  | "" => None
  | String c s' =>
      match s' with
      | "" => Some c
      | String _ _ => lastChar s'
      end
  end.

(** The folder under [assets/] that the layout gives to an image by the
    ending of its name, letters of either case. *)
Definition subfolderOf (filename : string) : string :=
  let lower := toLowerCase filename in
  if (endsWith ".mp4" lower || endsWith ".webm" lower
      || endsWith ".ogg" lower)%bool then "videos"
  else if endsWith ".gif" lower then "gifs"
  else "images".

(** An entry of a map as it is put into a folder under its own name. *)
Definition asPlaced (e : string * Blob) : string * Payload :=
  (fst e, Fetched (snd e)).

(** The entries of [zipContent.images] that belong to a folder. *)
Definition imagesFor (dir : string) (zc : ValidAssets)
  : list (string * Payload) :=
  map asPlaced
    (filter (fun e => String.eqb (subfolderOf (fst e)) dir) (valid_images zc)).

(** A name without [?] and [#]. *)
Definition cleanName (s : string) : Prop :=
  forallb_str (fun c => negb (query_or_hash c)) s = true.

(** The calls of a folder and its loop when no name has to change. *)
Definition block (cond : bool) (dir : string) (keep : string -> bool)
    (entries : JsMap.t Blob) : list ZipCall :=
  if cond then
    MkFolder dir
    :: map (fun e => AddFile dir (fst e) (Fetched (snd e)))
         (filter (fun e => keep (fst e)) entries)
  else [].

(** The listener as a step of the page: it reads the state and leaves it
    as it was. *)
Definition clickGenerate (fuel : nat) (date value : string) (st : AppState)
  : Outcome (AppState * (string * list ZipCall)) :=
  match generateZip fuel date value st with
  | Finished r => Finished (st, r)
  | Running => Running
  | TypeError => TypeError
  end.

(** The layout of the archive for names that need no change: the root
    folder with the local files, [assets/] with [images/], [fonts/],
    [videos/] and [gifs/], then [script/] and [style/]. *)
Definition layout (value : string) (files : list File) (zc : ValidAssets)
  : list ZipCall :=
  let root := rootOf value in
  let assets := root ++ "assets/" in
  (MkFolder root
   :: map (fun f => AddFile root (name f) (LocalFile f)) files
   ++ (if (hasAssets zc "images" || hasAssets zc "fonts")%bool then
         MkFolder assets
         :: block (hasAssets zc "images") (assets ++ "images/")
              (fun filename => negb (isGifOrVideo filename)) (valid_images zc)
         ++ block (hasAssets zc "fonts") (assets ++ "fonts/") everything
              (valid_fonts zc)
         ++ block (existsb (fun e => isVideo (fst e)) (valid_images zc))
              (assets ++ "videos/") isVideo (valid_images zc)
         ++ block (existsb (fun e => isGif (fst e)) (valid_images zc))
              (assets ++ "gifs/") isGif (valid_images zc)
       else [])
   ++ block (hasAssets zc "js") (root ++ "script/") everything (valid_js zc)
   ++ block (hasAssets zc "css") (root ++ "style/") everything
        (valid_css zc))%list.

(** ** Invariants *)

(** What holds of the state of a batch at every moment: the names given
    so far differ from one another, and the tracker holds exactly
    them. *)
Definition batch_inv (st : FetchState) : Prop :=
  NoDup (validNames (valid st)) /\
  forall x, JsSet.has x (assetNameTracker st) = true <->
            In x (validNames (valid st)).

(** What holds of every URL that goes into one of the four sets. *)
Definition emitted (u : string) : Prop :=
  startsWith "//" u = false /\
  forallb_str (fun c => negb (is_space c)) u = true /\
  Regex.test false guardRegex (toLowerCase u) = true.

(** What holds of the local file list at every moment: the keys of the
    collected files differ from one another and are all in the key
    set. *)
Definition files_inv (page : AppState) : Prop :=
  NoDup (map fileKey (collectedFiles page)) /\
  forall f, In f (collectedFiles page) ->
            JsSet.has (fileKey f) (uploadedFileSet page) = true.

(** ** Sample values *)

Definition sampleScript : File := MkFile "main.js" 12 7%Z (Some "x").

Definition emptyBatch : FetchState := MkFetch noValid [] JsSet.empty.

Definition notFound : Response := MkResponse 404 (inr []).

(** Two local files of the same name and different sizes. *)
Definition twoScripts : list File :=
  [MkFile "a.js" 1 1%Z None; MkFile "a.js" 2 1%Z None].

(** A batch result with one image, a GIF. *)
Definition oneGif : ValidAssets :=
  MkValid [("a.gif", [])] (JsMap.empty Blob) (JsMap.empty Blob)
          (JsMap.empty Blob).

(** A page with one image whose URL is protocol-relative: the text
    [<img src=] followed by the quoted URL and [>]. *)
Definition imgTag : string :=
  "<img src=" ++ String dquote ("//cdn.example.com/a/b.png"
                                ++ String dquote ">").

(** A text that names an image with the scheme in upper case. *)
Definition upperCasePage : File :=
  MkFile "page.html" 31 0%Z (Some "HTTP://cdn.example.com/a/b.png").

Definition everyType : Include := MkInclude true true true true.

(** A batch of three images, all answered with status 200, that settle
    in the order third, first, second. *)
Definition sampleAssets : Assets :=
  MkAssets ["https://x.com/a/clip.MP4"; "https://x.com/a/b.gif";
            "https://x.com/a/c.png?v=3"] [] [] [].

Definition sampleNetwork (_ : nat) : FetchOutcome :=
  Resolved (MkResponse 200 (inr [])).

Definition sampleBatch : FetchState :=
  MkFetch (MkValid [("c.png", []); ("clip.MP4", []); ("b.gif", [])] [] [] [])
          [] ["c.png"; "clip.MP4"; "b.gif"].

Definition samplePage : AppState :=
  MkApp [sampleScript] [fileKey sampleScript] (Some (valid sampleBatch)).

(** ** The rest of the page *)

(** What the user does to the file list: a drop on the drop zone, or a
    change of one of the three file inputs. *)
Inductive FileEvent : Type :=
| Dropped (files : list File)
| Selected (files : list File).

Definition onFileEvent (page : AppState) (e : FileEvent) : AppState :=
  match e with
  | Dropped files => onDrop files page
  | Selected files => onChange files page
  end.

(** The page after a sequence of such events. *)
Definition afterEvents (events : list FileEvent) (page : AppState)
  : AppState :=
  fold_left onFileEvent events page.

(** The [click] listener of [downloadBtn]: [true] when the modal is
    shown, [false] when the alert is.  [Object.values(zipContent)] are
    the four maps. *)
Definition onDownload (page : AppState) : bool :=
  let hasAssets :=
    match zipContent page with
    | Some zc =>
        existsb (fun m => Nat.ltb 0 (JsMap.size m))
          [valid_images zc; valid_fonts zc; valid_css zc; valid_js zc]
    | None => false
    end in
  (hasAssets || Nat.ltb 0 (List.length (collectedFiles page)))%bool.




(** The key under which [Object.entries(assets)] yields a type. *)
Definition typeName (type : AssetType) : string :=
  match type with
  | Images => "images"
  | Css => "css"
  | Js => "js"
  | Fonts => "fonts"
  end.

(** [groupBy(failedList, 'type')]: the object is filled by [reduce]; a
    type seen for the first time gets a new array at the end of the
    object, and the item is pushed on the array of its type.  None of the
    four keys is an array index, so the object keeps the order of
    creation. *)
Definition groupStep (acc : JsMap.t (list FailedAsset)) (item : FailedAsset)
  : JsMap.t (list FailedAsset) :=
  let key := typeName (failed_type item) in
  match JsMap.get key acc with
  | Some items => JsMap.set key (items ++ [item])%list acc
  | None => JsMap.set key [item] acc
  end.

Definition groupBy (arr : list FailedAsset) : JsMap.t (list FailedAsset) :=
  fold_left groupStep arr (JsMap.empty (list FailedAsset)).

(** ** Categories in words *)

(** The set that the chain of tests of [categorize] picks for a URL. *)
Definition categoryOf (include : Include) (fullUrl : string)
  : option AssetType :=
  if ((endsWith ".js" fullUrl || includes ".js?" fullUrl)
      && include_js include)%bool then Some Js
  else if ((endsWith ".css" fullUrl || includes ".css?" fullUrl)
           && include_css include)%bool then Some Css
  else if (Regex.test true imageRegex fullUrl
           && include_images include)%bool then Some Images
  else if (Regex.test true fontRegex fullUrl
           && include_fonts include)%bool then Some Fonts
  else None.

(** [assets[type]] *)
Definition assetsOf (type : AssetType) (assets : Assets) : JsSet.t :=
  match type with
  | Images => assets_images assets
  | Css => assets_css assets
  | Js => assets_js assets
  | Fonts => assets_fonts assets
  end.

(** The flag of [include] that gates a type. *)
Definition flagOf (type : AssetType) (include : Include) : bool :=
  match type with
  | Images => include_images include
  | Css => include_css include
  | Js => include_js include
  | Fonts => include_fonts include
  end.

(** The test on the URL that a type asks for. *)
Definition looksLike (type : AssetType) (fullUrl : string) : bool :=
  match type with
  | Js => (endsWith ".js" fullUrl || includes ".js?" fullUrl)%bool
  | Css => (endsWith ".css" fullUrl || includes ".css?" fullUrl)%bool
  | Images => Regex.test true imageRegex fullUrl
  | Fonts => Regex.test true fontRegex fullUrl
  end.


(** The names that the calls give to the files. *)
Definition namesOf (placed : list (string * Payload)) : list string :=
  map fst placed.

(** The key set holds exactly the keys of the collected files. *)
Definition keys_exact (page : AppState) : Prop :=
  forall x, JsSet.has x (uploadedFileSet page) = true <->
            In x (map fileKey (collectedFiles page)).

(** Every set of [a] is within the set of the same type of [b]. *)
Definition subAssets (a b : Assets) : Prop :=
  forall type, incl (assetsOf type a) (assetsOf type b).

(** What holds of the four sets at every moment of a scan: no set
    repeats a URL, and each URL is in the set that the tests pick for
    it. *)
Definition sets_inv (include : Include) (assets : Assets) : Prop :=
  forall type,
    NoDup (assetsOf type assets) /\
    forall u, In u (assetsOf type assets) ->
              categoryOf include u = Some type.

(** A page with one local file and no scan yet. *)
Definition unscannedPage : AppState :=
  MkApp [sampleScript] [fileKey sampleScript] None.

(** The failed downloads of one type, in the order of the list. *)
Definition failuresOf (key : string) (arr : list FailedAsset)
  : list FailedAsset :=
  filter (fun item => (typeName (failed_type item) =? key)%string) arr.

(** The number of items in all the groups of an object. *)
Definition grouped (V : Type) (groups : JsMap.t (list V)) : nat :=
  list_sum (map (fun e => List.length (snd e)) groups).


(** What a batch holds for one type: the files stored in the map of the
    type, and the failures reported with the type. *)
Definition accounted (type : AssetType) (st : FetchState) : nat :=
  JsMap.size (validOf type (valid st))
  + List.length (failuresOf (typeName type) (failed st)).

(** The request was issued for a URL of the set of [type]. *)
Definition isType (type : AssetType) (req : Request) : bool :=
  (typeName (fst req) =? typeName type)%string.

(** The positions of [order] at which a request of [type] stands. *)
Definition settledOf (type : AssetType) (requests : list Request)
    (order : list nat) : list nat :=
  filter (fun n => match nth_error requests n with
                   | Some req => isType type req
                   | None => false
                   end) order.

(** Three pages that name one image each: one under a version query,
    one whose final segment begins with [duplicate-1-], and one with a
    URL in its query string. *)
Definition versionPage : File :=
  MkFile "page.html" 28 0%Z (Some "https://x.com/a/logo.png?v=2").

Definition prefixedPage : File :=
  MkFile "page.html" 33 0%Z (Some "https://x.com/a/duplicate-1-b.png").

Definition queryPage : File :=
  MkFile "page.html" 46 0%Z
         (Some "https://x.com/r/a.png?u=https://cdn.com/x/y.jpg").

(** The URL that the loop of [validateAndFetchAssets] tests and requests
    for an entry of a set: the entry trimmed, and completed with
    [https:] when it begins with [//]. *)
Definition completeUrl (rawUrl : string) : string :=
  let url := trim rawUrl in
  if startsWith "//" url then "https:" ++ url else url.

(** Two entries as a caller may pass them: a protocol-relative URL after
    a space, and a URL of another scheme. *)
Definition strayAssets : Assets :=
  MkAssets [" //x.com/a/b.png"; "ftp://x.com/c.png"] [] [] [].

(** ** Properties *)

(** *** Strings *)

Lemma append_nil_r (s : string) : s ++ "" = s.
Proof. induction s; simpl; congruence. Qed.

Lemma append_assoc (a b c : string) : (a ++ b) ++ c = a ++ (b ++ c).
Proof. induction a; simpl; congruence. Qed.

Lemma length_append (a b : string) : length (a ++ b) = length a + length b.
Proof. induction a; simpl; congruence. Qed.

Lemma append_inv_head (a b c : string) : a ++ b = a ++ c -> b = c.
Proof. induction a; simpl; intros H; [assumption | inversion H; auto]. Qed.

Lemma append_inv_length (a b c d : string) :
  a ++ b = c ++ d -> length a = length c -> a = c /\ b = d.
Proof.
  revert c; induction a as [|x a IH]; intros [|y c]; simpl; intros H L;
    try discriminate; auto.
  inversion H; subst. destruct (IH c) as [-> ->]; auto.
Qed.

Lemma substring_append (w rest : string) :
  substring 0 (length w) (w ++ rest) = w.
Proof.
  induction w; simpl.
  - destruct rest; reflexivity.
  - congruence.
Qed.

Lemma forallb_str_append (p : ascii -> bool) (a b : string) :
  forallb_str p (a ++ b) = (forallb_str p a && forallb_str p b)%bool.
Proof.
  induction a; simpl; [reflexivity|]. rewrite IHa, andb_assoc; reflexivity.
Qed.

Lemma forallb_all_ascii (p : ascii -> bool) :
  forallb p all_ascii = true -> forall c, p c = true.
Proof.
  intros H c. rewrite forallb_forall in H. apply H.
  rewrite <- (ascii_nat_embedding c). unfold all_ascii.
  apply in_map, in_seq. pose proof (nat_ascii_bounded c). lia.
Qed.

Lemma prefix_append (p s : string) : String.prefix p (p ++ s) = true.
Proof.
  induction p; simpl; [destruct s; reflexivity|].
  destruct (ascii_dec a a); [assumption | congruence].
Qed.

Lemma prefix_split (p s : string) :
  String.prefix p s = true -> exists t, s = p ++ t.
Proof.
  revert s; induction p as [|c p IH]; intros s H.
  - exists s; reflexivity.
  - destruct s as [|d s]; simpl in H; [discriminate|].
    destruct (ascii_dec c d); [subst | discriminate].
    destruct (IH _ H) as [t ->]. exists t; reflexivity.
Qed.

Lemma endsWith_append (p pre : string) : endsWith p (pre ++ p) = true.
Proof.
  induction pre as [|c pre IH]; simpl.
  - destruct p; cbn [endsWith append]; rewrite String.eqb_refl; reflexivity.
  - cbn [endsWith append]. rewrite IH.
    match goal with |- (if ?b then _ else _) = _ => destruct b end;
      reflexivity.
Qed.

Lemma endsWith_split (p s : string) :
  endsWith p s = true -> exists pre, s = pre ++ p.
Proof.
  induction s as [|c s IH]; cbn [endsWith].
  - destruct (String.eqb_spec "" p) as [E|E];
      [intros _; exists ""; exact E | discriminate].
  - destruct (String.eqb_spec (String c s) p) as [E|E];
      [intros _; exists ""; exact E|].
    intros H. destruct (IH H) as [pre ->]. exists (String c pre); reflexivity.
Qed.

(** *** The matcher against [matches] *)

Section MatcherSound.

Variable R : Type.
Variable icase : bool.

Lemma rep_greedy_sound (p : ascii -> bool) (s : string) :
  forall min i cs (k : cont R) x,
    rep_greedy p min i s cs k = Some x ->
    exists w rest, s = w ++ rest /\ min <= length w /\
                   forallb_str p w = true /\
                   k (i + length w) rest cs = Some x.
Proof.
  induction s as [|c s IH]; intros min i cs k x H; cbn [rep_greedy] in H.
  - destruct (Nat.eqb_spec min 0); [|discriminate].
    exists "", ""; subst; simpl; rewrite Nat.add_0_r; auto.
  - assert (Stop : (if Nat.eqb min 0 then k i (String c s) cs else None)
                   = Some x ->
                   exists w rest, String c s = w ++ rest /\ min <= length w /\
                     forallb_str p w = true /\
                     k (i + length w) rest cs = Some x).
    { destruct (Nat.eqb_spec min 0); [|discriminate]. intros E.
      exists "", (String c s); subst; simpl; rewrite Nat.add_0_r; auto. }
    destruct (p c) eqn:Pc; [|auto].
    destruct (rep_greedy p (pred min) (S i) s cs k) eqn:E; [|auto].
    inversion H; subst. apply IH in E.
    destruct E as (w & rest & -> & Hm & Hp & Hk).
    exists (String c w), rest; simpl. rewrite Pc, Hp.
    replace (i + S (length w)) with (S i + length w) by lia.
    repeat split; auto; lia.
Qed.

Lemma rep_lazy_sound (p : ascii -> bool) (s : string) :
  forall min i cs (k : cont R) x,
    rep_lazy p min i s cs k = Some x ->
    exists w rest, s = w ++ rest /\ min <= length w /\
                   forallb_str p w = true /\
                   k (i + length w) rest cs = Some x.
Proof.
  induction s as [|c s IH]; intros min i cs k x H; cbn [rep_lazy] in H.
  - destruct (Nat.eqb_spec min 0); [|discriminate].
    destruct (k i "" cs) eqn:E; [|discriminate]. inversion H; subst.
    exists "", ""; simpl; rewrite Nat.add_0_r; auto.
  - assert (More : (if p c then rep_lazy p (pred min) (S i) s cs k else None)
                   = Some x ->
                   exists w rest, String c s = w ++ rest /\ min <= length w /\
                     forallb_str p w = true /\
                     k (i + length w) rest cs = Some x).
    { destruct (p c) eqn:Pc; [|discriminate]. intros E. apply IH in E.
      destruct E as (w & rest & -> & Hm & Hp & Hk).
      exists (String c w), rest; simpl. rewrite Pc, Hp.
      replace (i + S (length w)) with (S i + length w) by lia.
      repeat split; auto; lia. }
    destruct (Nat.eqb_spec min 0); [|auto].
    destruct (k i (String c s) cs) eqn:E; [|auto]. inversion H; subst.
    exists "", (String c s); simpl; rewrite Nat.add_0_r; auto.
Qed.

(** Whatever the matcher returns came from its continuation, called
    after a word that the pattern matches, with the groups of other
    patterns untouched. *)
Lemma rmatch_sound (r : regex) :
  forall i s cs (k : cont R) x,
    rmatch icase r i s cs k = Some x ->
    exists w rest cs',
      s = w ++ rest /\ matches icase r i w rest /\
      (forall n, ~ In n (groups r) -> capture n cs' = capture n cs) /\
      k (i + length w) rest cs' = Some x.
Proof.
  induction r as [|c|p|r1 IH1 r2 IH2|r1 IH1 r2 IH2|r1 IH1|lazy min p
                  |n r1 IH1| |];
    intros i s cs k x H; cbn [rmatch] in H.
  - exists "", s, cs; simpl; rewrite Nat.add_0_r; auto.
  - destruct s as [|d s]; [discriminate|].
    destruct (chr_match icase c d) eqn:E; [|discriminate].
    exists (String d ""), s, cs; simpl.
    rewrite Nat.add_1_r; repeat split; eauto.
  - destruct s as [|d s]; [discriminate|].
    destruct (p d) eqn:E; [|discriminate].
    exists (String d ""), s, cs; simpl.
    rewrite Nat.add_1_r; repeat split; eauto.
  - apply IH1 in H. destruct H as (w1 & s1 & cs1 & -> & M1 & F1 & H).
    apply IH2 in H. destruct H as (w2 & s2 & cs2 & -> & M2 & F2 & H).
    exists (w1 ++ w2), s2, cs2. rewrite append_assoc, length_append.
    rewrite Nat.add_assoc. repeat split; auto.
    + simpl. exists w1, w2; auto.
    + intros n Hn. simpl in Hn. rewrite in_app_iff in Hn.
      rewrite F2, F1; auto.
  - destruct (rmatch icase r1 i s cs k) eqn:E.
    + inversion H; subst. apply IH1 in E.
      destruct E as (w & rest & cs' & -> & M & F & Hk).
      exists w, rest, cs'; simpl; repeat split; auto.
      intros n Hn; apply F; rewrite in_app_iff in Hn; auto.
    + apply IH2 in H. destruct H as (w & rest & cs' & -> & M & F & Hk).
      exists w, rest, cs'; simpl; repeat split; auto.
      intros n Hn; apply F; rewrite in_app_iff in Hn; auto.
  - match type of H with
    | match ?e with _ => _ end = _ => destruct e eqn:E
    end.
    + inversion H; subst. apply IH1 in E.
      destruct E as (w & rest & cs' & -> & M & F & Hk).
      destruct (Nat.eqb (i + length w) i); [discriminate|].
      exists w, rest, cs'; simpl; auto.
    + exists "", s, cs; simpl; rewrite Nat.add_0_r; auto.
  - destruct lazy.
    + apply rep_lazy_sound in H. destruct H as (w & rest & -> & ? & ? & ?).
      exists w, rest, cs; simpl; auto.
    + apply rep_greedy_sound in H. destruct H as (w & rest & -> & ? & ? & ?).
      exists w, rest, cs; simpl; auto.
  - apply IH1 in H. destruct H as (w & rest & cs' & -> & M & F & Hk).
    exists w, rest,
      ((n, substring 0 (i + length w - i) (w ++ rest)) :: cs').
    split; [reflexivity|]. split; [exact M|]. split; [|exact Hk].
    intros m Hm. cbn [capture]. simpl in Hm.
    destruct (Nat.eqb_spec n m); [tauto|]. apply F; tauto.
  - destruct (Nat.eqb_spec i 0); [|discriminate].
    exists "", s, cs; simpl; rewrite Nat.add_0_r; auto.
  - destruct s; [|discriminate].
    exists "", "", cs; simpl; rewrite Nat.add_0_r; auto.
Qed.

End MatcherSound.

Section MatcherComplete.

Variable R : Type.
Variable icase : bool.

Lemma rep_greedy_complete (p : ascii -> bool) (w : string) :
  forall min i rest cs (k : cont R),
    min <= length w -> forallb_str p w = true ->
    k (i + length w) rest cs <> None ->
    rep_greedy p min i (w ++ rest) cs k <> None.
Proof.
  induction w as [|c w IH]; intros min i rest cs k Hm Hp Hk.
  - simpl in Hm, Hk. rewrite Nat.add_0_r in Hk.
    assert (min = 0) as -> by lia.
    destruct rest as [|d rest]; cbn [rep_greedy append Nat.eqb]; auto.
    destruct (p d); auto.
    destruct (rep_greedy p (pred 0) (S i) rest cs k); [discriminate | auto].
  - simpl in Hm, Hp, Hk. apply andb_true_iff in Hp. destruct Hp as [Pc Hp].
    cbn [rep_greedy append]. rewrite Pc.
    specialize (IH (pred min) (S i) rest cs k).
    destruct (rep_greedy p (pred min) (S i) (w ++ rest) cs k);
      [discriminate|].
    exfalso. apply IH; auto; [lia|].
    replace (S i + length w) with (i + S (length w)) by lia. exact Hk.
Qed.

Lemma rep_lazy_complete (p : ascii -> bool) (w : string) :
  forall min i rest cs (k : cont R),
    min <= length w -> forallb_str p w = true ->
    k (i + length w) rest cs <> None ->
    rep_lazy p min i (w ++ rest) cs k <> None.
Proof.
  induction w as [|c w IH]; intros min i rest cs k Hm Hp Hk.
  - simpl in Hm, Hk. rewrite Nat.add_0_r in Hk.
    assert (min = 0) as -> by lia.
    destruct rest as [|d rest]; cbn [rep_lazy append Nat.eqb].
    + destruct (k i "" cs); [discriminate | auto].
    + destruct (k i (String d rest) cs); [discriminate | tauto].
  - simpl in Hm, Hp, Hk. apply andb_true_iff in Hp. destruct Hp as [Pc Hp].
    cbn [rep_lazy append]. rewrite Pc.
    assert (Rec : rep_lazy p (pred min) (S i) (w ++ rest) cs k <> None).
    { apply IH; auto; [lia|].
      replace (S i + length w) with (i + S (length w)) by lia. exact Hk. }
    destruct (Nat.eqb min 0); [|exact Rec].
    destruct (k i (String c (w ++ rest)) cs); [discriminate | exact Rec].
Qed.

(** If the pattern matches a word after which the continuation accepts,
    whatever the captures, the matcher finds some result. *)
Lemma rmatch_complete (r : regex) :
  forall i w rest cs (k : cont R),
    matches icase r i w rest ->
    (forall cs', k (i + length w) rest cs' <> None) ->
    rmatch icase r i (w ++ rest) cs k <> None.
Proof.
  induction r as [|c|p|r1 IH1 r2 IH2|r1 IH1 r2 IH2|r1 IH1|lazy min p
                  |n r1 IH1| |];
    intros i w rest cs k M Hk; cbn [rmatch]; cbn [matches] in M.
  - subst. specialize (Hk cs). simpl in *. rewrite Nat.add_0_r in Hk. auto.
  - destruct M as (d & -> & E). cbn [append]. rewrite E.
    specialize (Hk cs). simpl in Hk. rewrite Nat.add_1_r in Hk. auto.
  - destruct M as (d & -> & E). cbn [append]. rewrite E.
    specialize (Hk cs). simpl in Hk. rewrite Nat.add_1_r in Hk. auto.
  - destruct M as (w1 & w2 & -> & M1 & M2). rewrite append_assoc.
    apply IH1; auto. intros cs'. apply IH2; auto.
    intros cs''. rewrite <- Nat.add_assoc, <- length_append. apply Hk.
  - destruct M as [M|M].
    + specialize (IH1 i w rest cs k M Hk).
      destruct (rmatch icase r1 i (w ++ rest) cs k); [discriminate | tauto].
    + destruct (rmatch icase r1 i (w ++ rest) cs k); [discriminate|].
      apply IH2; auto.
  - match goal with
    | |- match ?e with _ => _ end <> _ => destruct e eqn:E
    end; [discriminate|].
    destruct w as [|c w].
    + specialize (Hk cs). simpl in *. rewrite Nat.add_0_r in Hk. auto.
    + destruct M as [M|M]; [discriminate|]. exfalso.
      revert E. apply IH1; auto. intros cs'.
      destruct (Nat.eqb_spec (i + length (String c w)) i) as [E|E];
        [simpl in E; lia | apply Hk].
  - destruct M as [Hm Hp]. destruct lazy.
    + apply rep_lazy_complete; auto.
    + apply rep_greedy_complete; auto.
  - apply IH1; [exact M | intros cs'; apply Hk].
  - destruct M as [-> ->]. specialize (Hk cs). simpl in *. exact Hk.
  - destruct M as [-> ->]. specialize (Hk cs). simpl in *.
    rewrite Nat.add_0_r in Hk. exact Hk.
Qed.

End MatcherComplete.

(** *** Searching *)

Lemma match_at_sound (icase : bool) (r : regex) (i : nat) (s : string)
    (m : rmatch_result) :
  match_at icase r i s = Some m ->
  exists w rest, s = w ++ rest /\ matches icase r i w rest /\
                 m_index m = i /\ m_end m = i + length w.
Proof.
  unfold match_at. intros H. apply rmatch_sound in H.
  destruct H as (w & rest & cs' & -> & M & _ & E).
  inversion E; subst; simpl. exists w, rest. auto.
Qed.

Lemma match_at_complete (icase : bool) (r : regex) (i : nat)
    (w rest : string) :
  matches icase r i w rest -> match_at icase r i (w ++ rest) <> None.
Proof.
  intros M. unfold match_at. apply rmatch_complete; auto. discriminate.
Qed.

Lemma exec_from_sound (icase : bool) (r : regex) (s : string) :
  forall i m,
    exec_from icase r i s = Some m ->
    exists pre w rest, s = pre ++ w ++ rest /\
                       matches icase r (i + length pre) w rest.
Proof.
  induction s as [|c s IH]; intros i m H; cbn [exec_from] in H.
  - destruct (match_at icase r i "") eqn:E; [|discriminate].
    apply match_at_sound in E. destruct E as (w & rest & E & M & _).
    exists "", w, rest. simpl. rewrite Nat.add_0_r. auto.
  - destruct (match_at icase r i (String c s)) eqn:E.
    + apply match_at_sound in E. destruct E as (w & rest & E & M & _).
      exists "", w, rest. simpl. rewrite Nat.add_0_r. auto.
    + apply IH in H. destruct H as (pre & w & rest & -> & M).
      exists (String c pre), w, rest. simpl.
      replace (i + S (length pre)) with (S i + length pre) by lia. auto.
Qed.

Lemma exec_from_complete (icase : bool) (r : regex) (pre : string) :
  forall i w rest,
    matches icase r (i + length pre) w rest ->
    exec_from icase r i (pre ++ w ++ rest) <> None.
Proof.
  induction pre as [|c pre IH]; intros i w rest M.
  - simpl in M. rewrite Nat.add_0_r in M. apply match_at_complete in M.
    cbn [append]. destruct (w ++ rest); cbn [exec_from];
      destruct (match_at icase r i _); [discriminate | tauto
                                       | discriminate | tauto].
  - cbn [append exec_from].
    destruct (match_at icase r i _); [discriminate|].
    apply IH. simpl in M.
    replace (S i + length pre) with (i + S (length pre)) by lia. exact M.
Qed.

(** [test] says whether the pattern matches somewhere. *)
Lemma test_spec (icase : bool) (r : regex) (s : string) :
  Regex.test icase r s = true <->
  exists pre w rest, s = pre ++ w ++ rest /\
                     matches icase r (length pre) w rest.
Proof.
  unfold Regex.test. split.
  - destruct (exec_from icase r 0 s) eqn:E; [|discriminate]. intros _.
    apply exec_from_sound in E. exact E.
  - intros (pre & w & rest & -> & M).
    pose proof (@exec_from_complete icase r pre 0 w rest M).
    destruct (exec_from icase r 0 (pre ++ w ++ rest)); [reflexivity | tauto].
Qed.

Lemma matchAll_from_sound (icase : bool) (r : regex) (s : string) :
  forall i skip m,
    In m (matchAll_from icase r i skip s) ->
    exists j s', match_at icase r j s' = Some m.
Proof.
  induction s as [|c s IH]; intros i skip m H; cbn [matchAll_from] in H.
  - destruct skip; [|contradiction].
    destruct (match_at icase r i "") eqn:E; [|contradiction].
    destruct H as [<-|[]]. eauto.
  - destruct skip as [|skip]; [|eauto].
    destruct (match_at icase r i (String c s)) eqn:E; [|eauto].
    destruct H as [<-|H]; eauto.
Qed.

(** A group that every match goes through captures a word that its
    pattern matches. *)
Lemma match_at_group (icase : bool) (pre body post : regex) (n i : nat)
    (s : string) (m : rmatch_result) :
  match_at icase (Seq pre (Seq (Group n body) post)) i s = Some m ->
  ~ In n (groups post) ->
  exists j w rest, capture n (m_groups m) = Some w /\
                   matches icase body j w rest.
Proof.
  unfold match_at. cbn [rmatch]. intros H Hn.
  apply rmatch_sound in H. destruct H as (w0 & s0 & cs0 & -> & _ & _ & H).
  apply rmatch_sound in H. destruct H as (w & s1 & cs1 & -> & M & _ & H).
  apply rmatch_sound in H. destruct H as (w2 & s2 & cs2 & -> & _ & F & H).
  inversion H; subst; clear H. cbn [m_groups].
  exists (i + length w0), w, (w2 ++ s2). split; [|exact M].
  rewrite (F n Hn). cbn [capture]. rewrite Nat.eqb_refl.
  replace (i + length w0 + length w - (i + length w0)) with (length w)
    by lia.
  rewrite substring_append. reflexivity.
Qed.

(** *** Literals and letters *)

Lemma chr_match_exact (c d : ascii) : chr_match false c d = true <-> d = c.
Proof. unfold chr_match. rewrite Ascii.eqb_eq. split; congruence. Qed.

(** Under the [i] flag two characters match when they agree once put in
    lower case. *)
Lemma chr_match_icase (c d : ascii) :
  chr_match true c d = Ascii.eqb (lower_char c) (lower_char d).
Proof.
  assert (H : forallb (fun c => forallb (fun d =>
                Bool.eqb (chr_match true c d)
                         (Ascii.eqb (lower_char c) (lower_char d)))
                all_ascii) all_ascii = true) by (vm_compute; reflexivity).
  pose proof (forallb_all_ascii _ H c) as Hc. cbv beta in Hc.
  pose proof (forallb_all_ascii _ Hc d) as Hd. cbv beta in Hd.
  apply eqb_prop in Hd. exact Hd.
Qed.

Lemma matches_Lit_exact (p : string) :
  forall i w rest, matches false (Lit p) i w rest <-> w = p.
Proof.
  induction p as [|c p IH]; intros i w rest; [cbn [Lit matches]; tauto|].
  destruct p as [|c' p].
  - cbn [Lit matches]. split.
    + intros (d & -> & E). apply chr_match_exact in E. congruence.
    + intros ->. exists c. split; auto. apply chr_match_exact; auto.
  - change (Lit (String c (String c' p)))
      with (Seq (Chr c) (Lit (String c' p))).
    cbn [matches]. split.
    + intros (w1 & w2 & -> & (d & -> & E) & M). apply chr_match_exact in E.
      apply IH in M. subst. reflexivity.
    + intros ->. exists (String c ""), (String c' p). split; [reflexivity|].
      split; [exists c; split; auto; apply chr_match_exact; auto|].
      apply IH. reflexivity.
Qed.

Lemma matches_Lit_icase (p : string) :
  forall i w rest,
    matches true (Lit p) i w rest <-> toLowerCase w = toLowerCase p.
Proof.
  induction p as [|c p IH]; intros i w rest.
  - cbn [Lit matches]. split; [intros ->; reflexivity|].
    destruct w; [auto | discriminate].
  - destruct p as [|c' p].
    + cbn [Lit matches]. split.
      * intros (d & -> & E). rewrite chr_match_icase in E.
        apply Ascii.eqb_eq in E. cbn [toLowerCase]. congruence.
      * destruct w as [|d [|e w]]; cbn [toLowerCase]; try discriminate.
        intros E. exists d. split; auto. rewrite chr_match_icase.
        apply Ascii.eqb_eq. congruence.
    + change (Lit (String c (String c' p)))
        with (Seq (Chr c) (Lit (String c' p))).
      cbn [matches]. split.
      * intros (w1 & w2 & -> & (d & -> & E) & M).
        rewrite chr_match_icase in E. apply Ascii.eqb_eq in E.
        apply IH in M. cbn [append toLowerCase] in *. rewrite M, E.
        reflexivity.
      * destruct w as [|d w]; [discriminate|].
        intros E. cbn [toLowerCase] in E. inversion E as [[E1 E2]].
        exists (String d ""), w. split; [reflexivity|].
        split; [exists d; split; auto; rewrite chr_match_icase;
                apply Ascii.eqb_eq; auto|].
        apply IH. exact E2.
Qed.

Lemma toLowerCase_append (a b : string) :
  toLowerCase (a ++ b) = toLowerCase a ++ toLowerCase b.
Proof. induction a; simpl; congruence. Qed.

Lemma toLowerCase_length (a : string) : length (toLowerCase a) = length a.
Proof. induction a; simpl; congruence. Qed.

(** *** The local file list *)

Lemma dropRegex_spec (n : string) :
  Regex.test false dropRegex n = true <->
  endsWith ".js" n = true \/ endsWith ".css" n = true \/
  endsWith ".html" n = true.
Proof.
  rewrite test_spec. unfold dropRegex. cbn [matches AnyOf]. split.
  - intros (pre & w & rest & -> & w1 & w2 & -> & (d & -> & E) & w3 & w4 & ->
            & M & -> & ->).
    apply chr_match_exact in E. subst d.
    rewrite !matches_Lit_exact in M. rewrite !append_nil_r.
    destruct M as [->|[->| ->]];
      [left | right; left | right; right];
      (match goal with
       | |- endsWith ?p (pre ++ ?q) = true =>
           change q with p; apply endsWith_append
       end).
  - assert (G : forall e pre,
               matches false (Lit "js") (length pre + 1) e "" \/
               matches false (Lit "css") (length pre + 1) e "" \/
               matches false (Lit "html") (length pre + 1) e "" ->
               exists pre0 w rest, pre ++ String "." e = pre0 ++ w ++ rest /\
                 exists w1 w2, w = w1 ++ w2 /\
                   (exists d, w1 = String d "" /\
                              chr_match false "." d = true) /\
                   exists w3 w4, w2 = w3 ++ w4 /\
                     (matches false (Lit "js") (length pre0 + length w1) w3
                        (w4 ++ rest) \/
                      matches false (Lit "css") (length pre0 + length w1) w3
                        (w4 ++ rest) \/
                      matches false (Lit "html") (length pre0 + length w1) w3
                        (w4 ++ rest)) /\ w4 = "" /\ rest = "").
    { intros e pre M. exists pre, (String "." e), "".
      split; [rewrite append_nil_r; reflexivity|].
      exists ".", e. split; [reflexivity|].
      split; [exists "."%char; split; reflexivity|].
      exists e, "". rewrite append_nil_r. simpl length. auto. }
    intros [H|[H|H]]; apply endsWith_split in H; destruct H as [pre ->];
      apply G; rewrite !matches_Lit_exact; auto.
Qed.

Lemma newUniqueFiles_incl (fs : list File) :
  forall keys f, In f (fst (newUniqueFiles fs keys)) -> In f fs.
Proof.
  induction fs as [|g fs IH]; intros keys f; simpl; [tauto|].
  destruct (JsSet.has (fileKey g) keys); simpl.
  - intros H; right; eapply IH; eauto.
  - destruct (newUniqueFiles fs (JsSet.add (fileKey g) keys)) eqn:E.
    simpl. intros [->|H]; [auto|]. right.
    apply (IH (JsSet.add (fileKey g) keys)).
    rewrite E. exact H.
Qed.

(** C10: the drop listener keeps a file only when its name ends in
    [.js], [.css] or [.html] written in lower case; a file named
    [STYLE.CSS] is left out and the state stays as it was. *)
Theorem drop_filter_is_case_sensitive :
  (forall files st f,
      In f (collectedFiles (onDrop files st)) ->
      In f (collectedFiles st) \/
      (In f files /\
       (endsWith ".js" (name f) = true \/ endsWith ".css" (name f) = true \/
        endsWith ".html" (name f) = true))) /\
  (forall st size lastModified text,
      onDrop [MkFile "STYLE.CSS" size lastModified text] st = st).
Proof.
  split.
  - intros files st f. unfold onDrop, updatePreview.
    destruct (newUniqueFiles _ (uploadedFileSet st)) as [fresh keys] eqn:E.
    cbn [collectedFiles]. rewrite in_app_iff. intros [H|H]; [auto|].
    right. assert (In f (fst (newUniqueFiles
      (filter (fun f => Regex.test false dropRegex (name f)) files)
      (uploadedFileSet st)))) as H' by (rewrite E; exact H).
    apply newUniqueFiles_incl in H'. apply filter_In in H'.
    destruct H' as [Hin Ht]. split; [exact Hin|].
    apply dropRegex_spec. exact Ht.
  - intros [cf keys zc] sz lm txt. unfold onDrop, updatePreview.
    cbn. rewrite app_nil_r. reflexivity.
Qed.

Lemma drop_filter_is_case_sensitive_witness :
  In sampleScript (collectedFiles (onDrop [sampleScript] initialState)) /\
  (In sampleScript (collectedFiles initialState) \/
   (In sampleScript [sampleScript] /\
    (endsWith ".js" (name sampleScript) = true \/
     endsWith ".css" (name sampleScript) = true \/
     endsWith ".html" (name sampleScript) = true))).
Proof.
  assert (H : In sampleScript
                (collectedFiles (onDrop [sampleScript] initialState)))
    by (vm_compute; auto).
  split; [exact H|].
  exact (proj1 drop_filter_is_case_sensitive [sampleScript] initialState
           sampleScript H).
Defined.

(** *** The base name *)

Lemma rep_greedy_span (R : Type) (p : ascii -> bool) (f : nat -> captures -> R)
    (s : string) :
  forall min i cs,
    rep_greedy p min i s cs (fun j _ cs' => Some (f j cs')) =
    if Nat.leb min (span p s) then Some (f (i + span p s) cs) else None.
Proof.
  induction s as [|c s IH]; intros min i cs; cbn [rep_greedy span].
  - rewrite Nat.add_0_r. destruct min; reflexivity.
  - destruct (p c).
    + rewrite IH. replace (S i + span p s) with (i + S (span p s)) by lia.
      destruct min as [|min]; cbn [pred Nat.eqb Nat.leb].
      * reflexivity.
      * destruct (Nat.leb min (span p s)); reflexivity.
    + rewrite Nat.add_0_r. destruct min; reflexivity.
Qed.

Lemma match_at_spaces (i : nat) (s : string) :
  match_at false spacesRegex i s =
  if Nat.leb 1 (span is_space s)
  then Some (MkMatch i (i + span is_space s) []) else None.
Proof.
  unfold match_at, spacesRegex, Plus. cbn [rmatch].
  apply (rep_greedy_span is_space (fun j cs => MkMatch i j cs)).
Qed.

Lemma replace_spaces (s : string) :
  forall i,
    replace_from false spacesRegex "-" i 0 s = hyphenate false s /\
    replace_from false spacesRegex "-" i (span is_space s) s
    = hyphenate true s.
Proof.
  induction s as [|c s IH]; intros i.
  - split; reflexivity.
  - assert (A : replace_from false spacesRegex "-" i 0 (String c s)
                = hyphenate false (String c s)).
    { cbn [replace_from]. rewrite match_at_spaces. cbn [span hyphenate].
      destruct (is_space c); cbn [Nat.leb m_end].
      - replace (i + S (span is_space s) - i) with (S (span is_space s))
          by lia.
        cbn [append]. f_equal. apply IH.
      - f_equal. apply IH. }
    split; [exact A|]. cbn [span]. destruct (is_space c) eqn:E.
    + cbn [replace_from hyphenate]. rewrite E. apply IH.
    + rewrite A. cbn [hyphenate]. rewrite E. reflexivity.
Qed.

Lemma replace_special (s : string) :
  forall i,
    replace_from false specialRegex "" i 0 s = keepChars name_char s.
Proof.
  induction s as [|c s IH]; intros i; [reflexivity|].
  cbn [replace_from keepChars]. unfold match_at, specialRegex.
  cbn [rmatch]. destruct (name_char c); cbn [negb m_end append].
  - f_equal. apply IH.
  - replace (S i - i) with 1 by lia. apply IH.
Qed.

Lemma keepChars_forall (p : ascii -> bool) (s : string) :
  forallb_str p (keepChars p s) = true.
Proof.
  induction s as [|c s IH]; [reflexivity|]. simpl.
  destruct (p c) eqn:E; [simpl; rewrite E|]; exact IH.
Qed.

Lemma trimEnd_no_space (s : string) :
  forallb_str (fun c => negb (is_space c)) s = true -> trimEnd s = s.
Proof.
  induction s as [|c s IH]; [reflexivity|]. cbn [forallb_str trimEnd].
  intros H. apply andb_true_iff in H. destruct H as [Hc Hs].
  rewrite (IH Hs). destruct (is_space c); [discriminate | reflexivity].
Qed.

Lemma trim_no_space (s : string) :
  forallb_str (fun c => negb (is_space c)) s = true -> trim s = s.
Proof.
  intros H. unfold trim.
  assert (trimStart s = s) as ->; [|apply trimEnd_no_space; exact H].
  destruct s as [|c s]; [reflexivity|]. simpl in *.
  destruct (is_space c); [discriminate | reflexivity].
Qed.

Lemma forallb_str_impl (p q : ascii -> bool) (s : string) :
  (forall c, p c = true -> q c = true) ->
  forallb_str p s = true -> forallb_str q s = true.
Proof.
  intros Hpq. induction s as [|c s IH]; [reflexivity|]. simpl.
  rewrite !andb_true_iff. intros [Hc Hs]. auto.
Qed.

Lemma all_ascii_impl (p q : ascii -> bool) :
  forallb (fun c => implb (p c) (q c)) all_ascii = true ->
  forall c, p c = true -> q c = true.
Proof.
  intros H c Hp. pose proof (forallb_all_ascii _ H c) as Hc.
  cbv beta in Hc. rewrite Hp in Hc. exact Hc.
Qed.

Lemma name_char_no_space (c : ascii) :
  name_char c = true -> negb (is_space c) = true.
Proof.
  apply (all_ascii_impl name_char (fun c => negb (is_space c))).
  vm_compute. reflexivity.
Qed.

Lemma sanitize_spec (value : string) :
  sanitize value = keepChars name_char (hyphenate false (trim value)).
Proof.
  unfold sanitize, Regex.replaceAll.
  rewrite (proj1 (replace_spaces (trim value) 0)). apply replace_special.
Qed.

(** C7, as amended: after the surrounding white space is trimmed, every
    run of white space becomes a hyphen and every character outside
    [a-zA-Z0-9-] is dropped; the result has only characters of that
    class; the root folder is the sanitized name followed by [-devpack];
    [My Test #1] becomes [My-Test-1] and its folder [My-Test-1-devpack]. *)
Theorem sanitize_trims_then_hyphenates :
  (forall value,
      sanitize value = sanitizeAsStated (trim value) /\
      forallb_str name_char (sanitize value) = true /\
      folderName (sanitize value) = sanitize value ++ "-devpack") /\
  sanitize "My Test #1" = "My-Test-1" /\
  folderName (fst (validateInputs "My Test #1")) = "My-Test-1-devpack".
Proof.
  split; [|split; vm_compute; reflexivity].
  intros value. split; [apply sanitize_spec|].
  assert (H : forallb_str name_char (sanitize value) = true)
    by (rewrite sanitize_spec; apply keepChars_forall).
  split; [exact H|]. unfold folderName. rewrite trim_no_space; [reflexivity|].
  revert H. apply forallb_str_impl. exact name_char_no_space.
Qed.

(** C7, as stated, fails on a name that starts with white space: the
    run is trimmed away, not turned into a hyphen. *)
Lemma sanitize_leading_space_counterexample :
  sanitize " a" = "a" /\ sanitizeAsStated " a" = "-a" /\
  sanitize " a" <> sanitizeAsStated " a".
Proof.
  split; [vm_compute; reflexivity|].
  split; [vm_compute; reflexivity|].
  vm_compute. discriminate.
Qed.

(** *** Numbers in names *)

Lemma to_uint_not_nil (n : nat) : Nat.to_uint n <> Decimal.Nil.
Proof.
  intros E. pose proof (Unsigned.of_to n) as H. rewrite E in H.
  simpl in H. subst n. discriminate E.
Qed.

Lemma of_nat_inj (n m : nat) : of_nat n = of_nat m -> n = m.
Proof.
  unfold of_nat. intros E. apply Unsigned.to_uint_inj.
  pose proof (NilZero.usu _ (to_uint_not_nil n)) as Hn.
  pose proof (NilZero.usu _ (to_uint_not_nil m)) as Hm.
  rewrite E in Hn. congruence.
Qed.

Lemma string_of_uint_digits (d : Decimal.uint) :
  forallb_str is_digit (NilEmpty.string_of_uint d) = true.
Proof. induction d; simpl; auto. Qed.

Lemma of_nat_digits (n : nat) : forallb_str is_digit (of_nat n) = true.
Proof.
  unfold of_nat, NilZero.string_of_uint.
  destruct (Nat.to_uint n) eqn:E; try reflexivity;
    rewrite <- E at 1; rewrite E; exact (string_of_uint_digits _).
Qed.

Lemma of_nat_not_empty (n : nat) : of_nat n <> "".
Proof.
  unfold of_nat, NilZero.string_of_uint.
  destruct (Nat.to_uint n); simpl; discriminate.
Qed.

Lemma duplicateName_inj (base : string) (i j : nat) :
  duplicateName i base = duplicateName j base -> i = j.
Proof.
  unfold duplicateName. intros E. apply append_inv_head in E.
  apply of_nat_inj.
  assert (L : length (of_nat i) = length (of_nat j)).
  { apply (f_equal length) in E. rewrite !length_append in E. lia. }
  apply (append_inv_length _ _ _ _ E L).
Qed.

Lemma duplicateName_longer (base : string) (i : nat) :
  duplicateName i base <> base.
Proof.
  unfold duplicateName. intros E. apply (f_equal length) in E.
  rewrite !length_append in E. simpl in E. lia.
Qed.

Lemma candidate_inj (base : string) (i j : nat) :
  candidate base i = candidate base j -> i = j.
Proof.
  destruct i, j; simpl; intros E; auto.
  - symmetry in E. apply duplicateName_longer in E. contradiction.
  - apply duplicateName_longer in E. contradiction.
  - apply duplicateName_inj in E. exact E.
Qed.

(** *** Sets and maps *)

Lemma has_In (x : string) (s : JsSet.t) :
  JsSet.has x s = true <-> In x s.
Proof.
  unfold JsSet.has. rewrite existsb_exists. split.
  - intros (y & Hy & E). apply String.eqb_eq in E. subst. exact Hy.
  - intros H. exists x. split; [exact H | apply String.eqb_refl].
Qed.

Lemma has_add (x y : string) (s : JsSet.t) :
  JsSet.has x (JsSet.add y s) = (String.eqb x y || JsSet.has x s)%bool.
Proof.
  unfold JsSet.add. destruct (JsSet.has y s) eqn:E.
  - destruct (String.eqb_spec x y); [subst; rewrite E|]; reflexivity.
  - unfold JsSet.has. rewrite existsb_app. simpl.
    rewrite orb_false_r, orb_comm. reflexivity.
Qed.

Lemma add_fresh (x : string) (s : JsSet.t) :
  JsSet.has x s = false -> JsSet.add x s = (s ++ [x])%list.
Proof. unfold JsSet.add. intros ->. reflexivity. Qed.

Lemma forallb_false_exists (A : Type) (f : A -> bool) (l : list A) :
  forallb f l = false -> exists x, In x l /\ f x = false.
Proof.
  induction l as [|a l IH]; simpl; [discriminate|].
  destruct (f a) eqn:E; simpl.
  - intros H. destruct (IH H) as (x & Hx & Fx). eauto.
  - intros _. eauto.
Qed.

(** Among the first candidates, one more than the tracker has elements,
    some name is not in the tracker. *)
Lemma candidate_free (tracker : JsSet.t) (base : string) :
  exists n, n <= JsSet.size tracker /\
            JsSet.has (candidate base n) tracker = false.
Proof.
  destruct (forallb (fun n => JsSet.has (candidate base n) tracker)
              (seq 0 (S (JsSet.size tracker)))) eqn:E.
  - exfalso. rewrite forallb_forall in E.
    assert (N : NoDup (map (candidate base) (seq 0 (S (JsSet.size tracker))))).
    { apply Injective_map_NoDup; [|apply seq_NoDup].
      intros i j. apply candidate_inj. }
    assert (I : incl (map (candidate base) (seq 0 (S (JsSet.size tracker))))
                     tracker).
    { intros x Hx. apply in_map_iff in Hx. destruct Hx as (n & <- & Hn).
      apply has_In. apply E. exact Hn. }
    pose proof (NoDup_incl_length N I) as L.
    rewrite length_map, length_seq in L. unfold JsSet.size in L. lia.
  - apply forallb_false_exists in E. destruct E as (n & Hn & F).
    apply in_seq in Hn. exists n. split; [lia | exact F].
Qed.

(** The loop returns the first candidate that is free, when there is one
    within reach of the fuel. *)
Lemma whileHas_first_free (tracker : JsSet.t) (base : string) :
  forall fuel j n,
    j <= n -> n <= j + fuel ->
    JsSet.has (candidate base n) tracker = false ->
    exists m, whileHas fuel tracker base (candidate base j) (S j)
              = Some (candidate base m) /\
              j <= m /\ JsSet.has (candidate base m) tracker = false /\
              forall k, j <= k -> k < m ->
                        JsSet.has (candidate base k) tracker = true.
Proof.
  induction fuel as [|fuel IH]; intros j n Hj Hn F; cbn [whileHas].
  - assert (n = j) as -> by lia. rewrite F.
    exists j. repeat split; auto. intros; lia.
  - destruct (JsSet.has (candidate base j) tracker) eqn:E.
    + assert (n <> j) by (intros ->; congruence).
      destruct (IH (S j) n) as (m & Hm & Hle & Fm & Hall); auto; try lia.
      exists m. cbn [candidate] in Hm. rewrite Hm.
      repeat split; auto; [lia|]. intros k Hk1 Hk2.
      destruct (Nat.eq_dec k j) as [->|]; [exact E | apply Hall; lia].
    + exists j. repeat split; auto. intros; lia.
Qed.

(** The loop of the names always ends, with the first free candidate. *)
Lemma uniqueName_spec (tracker : JsSet.t) (base : string) :
  exists n, uniqueName tracker base = Some (candidate base n) /\
            JsSet.has (candidate base n) tracker = false /\
            forall k, k < n -> JsSet.has (candidate base k) tracker = true.
Proof.
  destruct (candidate_free tracker base) as (n & Hn & F).
  destruct (@whileHas_first_free tracker base (JsSet.size tracker) 0 n)
    as (m & Hm & _ & Fm & Hall); auto; try lia.
  exists m. unfold uniqueName. cbn [candidate] in Hm. rewrite Hm.
  repeat split; auto. intros k Hk. apply Hall; lia.
Qed.

Lemma keys_set_fresh (V : Type) (k : string) (v : V) (m : JsMap.t V) :
  ~ In k (JsMap.keys m) ->
  JsMap.keys (JsMap.set k v m) = (JsMap.keys m ++ [k])%list.
Proof.
  induction m as [|[k' v'] m IH]; simpl; intros H; [reflexivity|].
  destruct (String.eqb_spec k k'); [subst; tauto|].
  simpl. f_equal. apply IH. tauto.
Qed.

Lemma perm_insert (A : Type) (x : A) (l1 l2 : list A) :
  Permutation (l1 ++ x :: l2) (x :: l1 ++ l2).
Proof. symmetry. apply Permutation_middle. Qed.

Lemma validNames_validSet (type : AssetType) (k : string) (b : Blob)
    (v : ValidAssets) :
  ~ In k (validNames v) ->
  Permutation (validNames (validSet type k b v)) (k :: validNames v).
Proof.
  unfold validNames. intros H. rewrite !in_app_iff in H.
  destruct type; cbn [validSet valid_images valid_fonts valid_css valid_js];
    rewrite keys_set_fresh by tauto.
  - rewrite <- app_assoc. apply perm_insert.
  - rewrite <- (app_assoc (JsMap.keys (valid_css v))).
    etransitivity;
      [apply Permutation_app_head, Permutation_app_head, perm_insert|].
    etransitivity; [apply Permutation_app_head, perm_insert|].
    apply perm_insert.
  - etransitivity;
      [apply Permutation_app_head, Permutation_app_head,
         Permutation_app_head, Permutation_sym, Permutation_cons_append|].
    etransitivity;
      [apply Permutation_app_head, Permutation_app_head, perm_insert|].
    etransitivity; [apply Permutation_app_head, perm_insert|].
    apply perm_insert.
  - rewrite <- (app_assoc (JsMap.keys (valid_fonts v))).
    etransitivity; [apply Permutation_app_head, perm_insert|].
    apply perm_insert.
Qed.

(** *** The fetch batch *)

Lemma generateUniqueName_spec (tracker : JsSet.t) (url : string) :
  exists n,
    generateUniqueName tracker url
    = Some (candidate (baseOfUrl url) n,
            JsSet.add (candidate (baseOfUrl url) n) tracker) /\
    JsSet.has (candidate (baseOfUrl url) n) tracker = false /\
    forall k, k < n -> JsSet.has (candidate (baseOfUrl url) k) tracker = true.
Proof.
  destruct (uniqueName_spec tracker (baseOfUrl url)) as (n & E & F & Hall).
  exists n. unfold generateUniqueName. rewrite E. auto.
Qed.

Lemma settle_inv (st : FetchState) (req : Request) (out : FetchOutcome) :
  batch_inv st ->
  exists st',
    settle st req out = Some st' /\ batch_inv st' /\
    List.length (validNames (valid st'))
    = List.length (validNames (valid st)) + (if succeeded out then 1 else 0).
Proof.
  intros [N T]. unfold settle, succeeded.
  assert (Keep : forall reason,
             batch_inv (fail req reason st) /\
             List.length (validNames (valid (fail req reason st)))
             = List.length (validNames (valid st)) + 0).
  { intros reason. unfold batch_inv, fail; cbn [valid assetNameTracker].
    rewrite Nat.add_0_r. auto. }
  destruct out as [res|message]; [|eexists; split; [reflexivity | apply Keep]].
  destruct (ok res); cbn [negb andb];
    [|eexists; split; [reflexivity | apply Keep]].
  destruct (blob res) as [message|b];
    [eexists; split; [reflexivity | apply Keep]|].
  destruct (generateUniqueName_spec (assetNameTracker st) (snd req))
    as (n & E & F & _).
  rewrite E. eexists. split; [reflexivity|].
  set (name := candidate (baseOfUrl (snd req)) n) in *.
  assert (Fresh : ~ In name (validNames (valid st)))
    by (rewrite <- T; congruence).
  pose proof (validNames_validSet (fst req) name b (valid st) Fresh) as P.
  unfold batch_inv. cbn [valid assetNameTracker]. split; [split|].
  - apply (Permutation_NoDup (Permutation_sym P)). constructor; assumption.
  - intros x. rewrite has_add, orb_true_iff, T, String.eqb_eq.
    split.
    + intros H. apply (Permutation_in _ (Permutation_sym P)).
      destruct H; [left; congruence | right; assumption].
    + intros H. apply (Permutation_in _ P) in H.
      destruct H; [left; congruence | right; assumption].
  - rewrite (Permutation_length P). simpl. lia.
Qed.

Lemma settleAll_inv (requests : list Request) (network : nat -> FetchOutcome)
    (order : list nat) :
  forall st,
    batch_inv st ->
    exists st',
      settleAll requests network order st = Some st' /\ batch_inv st' /\
      List.length (validNames (valid st'))
      = List.length (validNames (valid st)) + successes requests network order.
Proof.
  induction order as [|n order IH]; intros st I; cbn [settleAll successes].
  - exists st. rewrite Nat.add_0_r. auto.
  - destruct (nth_error requests n) as [req|]; [|apply IH; exact I].
    destruct (settle_inv req (network n) I) as (st1 & E & I1 & L1).
    rewrite E. destruct (IH st1 I1) as (st' & E' & I' & L').
    exists st'. split; [exact E'|]. split; [exact I'|]. lia.
Qed.

(** C3: a batch always ends; it gives as many names as fetches
    succeeded; no two names of the batch are equal, across the four
    maps, because the one tracker holds exactly the names given so far;
    and each name is the first of [base], [duplicate-1-base],
    [duplicate-2-base], ... that the tracker does not hold. *)
Theorem fetch_batch_names_are_unique :
  (forall assets network order,
      exists st,
        fetchAssets assets network order = Some st /\
        List.length (validNames (valid st))
        = successes (snd (dispatch (entries assets))) network order /\
        NoDup (validNames (valid st)) /\
        forall x, JsSet.has x (assetNameTracker st) = true <->
                  In x (validNames (valid st))) /\
  (forall tracker url,
      exists n,
        generateUniqueName tracker url
        = Some (candidate (baseOfUrl url) n,
                JsSet.add (candidate (baseOfUrl url) n) tracker) /\
        JsSet.has (candidate (baseOfUrl url) n) tracker = false /\
        forall k, k < n ->
                  JsSet.has (candidate (baseOfUrl url) k) tracker = true) /\
  (forall base n,
      candidate base (S n) = "duplicate-" ++ of_nat (S n) ++ "-" ++ base).
Proof.
  split; [|split; [exact generateUniqueName_spec | reflexivity]].
  intros assets network order. unfold fetchAssets.
  destruct (dispatch (entries assets)) as [turnedAway allFetches].
  destruct (@settleAll_inv allFetches network order
              (MkFetch noValid turnedAway JsSet.empty))
    as (st & E & [N T] & L).
  - split; [constructor|]. intros x. simpl. split; [discriminate | tauto].
  - exists st. cbn [snd]. simpl in L. auto.
Qed.

Lemma settleAll_failed_grows (requests : list Request)
    (network : nat -> FetchOutcome) (order : list nat) :
  forall st st',
    settleAll requests network order st = Some st' ->
    incl (failed st) (failed st').
Proof.
  induction order as [|n order IH]; intros st st' H; cbn [settleAll] in H.
  - inversion H; subst. apply incl_refl.
  - destruct (nth_error requests n) as [req|]; [|eauto].
    destruct (settle st req (network n)) as [st1|] eqn:E; [|discriminate].
    apply (incl_tran (m := failed st1)); [|eauto].
    unfold settle in E.
    assert (F : forall reason, incl (failed st) (failed (fail req reason st)))
      by (intros reason; unfold fail; cbn [failed]; apply incl_appl, incl_refl).
    destruct (network n) as [res|message]; [|inversion E; apply F].
    destruct (negb (ok res)); [inversion E; apply F|].
    destruct (blob res); [inversion E; apply F|].
    destruct (generateUniqueName (assetNameTracker st) (snd req))
      as [[filename tracker]|]; [|discriminate].
    inversion E; subst. cbn [failed]. apply incl_refl.
Qed.

(** C4: a response that is not ok is recorded as failed with the reason
    [HTTP] and the status, and the valid maps stay as they were; a
    rejected fetch is recorded with the message of its error; at the end
    of the batch the failed entry is in the result; and the batch of the
    one URL [https://x.com/f.js] answered with status 404 ends with that
    entry and nothing valid. *)
Theorem failed_fetch_is_reported :
  (forall st req res,
      ok res = false ->
      settle st req (Resolved res)
      = Some (MkFetch (valid st)
                (failed st ++
                 [MkFailed (snd req) (fst req)
                    ("HTTP " ++ of_nat (status res))])
                (assetNameTracker st))) /\
  (forall st req message,
      settle st req (Rejected message)
      = Some (MkFetch (valid st)
                (failed st ++ [MkFailed (snd req) (fst req) message])
                (assetNameTracker st))) /\
  (forall assets network order st n req res,
      fetchAssets assets network order = Some st ->
      In n order ->
      nth_error (snd (dispatch (entries assets))) n = Some req ->
      network n = Resolved res ->
      ok res = false ->
      In (MkFailed (snd req) (fst req) ("HTTP " ++ of_nat (status res)))
         (failed st)) /\
  (forall body,
      validateAndFetchAssets (MkAssets [] [] ["https://x.com/f.js"] [])
        (fun _ => Resolved (MkResponse 404 body)) [0]
      = Some (noValid, [MkFailed "https://x.com/f.js" Js "HTTP 404"])).
Proof.
  split; [|split; [|split]].
  - intros st req res H. unfold settle. rewrite H. reflexivity.
  - reflexivity.
  - intros assets network order st n req res. unfold fetchAssets.
    destruct (dispatch (entries assets)) as [turnedAway allFetches].
    cbn [snd]. generalize (MkFetch noValid turnedAway JsSet.empty).
    induction order as [|m order IH]; intros st0 H Hin Hreq Hnet Hok;
      [contradiction|].
    cbn [settleAll] in H. destruct Hin as [->|Hin].
    + rewrite Hreq, Hnet in H. unfold settle in H. rewrite Hok in H.
      cbn [negb] in H. apply settleAll_failed_grows in H. apply H.
      unfold fail. cbn [failed]. apply in_or_app. right. left. reflexivity.
    + destruct (nth_error allFetches m) as [req'|]; [|eauto].
      destruct (settle st0 req' (network m)) as [st1|]; [|discriminate].
      eauto.
  - intros [message|b]; reflexivity.
Qed.

Lemma failed_fetch_is_reported_witness :
  ok notFound = false /\
  settle emptyBatch (Js, "https://x.com/f.js") (Resolved notFound)
  = Some (MkFetch noValid [MkFailed "https://x.com/f.js" Js "HTTP 404"]
            JsSet.empty).
Proof.
  assert (H : ok notFound = false) by reflexivity.
  split; [exact H|].
  exact (proj1 failed_fetch_is_reported emptyBatch
           (Js, "https://x.com/f.js") notFound H).
Defined.

(** *** Pieces of a name *)

Lemma split_not_nil (p : ascii -> bool) (s : string) : split p s <> [].
Proof.
  induction s as [|c s IH]; simpl; [discriminate|].
  destruct (p c); [discriminate|]. destruct (split p s); [tauto | discriminate].
Qed.

Lemma first_split_step (p : ascii -> bool) (c : ascii) (s : string) :
  first (split p (String c s))
  = if p c then "" else String c (first (split p s)).
Proof.
  simpl. destruct (p c); [reflexivity|].
  pose proof (split_not_nil p s). destruct (split p s); [tauto | reflexivity].
Qed.

Lemma first_split_clean (p : ascii -> bool) (s : string) :
  forallb_str (fun c => negb (p c)) (first (split p s)) = true.
Proof.
  induction s as [|c s IH]; [reflexivity|]. rewrite first_split_step.
  destruct (p c) eqn:E; [reflexivity|]. simpl. rewrite E. exact IH.
Qed.

Lemma first_split_keeps (p q : ascii -> bool) (s : string) :
  forallb_str q s = true -> forallb_str q (first (split p s)) = true.
Proof.
  induction s as [|c s IH]; [reflexivity|]. rewrite first_split_step.
  simpl. rewrite andb_true_iff. intros [Hc Hs].
  destruct (p c); [reflexivity|]. simpl. rewrite Hc. auto.
Qed.

Lemma first_split_id (p : ascii -> bool) (s : string) :
  forallb_str (fun c => negb (p c)) s = true -> first (split p s) = s.
Proof.
  induction s as [|c s IH]; [reflexivity|]. rewrite first_split_step.
  simpl. rewrite andb_true_iff. intros [Hc Hs].
  destruct (p c); [discriminate|]. rewrite IH; auto.
Qed.

(** A base name has neither [?] nor [#]. *)
Lemma baseOfUrl_clean (url : string) :
  forallb_str (fun c => negb (query_or_hash c)) (baseOfUrl url) = true.
Proof.
  unfold baseOfUrl.
  set (seg := pop (split (one "/") url)).
  assert (A : forallb_str (fun c => negb (one "?" c))
                (first (split (one "#") (first (split (one "?") seg)))) = true)
    by (apply first_split_keeps, first_split_clean).
  pose proof (first_split_clean (one "#") (first (split (one "?") seg))) as B.
  revert A B.
  generalize (first (split (one "#") (first (split (one "?") seg)))).
  intros s. induction s as [|c s IH]; [reflexivity|]. cbn [forallb_str].
  rewrite !andb_true_iff. intros [A1 A2] [B1 B2]. split; [|auto].
  unfold query_or_hash.
  destruct (one "?" c), (one "#" c); cbn [negb orb] in *; congruence.
Qed.

Lemma span_append_stop (p : ascii -> bool) (a : string) (c : ascii)
    (b : string) :
  forallb_str p a = true -> p c = false ->
  span p (a ++ String c b) = length a.
Proof.
  intros Ha Hc. induction a as [|x a IH]; simpl in *; [rewrite Hc; auto|].
  apply andb_true_iff in Ha. destruct Ha as [Hx Ha]. rewrite Hx. auto.
Qed.

Lemma dropChars_append (a b : string) : dropChars (length a) (a ++ b) = b.
Proof. induction a; simpl; [destruct b|]; auto. Qed.

(** Stripping takes off the prefix that the loop puts on. *)
Lemma stripDuplicatePrefix_duplicateName (n : nat) (base : string) :
  stripDuplicatePrefix (duplicateName n base) = base.
Proof.
  unfold stripDuplicatePrefix, duplicateName, startsWith.
  rewrite prefix_append.
  change (dropChars 10 ("duplicate-" ++ of_nat n ++ "-" ++ base))
    with (of_nat n ++ String "-" base).
  rewrite (span_append_stop is_digit (of_nat n) "-" base
             (of_nat_digits n) eq_refl).
  rewrite dropChars_append. pose proof (of_nat_not_empty n).
  destruct (of_nat n); [tauto | reflexivity].
Qed.

(** *** The local files in the archive *)

(** The loop over the local files does not end once the key is in the
    tracker, whatever the fuel: nothing in its body changes the test. *)
Lemma whileHasKey_never_ends (tracker : JsSet.t) (key fileName : string) :
  JsSet.has key tracker = true ->
  forall fuel baseName i,
    whileHasKey fuel tracker key fileName baseName i = None.
Proof.
  intros H. induction fuel as [|fuel IH]; intros baseName i;
    cbn [whileHasKey]; rewrite H; auto.
Qed.

(** When it ends it has not run at all, and the name is the file's. *)
Lemma whileHasKey_keeps_name (tracker : JsSet.t) (key fileName : string)
    (fuel : nat) (baseName : string) :
  whileHasKey fuel tracker key fileName fileName 1 = Some baseName ->
  baseName = fileName /\ JsSet.has key tracker = false.
Proof.
  destruct (JsSet.has key tracker) eqn:E.
  - rewrite whileHasKey_never_ends by exact E. discriminate.
  - destruct fuel; cbn [whileHasKey]; rewrite E; intros H; inversion H; auto.
Qed.

(** No local file is ever stored under a name with a prefix. *)
Lemma addLocalFiles_keeps_names (fuel : nat) (root : string)
    (files : list File) :
  forall tracker calls,
    addLocalFiles fuel root files tracker = Some calls ->
    calls = map (fun f => AddFile root (name f) (LocalFile f)) files.
Proof.
  induction files as [|f files IH]; intros tracker calls H;
    cbn [addLocalFiles] in H.
  - inversion H. reflexivity.
  - destruct (whileHasKey fuel tracker (fileKey f) (name f) (name f) 1)
      as [baseName|] eqn:E; [|discriminate].
    apply whileHasKey_keeps_name in E. destruct E as [-> _].
    destruct (addLocalFiles fuel root files (JsSet.add (fileKey f) tracker))
      as [rest|] eqn:E'; [|discriminate].
    inversion H. rewrite (IH _ _ E'). reflexivity.
Qed.

(** C1, at the failing input: two local files with different keys and
    the name [a.js] are both stored as [a.js] in the root folder, with
    any fuel, so that the archive keeps the second one only. *)
Theorem local_name_collision_is_not_renamed :
  map fileKey twoScripts = ["a.js-1-1"; "a.js-2-1"] /\
  (forall fuel root,
      addLocalFiles fuel root twoScripts JsSet.empty
      = Some [AddFile root "a.js" (LocalFile (MkFile "a.js" 1 1%Z None));
              AddFile root "a.js" (LocalFile (MkFile "a.js" 2 1%Z None))]) /\
  (forall fuel,
      generateZip fuel "02 November 2026" "Test"
        (MkApp twoScripts (map fileKey twoScripts) (Some noValid))
      = Finished
          ("Devpack-Test-02-november-2026.zip",
           [MkFolder "Test-devpack/";
            AddFile "Test-devpack/" "a.js"
              (LocalFile (MkFile "a.js" 1 1%Z None));
            AddFile "Test-devpack/" "a.js"
              (LocalFile (MkFile "a.js" 2 1%Z None))])) /\
  zipFiles
    [MkFolder "Test-devpack/";
     AddFile "Test-devpack/" "a.js" (LocalFile (MkFile "a.js" 1 1%Z None));
     AddFile "Test-devpack/" "a.js" (LocalFile (MkFile "a.js" 2 1%Z None))]
    (JsMap.empty ZipEntry)
  = [("Test-devpack/", IsFolder);
     ("Test-devpack/a.js", IsFile (LocalFile (MkFile "a.js" 2 1%Z None)))].
Proof.
  split; [reflexivity|].
  split; [intros [|fuel] root; reflexivity|].
  split; [intros [|fuel]; reflexivity | reflexivity].
Qed.

(** C2, at the failing input: with one image, a GIF, the folder
    [assets/images] is made and nothing is put into it. *)
Theorem images_folder_is_made_for_a_gif :
  isGifOrVideo "a.gif" = true /\
  forall fuel,
    exists calls,
      generateZip fuel "02 November 2026" "Test" (MkApp [] [] (Some oneGif))
      = Finished ("Devpack-Test-02-november-2026.zip", calls) /\
      calls = [MkFolder "Test-devpack/";
               MkFolder "Test-devpack/assets/";
               MkFolder "Test-devpack/assets/images/";
               MkFolder "Test-devpack/assets/gifs/";
               AddFile "Test-devpack/assets/gifs/" "a.gif" (Fetched [])] /\
      created "Test-devpack/assets/images/" calls = true /\
      placedIn "Test-devpack/assets/images/" calls = [].
Proof.
  split; [reflexivity|]. intros fuel. eexists.
  split; [reflexivity|]. split; [reflexivity|]. split; reflexivity.
Qed.

(** *** What the extractor emits *)

Lemma matches_consumes (icase : bool) (good : ascii -> bool) (r : regex) :
  consumes icase good r = true ->
  forall i w rest, matches icase r i w rest -> forallb_str good w = true.
Proof.
  induction r as [|c|p|r1 IH1 r2 IH2|r1 IH1 r2 IH2|r1 IH1|lazy min p
                  |n r1 IH1| |];
    cbn [consumes matches]; intros C i w rest M.
  - subst. reflexivity.
  - destruct M as (d & -> & E). cbn [forallb_str].
    rewrite (all_ascii_impl _ _ C d E). reflexivity.
  - destruct M as (d & -> & E). cbn [forallb_str].
    rewrite (all_ascii_impl _ _ C d E). reflexivity.
  - apply andb_true_iff in C. destruct C as [C1 C2].
    destruct M as (w1 & w2 & -> & M1 & M2). rewrite forallb_str_append.
    rewrite (IH1 C1 _ _ _ M1), (IH2 C2 _ _ _ M2). reflexivity.
  - apply andb_true_iff in C. destruct C as [C1 C2].
    destruct M as [M|M]; eauto.
  - destruct M as [->|M]; [reflexivity | eauto].
  - destruct M as [_ M]. revert M. apply forallb_str_impl.
    apply all_ascii_impl. exact C.
  - eauto.
  - destruct M as [-> _]. reflexivity.
  - destruct M as [-> _]. reflexivity.
Qed.

Lemma urlBody_no_space (i : nat) (w rest : string) :
  matches true urlBody i w rest ->
  forallb_str (fun c => negb (is_space c)) w = true.
Proof.
  apply matches_consumes. vm_compute. reflexivity.
Qed.

(** A character that is a given non-letter once in lower case is that
    character. *)
Lemma lower_char_fixed (c d : ascii) :
  is_lower c = false -> lower_char d = c -> d = c.
Proof.
  assert (H : forallb (fun c => forallb (fun d =>
                implb (negb (is_lower c) && Ascii.eqb (lower_char d) c)
                      (Ascii.eqb d c))
                all_ascii) all_ascii = true) by (vm_compute; reflexivity).
  pose proof (forallb_all_ascii _ H c) as Hc. cbv beta in Hc.
  pose proof (forallb_all_ascii _ Hc d) as Hd. cbv beta in Hd.
  intros L E. rewrite L in Hd. apply Ascii.eqb_eq in E. rewrite E in Hd.
  apply Ascii.eqb_eq. exact Hd.
Qed.

Lemma toLowerCase_slashes (w : string) : toLowerCase w = "//" -> w = "//".
Proof.
  destruct w as [|a [|b [|c w]]]; cbn [toLowerCase]; try discriminate.
  intros E. injection E as E1 E2.
  apply lower_char_fixed in E1; [|reflexivity].
  apply lower_char_fixed in E2; [|reflexivity]. subst. reflexivity.
Qed.

Lemma scheme_lower (i : nat) (w rest : string) :
  matches true (Seq (Lit "http") (Seq (Opt (Chr "s")) (Chr ":"))) i w rest ->
  (toLowerCase w = "http:" \/ toLowerCase w = "https:") /\
  exists a t, w = String a t /\ lower_char a = "h"%char.
Proof.
  cbn [matches]. intros (a & b & -> & Ma & c & d & -> & Mc & y & -> & Ey).
  apply matches_Lit_icase in Ma.
  rewrite chr_match_icase in Ey. apply Ascii.eqb_eq in Ey.
  rewrite !toLowerCase_append, Ma. cbn [toLowerCase]. rewrite <- Ey. split.
  - destruct Mc as [->|(x & -> & Ex)]; [left; reflexivity|].
    rewrite chr_match_icase in Ex. apply Ascii.eqb_eq in Ex.
    cbn [toLowerCase]. rewrite <- Ex. right. reflexivity.
  - destruct a as [|a1 a]; [discriminate|]. exists a1, (a ++ c ++ String y "").
    split; [reflexivity|]. cbn [toLowerCase] in Ma.
    injection Ma as E1 _. exact E1.
Qed.

(** A word that the URL pattern matches is protocol-relative, or begins
    with [http://] or [https://] in letters of either case. *)
Lemma urlBody_shape (i : nat) (w rest : string) :
  matches true urlBody i w rest ->
  (exists t, w = "//" ++ t) \/
  (exists a t t', w = String a t /\ lower_char a = "h"%char /\
                  (toLowerCase w = "http://" ++ t' \/
                   toLowerCase w = "https://" ++ t')).
Proof.
  unfold urlBody. cbn [matches].
  intros (w0 & wr & -> & M0 & w1 & wx & -> & M1 & _).
  apply matches_Lit_icase in M1. apply toLowerCase_slashes in M1. subst w1.
  destruct M0 as [->|M0]; [left; exists wx; reflexivity|].
  right. apply scheme_lower in M0. destruct M0 as [L (a & t & -> & Ha)].
  exists a, (t ++ "//" ++ wx), (toLowerCase wx).
  split; [reflexivity|]. split; [exact Ha|].
  rewrite toLowerCase_append.
  destruct L as [-> | ->]; [left | right]; reflexivity.
Qed.

Lemma guard_accepts_http (t : string) :
  Regex.test false guardRegex ("http://" ++ t) = true /\
  Regex.test false guardRegex ("https://" ++ t) = true.
Proof. split; reflexivity. Qed.

Lemma normalizeProtocol_emitted (i : nat) (w rest : string) :
  matches true urlBody i w rest -> emitted (normalizeProtocol w).
Proof.
  intros M. pose proof (urlBody_no_space M) as N.
  apply urlBody_shape in M. unfold emitted, normalizeProtocol.
  destruct M as [(t & ->)|(a & t & t' & -> & Ha & L)].
  - unfold startsWith. rewrite !(prefix_append "//" t).
    split; [reflexivity|].
    split; [rewrite forallb_str_append, N; reflexivity|].
    change (toLowerCase ("https:" ++ "//" ++ t))
      with ("https://" ++ toLowerCase t).
    apply guard_accepts_http.
  - assert (S : startsWith "//" (String a t) = false).
    { unfold startsWith. cbn [prefix].
      destruct (ascii_dec "/" a) as [<-|]; [discriminate Ha | reflexivity]. }
    rewrite S. split; [exact S|]. split; [exact N|].
    destruct L as [-> | ->]; apply guard_accepts_http.
Qed.

Lemma add_In (x y : string) (s : JsSet.t) :
  In x (JsSet.add y s) -> x = y \/ In x s.
Proof.
  unfold JsSet.add. destruct (JsSet.has y s); [auto|].
  rewrite in_app_iff. simpl. intuition.
Qed.

Lemma categorize_urls (include : Include) (u : string) (assets : Assets)
    (x : string) :
  In x (allUrls (categorize include u assets)) ->
  x = u \/ In x (allUrls assets).
Proof.
  unfold categorize, allUrls, entries.
  repeat match goal with
         | |- context [if ?b then _ else _] => destruct b
         end;
    cbn [flat_map snd assets_images assets_css assets_js assets_fonts];
    rewrite ?app_nil_r, ?in_app_iff; auto;
    intros H; repeat (destruct H as [H|H]; [|]); auto;
    apply add_In in H; tauto.
Qed.

Lemma urlRegex_group (m : rmatch_result) (j : nat) (s : string) :
  match_at true urlRegex j s = Some m ->
  exists i w rest, capture 1 (m_groups m) = Some w /\
                   matches true urlBody i w rest.
Proof.
  unfold urlRegex. intros H. apply match_at_group in H; [exact H|].
  simpl. tauto.
Qed.

Lemma scanMatches_urls (include : Include) (ms : list rmatch_result) :
  (forall m, In m ms -> exists j s, match_at true urlRegex j s = Some m) ->
  forall assets,
    (forall x, In x (allUrls assets) -> emitted x) ->
    forall x, In x (allUrls (scanMatches include ms assets)) -> emitted x.
Proof.
  induction ms as [|m ms IH]; intros Hms assets Ha; cbn [scanMatches];
    [exact Ha|].
  destruct (Hms m (or_introl eq_refl)) as (j & s & Hm).
  apply urlRegex_group in Hm. destruct Hm as (i & w & rest & -> & M).
  apply IH; [intros m' Hm'; apply Hms; right; exact Hm'|].
  intros x Hx. apply categorize_urls in Hx. destruct Hx as [->|Hx]; [|auto].
  exact (normalizeProtocol_emitted M).
Qed.

Lemma extract_urls (files : list File) (include : Include) (x : string) :
  In x (allUrls (extractAssetsFromFiles files include)) -> emitted x.
Proof.
  unfold extractAssetsFromFiles.
  assert (G : forall assets,
             (forall x, In x (allUrls assets) -> emitted x) ->
             forall x,
               In x (allUrls (fold_left (scanFile include) files assets)) ->
               emitted x).
  { induction files as [|f files IH]; intros assets Ha; [exact Ha|].
    cbn [fold_left]. apply IH. unfold scanFile.
    destruct (text f) as [content|]; [|exact Ha].
    apply scanMatches_urls; [|exact Ha].
    intros m Hm. unfold Regex.matchAll in Hm.
    apply matchAll_from_sound in Hm. exact Hm. }
  apply G. intros y Hy. contradiction.
Qed.

Lemma prepare_emitted (type : AssetType) (u : string) :
  emitted u ->
  prepare type u
  = if Regex.test false guardRegex u then inr (type, u)
    else inl (MkFailed u type "Unsupported or local path").
Proof.
  intros (S & N & _). unfold prepare. rewrite (trim_no_space _ N), S.
  destruct (Regex.test false guardRegex u); reflexivity.
Qed.

(** C5: from the text [<img src="//cdn.example.com/a/b.png">], with the
    images flag on, the extractor gives the one image
    [https://cdn.example.com/a/b.png] and nothing else; a leading [//] is
    completed to [https://]; and no URL in any of the four sets is left
    protocol-relative. *)
Theorem protocol_relative_url_is_normalized :
  (forall name size lastModified js css fonts,
      extractAssetsFromFiles [MkFile name size lastModified (Some imgTag)]
        (MkInclude js css fonts true)
      = MkAssets ["https://cdn.example.com/a/b.png"] [] [] []) /\
  (forall rest, normalizeProtocol ("//" ++ rest) = "https://" ++ rest) /\
  (forall files include u,
      In u (allUrls (extractAssetsFromFiles files include)) ->
      startsWith "//" u = false).
Proof.
  split; [|split].
  - intros name size lastModified [] [] []; vm_compute; reflexivity.
  - intros rest. unfold normalizeProtocol, startsWith.
    rewrite (prefix_append "//" rest). reflexivity.
  - intros files include u H. apply extract_urls in H. apply H.
Qed.

Lemma protocol_relative_url_is_normalized_witness :
  In "https://cdn.example.com/a/b.png"
     (allUrls (extractAssetsFromFiles
                 [MkFile "page.html" 37 0%Z (Some imgTag)] everyType)) /\
  startsWith "//" "https://cdn.example.com/a/b.png" = false.
Proof.
  assert (H : In "https://cdn.example.com/a/b.png"
                (allUrls (extractAssetsFromFiles
                            [MkFile "page.html" 37 0%Z (Some imgTag)]
                            everyType)))
    by (vm_compute; auto).
  split; [exact H|].
  exact (proj2 (proj2 protocol_relative_url_is_normalized) _ _ _ H).
Defined.

(** C9, as amended: every URL that the extractor emits has no white
    space around it, is not protocol-relative and begins with [http://]
    or [https://] once its letters are put in lower case; the fetcher
    turns it away exactly when its own, case-sensitive, guard does not
    match the URL as it is written. *)
Theorem emitted_url_has_http_scheme (files : list File) (include : Include)
    (u : string) :
  In u (allUrls (extractAssetsFromFiles files include)) ->
  trim u = u /\
  startsWith "//" u = false /\
  Regex.test false guardRegex (toLowerCase u) = true /\
  forall type,
    prepare type u
    = if Regex.test false guardRegex u then inr (type, u)
      else inl (MkFailed u type "Unsupported or local path").
Proof.
  intros H. apply extract_urls in H. pose proof H as (S & N & G).
  split; [apply trim_no_space; exact N|]. split; [exact S|].
  split; [exact G|]. intros type. apply prepare_emitted. exact H.
Qed.

Lemma emitted_url_has_http_scheme_witness :
  In "https://cdn.example.com/a/b.png"
     (allUrls (extractAssetsFromFiles
                 [MkFile "page.html" 37 0%Z (Some imgTag)] everyType)) /\
  prepare Images "https://cdn.example.com/a/b.png"
  = inr (Images, "https://cdn.example.com/a/b.png").
Proof.
  assert (H : In "https://cdn.example.com/a/b.png"
                (allUrls (extractAssetsFromFiles
                            [MkFile "page.html" 37 0%Z (Some imgTag)]
                            everyType)))
    by (vm_compute; auto).
  split; [exact H|].
  exact (proj2 (proj2 (proj2 (emitted_url_has_http_scheme _ _ _ H))) Images).
Defined.

(** C9, as stated, fails for a URL written with the scheme in upper
    case: the extractor emits it, since its pattern ignores case, and
    the fetcher turns it away as unsupported. *)
Lemma unsupported_branch_counterexample :
  extractAssetsFromFiles [upperCasePage] everyType
  = MkAssets ["HTTP://cdn.example.com/a/b.png"] [] [] [] /\
  Regex.test false guardRegex "HTTP://cdn.example.com/a/b.png" = false /\
  dispatch (entries (extractAssetsFromFiles [upperCasePage] everyType))
  = ([MkFailed "HTTP://cdn.example.com/a/b.png" Images
        "Unsupported or local path"], []).
Proof. split; [|split]; vm_compute; reflexivity. Qed.

(** *** Endings of names *)

Lemma split_at (s : string) :
  forall n, n <= length s -> exists a b, s = a ++ b /\ length a = n.
Proof.
  induction s as [|c s IH]; intros [|n] H; simpl in H.
  - exists "", ""; auto.
  - lia.
  - exists "", (String c s); auto.
  - destruct (IH n) as (a & b & -> & L); [lia|].
    exists (String c a), b. simpl. auto.
Qed.

(** A name ends, in lower case, with a word exactly when its own ending
    is that word in letters of either case. *)
Lemma endsWith_lower (q f : string) :
  endsWith (toLowerCase q) (toLowerCase f) = true <->
  exists pre w, f = pre ++ w /\ toLowerCase w = toLowerCase q.
Proof.
  split.
  - intros H. apply endsWith_split in H. destruct H as [pre' E].
    pose proof (f_equal length E) as L.
    rewrite length_append, !toLowerCase_length in L.
    destruct (@split_at f (length pre')) as (a & b & -> & La); [lia|].
    exists a, b. split; [reflexivity|].
    rewrite toLowerCase_append in E.
    apply append_inv_length in E; [tauto|].
    rewrite toLowerCase_length. exact La.
  - intros (pre & w & -> & E). rewrite toLowerCase_append, E.
    apply endsWith_append.
Qed.

Lemma matches_AnyOf (icase : bool) (rs : list regex) :
  rs <> [] ->
  forall i w rest,
    matches icase (AnyOf rs) i w rest <->
    exists r, In r rs /\ matches icase r i w rest.
Proof.
  induction rs as [|r rs IH]; [tauto|]. intros _ i w rest.
  destruct rs as [|r' rs].
  - cbn [AnyOf]. split; [intros M; exists r; simpl; auto|].
    intros (r0 & [<-|[]] & M). exact M.
  - change (AnyOf (r :: r' :: rs)) with (Alt r (AnyOf (r' :: rs))).
    cbn [matches]. rewrite IH by discriminate. split.
    + intros [M|(r0 & Hin & M)]; [exists r | exists r0]; simpl; auto.
    + intros (r0 & [<-|Hin] & M); [left; exact M | right; exists r0; auto].
Qed.

(** The patterns made of a dot, one of some extensions and the end. *)
Lemma extension_test (ps : list string) (f : string) :
  ps <> [] ->
  Regex.test true (Seq (Chr ".") (Seq (Group 1 (AnyOf (map Lit ps))) Eol)) f
  = true <->
  exists p, In p ps /\
            endsWith (toLowerCase (String "." p)) (toLowerCase f) = true.
Proof.
  intros Hps. rewrite test_spec. cbn [matches].
  assert (Hrs : map Lit ps <> []) by (destruct ps; [tauto | discriminate]).
  split.
  - intros (pre & w & rest & -> & w1 & w2 & -> & (d & -> & Ed) & w3 & w4 & ->
            & M & -> & ->).
    apply (matches_AnyOf true Hrs) in M. destruct M as (r & Hr & M).
    apply in_map_iff in Hr. destruct Hr as (p & <- & Hp).
    apply matches_Lit_icase in M. exists p. split; [exact Hp|].
    apply endsWith_lower. exists pre, (String d w3).
    rewrite !append_nil_r. split; [reflexivity|].
    rewrite chr_match_icase in Ed. apply Ascii.eqb_eq in Ed.
    cbn [toLowerCase]. rewrite M, Ed. reflexivity.
  - intros (p & Hp & E). apply endsWith_lower in E.
    destruct E as (pre & w & -> & E).
    destruct w as [|d w3]; [discriminate|]. cbn [toLowerCase] in E.
    injection E as Ed E3.
    exists pre, (String d w3), "". split; [rewrite append_nil_r; reflexivity|].
    exists (String d ""), w3. split; [reflexivity|].
    split; [exists d; split; [reflexivity|]; rewrite chr_match_icase;
            apply Ascii.eqb_eq; auto|].
    exists w3, "". rewrite append_nil_r. split; [reflexivity|].
    split; [|auto]. apply (matches_AnyOf true Hrs).
    exists (Lit p). split; [apply in_map; exact Hp|].
    apply matches_Lit_icase. exact E3.
Qed.

Lemma literal_end_test (p f : string) :
  Regex.test true (Seq (Lit p) Eol) f = true <->
  endsWith (toLowerCase p) (toLowerCase f) = true.
Proof.
  rewrite test_spec, endsWith_lower. cbn [matches]. split.
  - intros (pre & w & rest & -> & w1 & w2 & -> & M & -> & ->).
    apply matches_Lit_icase in M. exists pre, w1.
    rewrite !append_nil_r. auto.
  - intros (pre & w & -> & E). exists pre, w, "".
    split; [rewrite append_nil_r; reflexivity|].
    exists w, "". rewrite append_nil_r. split; [reflexivity|].
    split; [|auto]. apply matches_Lit_icase. exact E.
Qed.

Lemma isVideo_spec (f : string) :
  isVideo f = (endsWith ".mp4" (toLowerCase f)
               || endsWith ".webm" (toLowerCase f)
               || endsWith ".ogg" (toLowerCase f))%bool.
Proof.
  apply eq_true_iff_eq. unfold isVideo, videoRegex.
  change (AnyOf [Lit "mp4"; Lit "webm"; Lit "ogg"])
    with (AnyOf (map Lit ["mp4"; "webm"; "ogg"])).
  rewrite extension_test by discriminate. rewrite !orb_true_iff. split.
  - intros (p & [<-|[<-|[<-|[]]]] & E); auto.
  - intros [[E|E]|E]; [exists "mp4" | exists "webm" | exists "ogg"];
      (split; [simpl; auto | exact E]).
Qed.

Lemma isGifOrVideo_spec (f : string) :
  isGifOrVideo f = (endsWith ".gif" (toLowerCase f)
                    || endsWith ".mp4" (toLowerCase f)
                    || endsWith ".webm" (toLowerCase f)
                    || endsWith ".ogg" (toLowerCase f))%bool.
Proof.
  apply eq_true_iff_eq. unfold isGifOrVideo, gifOrVideoRegex.
  change (AnyOf [Lit "gif"; Lit "mp4"; Lit "webm"; Lit "ogg"])
    with (AnyOf (map Lit ["gif"; "mp4"; "webm"; "ogg"])).
  rewrite extension_test by discriminate. rewrite !orb_true_iff. split.
  - intros (p & [<-|[<-|[<-|[<-|[]]]]] & E); auto.
  - intros [[[E|E]|E]|E];
      [exists "gif" | exists "mp4" | exists "webm" | exists "ogg"];
      (split; [simpl; auto | exact E]).
Qed.

Lemma isGif_spec (f : string) : isGif f = endsWith ".gif" (toLowerCase f).
Proof.
  apply eq_true_iff_eq. unfold isGif, gifRegex. apply literal_end_test.
Qed.

Lemma lastChar_append (pre : string) (c : ascii) (s : string) :
  lastChar (pre ++ String c s) = lastChar (String c s).
Proof.
  induction pre as [|d pre IH]; [reflexivity|].
  cbn [append]. rewrite <- IH. cbn [lastChar].
  destruct (pre ++ String c s) eqn:E; [|reflexivity].
  destruct pre; discriminate.
Qed.

Lemma endsWith_lastChar (c : ascii) (p s : string) :
  endsWith (String c p) s = true -> lastChar s = lastChar (String c p).
Proof.
  intros H. apply endsWith_split in H. destruct H as [pre ->].
  apply lastChar_append.
Qed.

(** The code's three tests and the folder of the layout agree. *)
Lemma folder_tests (f : string) :
  negb (isGifOrVideo f) = String.eqb (subfolderOf f) "images" /\
  isVideo f = String.eqb (subfolderOf f) "videos" /\
  isGif f = String.eqb (subfolderOf f) "gifs".
Proof.
  rewrite isGifOrVideo_spec, isVideo_spec, isGif_spec. unfold subfolderOf.
  destruct (endsWith ".gif" (toLowerCase f)) eqn:G;
    destruct (endsWith ".mp4" (toLowerCase f)) eqn:A;
    destruct (endsWith ".webm" (toLowerCase f)) eqn:B;
    destruct (endsWith ".ogg" (toLowerCase f)) eqn:C;
    try (repeat split; reflexivity);
    exfalso; apply endsWith_lastChar in G;
    try (apply endsWith_lastChar in A; rewrite A in G; discriminate);
    try (apply endsWith_lastChar in B; rewrite B in G; discriminate);
    try (apply endsWith_lastChar in C; rewrite C in G; discriminate).
Qed.

Lemma subfolderOf_cases (f : string) :
  In (subfolderOf f) ["images"; "videos"; "gifs"].
Proof.
  unfold subfolderOf.
  repeat match goal with
         | |- context [if ?b then _ else _] => destruct b
         end; simpl; auto.
Qed.

(** *** Clean names *)

Lemma digit_clean (c : ascii) :
  is_digit c = true -> negb (query_or_hash c) = true.
Proof.
  apply (all_ascii_impl is_digit (fun c => negb (query_or_hash c))).
  vm_compute. reflexivity.
Qed.

Lemma candidate_clean (base : string) (n : nat) :
  cleanName base -> cleanName (candidate base n).
Proof.
  unfold cleanName. intros H. destruct n as [|n]; [exact H|].
  cbn [candidate]. unfold duplicateName.
  rewrite !forallb_str_append, H.
  rewrite (forallb_str_impl _ _ _ digit_clean (of_nat_digits (S n))).
  reflexivity.
Qed.

Lemma keys_set_In (V : Type) (k : string) (v : V) (m : JsMap.t V)
    (x : string) :
  In x (JsMap.keys (JsMap.set k v m)) -> x = k \/ In x (JsMap.keys m).
Proof.
  induction m as [|[k' v'] m IH]; simpl; [intuition congruence|].
  destruct (String.eqb k k'); simpl; intuition congruence.
Qed.

Lemma validSet_In (type : AssetType) (k : string) (b : Blob)
    (v : ValidAssets) (x : string) :
  In x (validNames (validSet type k b v)) -> x = k \/ In x (validNames v).
Proof.
  unfold validNames. destruct type;
    cbn [validSet valid_images valid_fonts valid_css valid_js];
    rewrite !in_app_iff; intros [H|[H|[H|H]]];
    try (apply (@keys_set_In Blob k b) in H).
  all: tauto.
Qed.

Lemma settle_clean (st st' : FetchState) (req : Request)
    (out : FetchOutcome) :
  settle st req out = Some st' ->
  Forall cleanName (validNames (valid st)) ->
  Forall cleanName (validNames (valid st')).
Proof.
  unfold settle. intros H C.
  destruct out as [res|message]; [|inversion H; exact C].
  destruct (negb (ok res)); [inversion H; exact C|].
  destruct (blob res) as [message|b]; [inversion H; exact C|].
  destruct (generateUniqueName_spec (assetNameTracker st) (snd req))
    as (n & E & _). rewrite E in H. inversion H; subst; clear H.
  cbn [valid]. rewrite Forall_forall in *. intros x Hx.
  apply validSet_In in Hx. destruct Hx as [->|Hx]; [|auto].
  apply candidate_clean, baseOfUrl_clean.
Qed.

Lemma settleAll_clean (requests : list Request)
    (network : nat -> FetchOutcome) (order : list nat) :
  forall st st',
    settleAll requests network order st = Some st' ->
    Forall cleanName (validNames (valid st)) ->
    Forall cleanName (validNames (valid st')).
Proof.
  induction order as [|n order IH]; intros st st' H C; cbn [settleAll] in H.
  - inversion H; subst. exact C.
  - destruct (nth_error requests n) as [req|]; [|eauto].
    destruct (settle st req (network n)) as [st1|] eqn:E; [|discriminate].
    eapply IH; [exact H|]. eapply settle_clean; eauto.
Qed.

(** The names of a batch are clean and differ from one another. *)
Lemma fetchAssets_names (assets : Assets) (network : nat -> FetchOutcome)
    (order : list nat) (st : FetchState) :
  fetchAssets assets network order = Some st ->
  NoDup (validNames (valid st)) /\ Forall cleanName (validNames (valid st)).
Proof.
  unfold fetchAssets.
  destruct (dispatch (entries assets)) as [turnedAway allFetches].
  intros H. split.
  - destruct (@settleAll_inv allFetches network order
                (MkFetch noValid turnedAway JsSet.empty))
      as (st' & E & [N _] & _).
    + split; [constructor|]. intros x. simpl. split; [discriminate | tauto].
    + congruence.
  - eapply settleAll_clean; [exact H|]. constructor.
Qed.

(** *** The folders of the archive *)

Lemma uniqueName_fresh (tracker : JsSet.t) (base : string) :
  JsSet.has base tracker = false -> uniqueName tracker base = Some base.
Proof.
  intros F. destruct (uniqueName_spec tracker base) as (n & E & _ & Hall).
  destruct n as [|n]; [exact E|].
  specialize (Hall 0 (Nat.lt_0_succ n)). cbn [candidate] in Hall. congruence.
Qed.

(** A loop over a map always ends. *)
Lemma placeEntries_total (keep : string -> bool) (dir : string)
    (entries : JsMap.t Blob) :
  forall tracker, placeEntries keep dir entries tracker <> None.
Proof.
  induction entries as [|[f b] entries IH]; intros tracker;
    cbn [placeEntries]; [discriminate|].
  destruct (keep f); [|apply IH].
  destruct (uniqueName_spec tracker (first (split query_or_hash f)))
    as (n & -> & _).
  specialize (IH (JsSet.add
    (candidate (first (split query_or_hash f)) n) tracker)).
  destruct (placeEntries keep dir entries _); [discriminate | tauto].
Qed.

(** With clean names that differ from one another, every entry keeps
    its name. *)
Lemma placeEntries_clean (keep : string -> bool) (dir : string)
    (entries : JsMap.t Blob) :
  forall tracker,
    NoDup (JsMap.keys entries) ->
    Forall cleanName (JsMap.keys entries) ->
    (forall x, In x tracker -> ~ In x (JsMap.keys entries)) ->
    placeEntries keep dir entries tracker
    = Some (map (fun e => AddFile dir (fst e) (Fetched (snd e)))
              (filter (fun e => keep (fst e)) entries)).
Proof.
  induction entries as [|[f b] entries IH]; intros tracker N C T;
    cbn [placeEntries filter fst]; [reflexivity|].
  simpl in N, C, T. inversion N as [|? ? Nf N']; subst.
  inversion C as [|? ? Cf C']; subst.
  destruct (keep f).
  - rewrite (first_split_id query_or_hash f Cf).
    assert (F : JsSet.has f tracker = false).
    { destruct (JsSet.has f tracker) eqn:E; [|reflexivity].
      apply has_In in E. exfalso. apply (T f E). left. reflexivity. }
    rewrite (uniqueName_fresh _ _ F), IH; [reflexivity | assumption.. |].
    intros x Hx. rewrite add_fresh in Hx by exact F.
    apply in_app_or in Hx. destruct Hx as [Hx|[<-|[]]]; [|exact Nf].
    intros Hin. apply (T x Hx). right. exact Hin.
  - apply IH; auto. intros x Hx Hin. apply (T x Hx). right. exact Hin.
Qed.

Lemma folderIf_clean (cond : bool) (parent fname : string)
    (keep : string -> bool) (entries : JsMap.t Blob) :
  NoDup (JsMap.keys entries) ->
  Forall cleanName (JsMap.keys entries) ->
  folderIf cond parent fname keep entries
  = Some (block cond (parent ++ fname ++ "/") keep entries).
Proof.
  intros N C. unfold folderIf, block, folder. destruct cond; [|reflexivity].
  rewrite placeEntries_clean; auto.
Qed.

Lemma addLocalFiles_total (fuel : nat) (root : string) (files : list File) :
  forall tracker,
    NoDup (map fileKey files) ->
    (forall x, In x tracker -> ~ In x (map fileKey files)) ->
    addLocalFiles fuel root files tracker
    = Some (map (fun f => AddFile root (name f) (LocalFile f)) files).
Proof.
  induction files as [|f files IH]; intros tracker N T;
    cbn [addLocalFiles map]; [reflexivity|].
  simpl in N, T. inversion N as [|? ? Nf N']; subst.
  assert (F : JsSet.has (fileKey f) tracker = false).
  { destruct (JsSet.has (fileKey f) tracker) eqn:E; [|reflexivity].
    apply has_In in E. exfalso. apply (T _ E). left. reflexivity. }
  assert (W : whileHasKey fuel tracker (fileKey f) (name f) (name f) 1
              = Some (name f))
    by (destruct fuel; cbn [whileHasKey]; rewrite F; reflexivity).
  rewrite W, IH; [reflexivity | exact N' |].
  intros x Hx. rewrite add_fresh in Hx by exact F.
  apply in_app_or in Hx. destruct Hx as [Hx|[<-|[]]]; [|exact Nf].
  intros Hin. apply (T x Hx). right. exact Hin.
Qed.

(** *** Paths *)

Lemma eqb_append_head (a b c : string) :
  String.eqb (a ++ b) (a ++ c) = String.eqb b c.
Proof.
  induction a as [|x a IH]; [reflexivity|].
  cbn [append String.eqb]. rewrite Ascii.eqb_refl. exact IH.
Qed.

Lemma eqb_append_self (a : string) (c : ascii) (s : string) :
  String.eqb a (a ++ String c s) = false.
Proof.
  apply String.eqb_neq. intros E. apply (f_equal length) in E.
  rewrite length_append in E. simpl in E. lia.
Qed.

(** Two paths under the same root differ when what follows the root
    differs. *)
Ltac path_neq :=
  rewrite ?append_assoc; cbn [append];
  first [ apply eqb_append_self
        | rewrite eqb_append_head; reflexivity ].

Lemma placedIn_app (dir : string) (a b : list ZipCall) :
  placedIn dir (a ++ b) = (placedIn dir a ++ placedIn dir b)%list.
Proof.
  induction a as [|[path|d f data] a IH]; cbn [app placedIn]; auto.
  destruct (String.eqb d dir); [cbn [app]; f_equal|]; exact IH.
Qed.

Lemma placedIn_locals (dir root : string) (files : list File) :
  String.eqb root dir = false ->
  placedIn dir (map (fun f => AddFile root (name f) (LocalFile f)) files) = [].
Proof.
  intros E. induction files as [|f files IH]; [reflexivity|].
  cbn [map placedIn]. rewrite E. exact IH.
Qed.

Lemma placedIn_block_other (dir dir' : string) (cond : bool)
    (keep : string -> bool) (entries : JsMap.t Blob) :
  String.eqb dir' dir = false ->
  placedIn dir (block cond dir' keep entries) = [].
Proof.
  intros E. unfold block. destruct cond; [|reflexivity]. cbn [placedIn].
  induction (filter (fun e => keep (fst e)) entries) as [|e l IH];
    [reflexivity|].
  cbn [map placedIn]. rewrite E. exact IH.
Qed.

Lemma placedIn_block_same (dir : string) (cond : bool)
    (keep : string -> bool) (entries : JsMap.t Blob) :
  (cond = false -> filter (fun e => keep (fst e)) entries = []) ->
  placedIn dir (block cond dir keep entries)
  = map asPlaced (filter (fun e => keep (fst e)) entries).
Proof.
  intros H. unfold block.
  destruct cond; [|rewrite H by reflexivity; reflexivity].
  clear H. cbn [placedIn].
  induction (filter (fun e => keep (fst e)) entries) as [|e l IH];
    [reflexivity|].
  cbn [map placedIn]. rewrite String.eqb_refl, IH. reflexivity.
Qed.

Lemma existsb_false_filter (A : Type) (f : A -> bool) (l : list A) :
  existsb f l = false -> filter f l = [].
Proof.
  induction l as [|a l IH]; [reflexivity|]. simpl.
  destruct (f a); [discriminate | exact IH].
Qed.

Lemma hasAssets_false_nil (m : JsMap.t Blob) :
  Nat.ltb 0 (JsMap.size m) = false -> m = [].
Proof. destruct m; [reflexivity | discriminate]. Qed.

Lemma validNames_parts (zc : ValidAssets) (P : list string -> Prop) :
  (forall a b, P (a ++ b)%list -> P a /\ P b) ->
  P (validNames zc) ->
  P (JsMap.keys (valid_images zc)) /\ P (JsMap.keys (valid_fonts zc)) /\
  P (JsMap.keys (valid_css zc)) /\ P (JsMap.keys (valid_js zc)).
Proof.
  unfold validNames. intros S H.
  apply S in H. destruct H as [H1 H]. apply S in H. destruct H as [H2 H].
  apply S in H. destruct H as [H3 H4]. auto.
Qed.

Lemma NoDup_app_parts (A : Type) (a b : list A) :
  NoDup (a ++ b) -> NoDup a /\ NoDup b.
Proof.
  intros H. split; [apply (NoDup_app_remove_r _ _ H)
                   | apply (NoDup_app_remove_l _ _ H)].
Qed.

Lemma Forall_app_parts (A : Type) (P : A -> Prop) (a b : list A) :
  Forall P (a ++ b) -> Forall P a /\ Forall P b.
Proof. apply Forall_app. Qed.

(** With clean names that differ from one another and local files of
    different keys, the listener ends and makes the calls of the
    layout. *)
Lemma generateZip_layout (fuel : nat) (date value : string) (page : AppState)
    (zc : ValidAssets) :
  NoDup (map fileKey (collectedFiles page)) ->
  zipContent page = Some zc ->
  NoDup (validNames zc) ->
  Forall cleanName (validNames zc) ->
  exists filename,
    generateZip fuel date value page
    = Finished (filename, layout value (collectedFiles page) zc).
Proof.
  intros Nk Hzc N C.
  destruct (@validNames_parts zc (@NoDup string)
              (@NoDup_app_parts string) N)
    as (N1 & N2 & N3 & N4).
  destruct (@validNames_parts zc (Forall cleanName)
              (@Forall_app_parts string cleanName) C)
    as (C1 & C2 & C3 & C4).
  unfold generateZip, folder. cbn [append].
  rewrite addLocalFiles_total by (auto; intros x []).
  rewrite Hzc. unfold addFetched, addAssets, folder.
  rewrite !folderIf_clean by assumption.
  change (hasAssets zc "videos") with false.
  change (hasAssets zc "gifs") with false.
  rewrite !orb_false_r. eexists. unfold layout, rootOf.
  destruct (hasAssets zc "images" || hasAssets zc "fonts")%bool;
    cbn [andThen app]; rewrite ?app_nil_r; reflexivity.
Qed.

Lemma filter_folder (dir : string) (keep : string -> bool)
    (entries : JsMap.t Blob) :
  (forall f, keep f = String.eqb (subfolderOf f) dir) ->
  filter (fun e => keep (fst e)) entries
  = filter (fun e => String.eqb (subfolderOf (fst e)) dir) entries.
Proof. intros H. apply filter_ext. intros e. apply H. Qed.

(** In the layout, each of the three folders for images holds the
    entries of [zipContent.images] that the ending of the name sends
    there. *)
Lemma placedIn_layout (value : string) (files : list File)
    (zc : ValidAssets) (dir : string) :
  In dir ["images"; "videos"; "gifs"] ->
  placedIn ((rootOf value ++ "assets/") ++ dir ++ "/")
    (layout value files zc)
  = imagesFor dir zc.
Proof.
  assert (Empty : hasAssets zc "images" = false -> valid_images zc = [])
    by (apply hasAssets_false_nil).
  intros [<-|[<-|[<-|[]]]]; unfold layout, imagesFor; cbn [placedIn append];
    rewrite !placedIn_app, placedIn_locals by path_neq;
    rewrite !(@placedIn_block_other _ (rootOf value ++ "script/"))
      by path_neq;
    rewrite !(@placedIn_block_other _ (rootOf value ++ "style/"))
      by path_neq;
    rewrite ?app_nil_r; cbn [List.app].
  - rewrite <- (filter_folder "images" (fun f => negb (isGifOrVideo f)))
      by (intros f; apply folder_tests).
    destruct (hasAssets zc "images") eqn:E; cbn [orb].
    + cbn [placedIn]. rewrite !placedIn_app.
      rewrite placedIn_block_same by discriminate.
      repeat rewrite (@placedIn_block_other _ (_ ++ "fonts/")) by path_neq.
      repeat rewrite (@placedIn_block_other _ (_ ++ "videos/")) by path_neq.
      repeat rewrite (@placedIn_block_other _ (_ ++ "gifs/")) by path_neq.
      rewrite ?app_nil_r. reflexivity.
    + rewrite (Empty eq_refl).
      destruct (hasAssets zc "fonts"); [|reflexivity].
      cbn [placedIn]. rewrite !placedIn_app.
      repeat rewrite (@placedIn_block_other _ (_ ++ "fonts/")) by path_neq.
      unfold block. reflexivity.
  - rewrite <- (filter_folder "videos" isVideo)
      by (intros f; apply folder_tests).
    destruct (hasAssets zc "images") eqn:E; cbn [orb].
    + cbn [placedIn]. rewrite !placedIn_app.
      rewrite (@placedIn_block_same (_ ++ "videos/"))
        by (apply existsb_false_filter).
      repeat rewrite (@placedIn_block_other _ (_ ++ "images/")) by path_neq.
      repeat rewrite (@placedIn_block_other _ (_ ++ "fonts/")) by path_neq.
      repeat rewrite (@placedIn_block_other _ (_ ++ "gifs/")) by path_neq.
      rewrite ?app_nil_r. reflexivity.
    + rewrite (Empty eq_refl).
      destruct (hasAssets zc "fonts"); [|reflexivity].
      cbn [placedIn]. rewrite !placedIn_app.
      repeat rewrite (@placedIn_block_other _ (_ ++ "fonts/")) by path_neq.
      unfold block. reflexivity.
  - rewrite <- (filter_folder "gifs" isGif)
      by (intros f; apply folder_tests).
    destruct (hasAssets zc "images") eqn:E; cbn [orb].
    + cbn [placedIn]. rewrite !placedIn_app.
      rewrite (@placedIn_block_same (_ ++ "gifs/"))
        by (apply existsb_false_filter).
      repeat rewrite (@placedIn_block_other _ (_ ++ "images/")) by path_neq.
      repeat rewrite (@placedIn_block_other _ (_ ++ "fonts/")) by path_neq.
      repeat rewrite (@placedIn_block_other _ (_ ++ "videos/")) by path_neq.
      rewrite ?app_nil_r. reflexivity.
    + rewrite (Empty eq_refl).
      destruct (hasAssets zc "fonts"); [|reflexivity].
      cbn [placedIn]. rewrite !placedIn_app.
      repeat rewrite (@placedIn_block_other _ (_ ++ "fonts/")) by path_neq.
      unfold block. reflexivity.
Qed.

Lemma asPlaced_In (f : string) (b : Blob) (l : list (string * Blob)) :
  In (f, Fetched b) (map asPlaced l) <-> In (f, b) l.
Proof.
  rewrite in_map_iff. split.
  - intros ([f' b'] & E & H). unfold asPlaced in E. simpl in E.
    inversion E; subst. exact H.
  - intros H. exists (f, b). auto.
Qed.

(** C8: with the result of a fetch batch as [zipContent] and local
    files of different keys, the listener ends and leaves the page state
    as it was; each of [assets/images], [assets/videos] and [assets/gifs]
    receives the entries of [zipContent.images] whose name ends the way
    the layout says, under their own names; so an entry is put into a
    folder exactly when that folder is the one of its ending: one folder
    out of the three. *)
Theorem images_are_placed_by_extension :
  forall assets network order st fuel date value page,
    fetchAssets assets network order = Some st ->
    NoDup (map fileKey (collectedFiles page)) ->
    zipContent page = Some (valid st) ->
    exists filename calls,
      clickGenerate fuel date value page
      = Finished (page, (filename, calls)) /\
      (forall dir,
          In dir ["images"; "videos"; "gifs"] ->
          placedIn ((rootOf value ++ "assets/") ++ dir ++ "/") calls
          = imagesFor dir (valid st)) /\
      (forall f b,
          In (f, b) (valid_images (valid st)) ->
          first (split query_or_hash f) = f /\
          In (subfolderOf f) ["images"; "videos"; "gifs"] /\
          forall dir,
            In dir ["images"; "videos"; "gifs"] ->
            (In (f, Fetched b)
                (placedIn ((rootOf value ++ "assets/") ++ dir ++ "/") calls)
             <-> dir = subfolderOf f)).
Proof.
  intros assets network order st fuel date value page Hst Nk Hzc.
  destruct (fetchAssets_names _ _ _ Hst) as [N C].
  destruct (@generateZip_layout fuel date value page (valid st) Nk Hzc N C)
    as [filename E].
  exists filename, (layout value (collectedFiles page) (valid st)).
  unfold clickGenerate. rewrite E. split; [reflexivity|].
  split; [intros dir Hdir; apply placedIn_layout; exact Hdir|].
  intros f b Hin. split; [|split].
  - apply first_split_id.
    destruct (@validNames_parts (valid st) (Forall cleanName)
                (@Forall_app_parts string cleanName) C) as (C1 & _).
    rewrite Forall_forall in C1. apply C1.
    unfold JsMap.keys. apply (in_map fst) in Hin. exact Hin.
  - apply subfolderOf_cases.
  - intros dir Hdir. rewrite placedIn_layout by exact Hdir.
    unfold imagesFor. rewrite asPlaced_In, filter_In. cbn [fst].
    rewrite String.eqb_eq. split; [intros [_ H]; auto | auto].
Qed.

Lemma images_are_placed_by_extension_witness :
  fetchAssets sampleAssets sampleNetwork [2; 0; 1] = Some sampleBatch /\
  NoDup (map fileKey (collectedFiles samplePage)) /\
  zipContent samplePage = Some (valid sampleBatch) /\
  exists filename calls,
    clickGenerate 0 "02 November 2026" "Test" samplePage
    = Finished (samplePage, (filename, calls)) /\
    placedIn "Test-devpack/assets/videos/" calls = [("clip.MP4", Fetched [])].
Proof.
  assert (H1 : fetchAssets sampleAssets sampleNetwork [2; 0; 1]
               = Some sampleBatch) by reflexivity.
  assert (H2 : NoDup (map fileKey (collectedFiles samplePage)))
    by (repeat constructor; simpl; tauto).
  assert (H3 : zipContent samplePage = Some (valid sampleBatch))
    by reflexivity.
  split; [exact H1|]. split; [exact H2|]. split; [exact H3|].
  destruct (@images_are_placed_by_extension sampleAssets sampleNetwork
              [2; 0; 1] sampleBatch 0 "02 November 2026" "Test" samplePage
              H1 H2 H3)
    as (filename & calls & E & P & _).
  exists filename, calls. split; [exact E|].
  exact (P "videos" (or_intror (or_introl eq_refl))).
Defined.

(** *** The key set *)

Lemma newUniqueFiles_spec (fs : list File) :
  forall keys,
    NoDup (map fileKey (fst (newUniqueFiles fs keys))) /\
    (forall g, In g (fst (newUniqueFiles fs keys)) ->
               JsSet.has (fileKey g) keys = false) /\
    (forall x, JsSet.has x (snd (newUniqueFiles fs keys)) = true <->
               JsSet.has x keys = true \/
               In x (map fileKey (fst (newUniqueFiles fs keys)))).
Proof.
  induction fs as [|f fs IH]; intros keys; cbn [newUniqueFiles].
  - cbn [fst snd map]. split; [constructor|]. split; [intros g []|].
    intros x. simpl. tauto.
  - destruct (JsSet.has (fileKey f) keys) eqn:E; cbn [negb]; [apply IH|].
    destruct (IH (JsSet.add (fileKey f) keys)) as (N & F & K).
    destruct (newUniqueFiles fs (JsSet.add (fileKey f) keys))
      as [fresh keys'].
    cbn [fst snd map] in *.
    assert (Old : forall g, In g fresh ->
                    fileKey g <> fileKey f /\
                    JsSet.has (fileKey g) keys = false).
    { intros g Hg. specialize (F g Hg). rewrite has_add in F.
      apply orb_false_iff in F. destruct F as [F1 F2].
      apply String.eqb_neq in F1. auto. }
    split; [|split].
    + constructor; [|exact N]. intros Hin. apply in_map_iff in Hin.
      destruct Hin as (g & Eg & Hg). apply (proj1 (Old g Hg)). exact Eg.
    + intros g [<-|Hg]; [exact E | apply Old; exact Hg].
    + intros x. rewrite K, has_add, orb_true_iff, String.eqb_eq.
      simpl. intuition congruence.
Qed.

(** Whatever is dropped or selected, the collected files keep keys that
    differ from one another. *)
Lemma updatePreview_inv (newFiles : list File) (page : AppState) :
  files_inv page -> files_inv (updatePreview newFiles page).
Proof.
  intros [N H]. unfold updatePreview, files_inv.
  destruct (newUniqueFiles_spec newFiles (uploadedFileSet page))
    as (Nf & F & K).
  destruct (newUniqueFiles newFiles (uploadedFileSet page)) as [fresh keys].
  cbn [fst snd collectedFiles uploadedFileSet] in *. split.
  - rewrite map_app. apply NoDup_app; auto.
    intros x Hx Hx'. apply in_map_iff in Hx. destruct Hx as (f & <- & Hf).
    apply in_map_iff in Hx'. destruct Hx' as (g & Eg & Hg).
    specialize (H f Hf). specialize (F g Hg). congruence.
  - intros f Hf. apply K. apply in_app_or in Hf.
    destruct Hf as [Hf|Hf]; [left; auto | right; apply in_map; exact Hf].
Qed.

Lemma initialState_inv : files_inv initialState.
Proof. split; [constructor | intros f []]. Qed.

Lemma onDrop_inv (files : list File) (page : AppState) :
  files_inv page -> files_inv (onDrop files page).
Proof. apply updatePreview_inv. Qed.

Lemma onChange_inv (files : list File) (page : AppState) :
  files_inv page -> files_inv (onChange files page).
Proof. apply updatePreview_inv. Qed.

(** *** The folders that are made *)

Lemma created_app (dir : string) (a b : list ZipCall) :
  created dir (a ++ b) = (created dir a || created dir b)%bool.
Proof. unfold created. apply existsb_app. Qed.

Lemma created_files (dir d : string) (A : Type) (l : list A)
    (f : A -> string) (g : A -> Payload) :
  created dir (map (fun e => AddFile d (f e) (g e)) l) = false.
Proof. induction l as [|e l IH]; [reflexivity | exact IH]. Qed.

Lemma created_block (dir dir' : string) (cond : bool)
    (keep : string -> bool) (entries : JsMap.t Blob) :
  created dir (block cond dir' keep entries)
  = (cond && String.eqb dir' dir)%bool.
Proof.
  unfold block. destruct cond; [|reflexivity].
  change (created dir (MkFolder dir' :: ?l))
    with (String.eqb dir' dir || created dir l)%bool.
  cbn [andb]. unfold created at 1. cbn [existsb].
  fold (created dir (map (fun e : string * Blob =>
                            AddFile dir' (fst e) (Fetched (snd e)))
                       (filter (fun e => keep (fst e)) entries))).
  rewrite created_files. apply orb_false_r.
Qed.

(** In the layout the folder [assets/images] is made as soon as there is
    an image of any kind, whereas [assets/videos] and [assets/gifs] are
    made when there is a video, or a GIF. *)
Lemma created_layout (value : string) (files : list File) (zc : ValidAssets) :
  created ((rootOf value ++ "assets/") ++ "images/") (layout value files zc)
  = hasAssets zc "images" /\
  created ((rootOf value ++ "assets/") ++ "videos/") (layout value files zc)
  = existsb (fun e => isVideo (fst e)) (valid_images zc) /\
  created ((rootOf value ++ "assets/") ++ "gifs/") (layout value files zc)
  = existsb (fun e => isGif (fst e)) (valid_images zc).
Proof.
  assert (Empty : hasAssets zc "images" = false -> valid_images zc = [])
    by (apply hasAssets_false_nil).
  assert (Root : forall s c,
             String.eqb (rootOf value)
               ((rootOf value ++ "assets/") ++ String c s) = false)
    by (intros s c; path_neq).
  assert (Assets : forall s c,
             String.eqb (rootOf value ++ "assets/")
               ((rootOf value ++ "assets/") ++ String c s) = false)
    by (intros s c; apply eqb_append_self).
  unfold layout.
  repeat split;
    (change (created ?d (MkFolder ?p :: ?l))
       with (String.eqb p d || created d l)%bool;
     rewrite Root, !created_app, created_files, !created_block; cbn [orb];
     destruct (hasAssets zc "images") eqn:E; cbn [orb andb];
     [| rewrite (Empty eq_refl); destruct (hasAssets zc "fonts") ];
     try (change (created ?d (MkFolder ?p :: ?l))
            with (String.eqb p d || created d l)%bool;
          rewrite Assets, !created_app, !created_block);
     cbn [orb andb existsb created];
     repeat match goal with
            | |- context [String.eqb ?a ?b] =>
                first [ rewrite (String.eqb_refl a)
                      | replace (String.eqb a b) with false
                          by (symmetry; path_neq) ]
            end;
     rewrite ?andb_false_r, ?andb_true_r, ?orb_false_r; cbn [orb andb];
     reflexivity).
Qed.

(** ** Further properties *)

(** *** The file list over time *)



Lemma updatePreview_keys_exact (newFiles : list File) (page : AppState) :
  keys_exact page -> keys_exact (updatePreview newFiles page).
Proof.
  unfold keys_exact, updatePreview. intros H x.
  pose proof (newUniqueFiles_spec newFiles (uploadedFileSet page))
    as (_ & _ & K).
  destruct (newUniqueFiles newFiles (uploadedFileSet page)) as [fresh keys].
  cbn [fst snd collectedFiles uploadedFileSet] in *.
  rewrite K, H, map_app, in_app_iff. tauto.
Qed.

(** X1: whatever is dropped or selected, in any order, the collected
    files have keys that differ from one another, and the key set holds
    exactly those keys. *)
Theorem collected_keys_stay_distinct (events : list FileEvent) :
  NoDup (map fileKey (collectedFiles (afterEvents events initialState))) /\
  forall x,
    JsSet.has x (uploadedFileSet (afterEvents events initialState)) = true
    <-> In x (map fileKey (collectedFiles (afterEvents events initialState))).
Proof.
  assert (G : forall page,
             files_inv page /\ keys_exact page ->
             files_inv (afterEvents events page) /\
             keys_exact (afterEvents events page)).
  { unfold afterEvents. induction events as [|e events IH]; intros page H;
      [exact H|].
    cbn [fold_left]. apply IH. destruct H as [I K].
    destruct e as [files|files]; cbn [onFileEvent]; unfold onDrop, onChange;
      (split; [apply updatePreview_inv | apply updatePreview_keys_exact]);
      assumption. }
  destruct (G initialState) as [[N _] K].
  - split; [exact initialState_inv|]. intros x. simpl.
    split; [discriminate | tauto].
  - split; [exact N | exact K].
Qed.


(** *** The four sets *)

Lemma add_NoDup (x : string) (s : JsSet.t) :
  NoDup s -> NoDup (JsSet.add x s).
Proof.
  intros N. unfold JsSet.add. destruct (JsSet.has x s) eqn:E; [exact N|].
  apply NoDup_app; [exact N | repeat constructor; simpl; tauto|].
  intros y Hy [<-|[]]. apply has_In in Hy. congruence.
Qed.

Lemma add_present (x : string) (s : JsSet.t) : In x s -> JsSet.add x s = s.
Proof. intros H. apply has_In in H. unfold JsSet.add. rewrite H. auto. Qed.

Lemma add_keeps (x y : string) (s : JsSet.t) :
  In x s -> In x (JsSet.add y s).
Proof.
  intros H. unfold JsSet.add. destruct (JsSet.has y s); [exact H|].
  apply in_or_app. left. exact H.
Qed.

Lemma add_has (x : string) (s : JsSet.t) : In x (JsSet.add x s).
Proof.
  unfold JsSet.add. destruct (JsSet.has x s) eqn:E; [apply has_In; exact E|].
  apply in_or_app. right. left. reflexivity.
Qed.

(** [categorize] adds the URL to the set that [categoryOf] names and
    leaves the other sets alone. *)
Lemma categorize_assetsOf (include : Include) (u : string) (a : Assets)
    (type : AssetType) :
  assetsOf type (categorize include u a)
  = match categoryOf include u with
    | Some type' =>
        if (typeName type =? typeName type')%string
        then JsSet.add u (assetsOf type a) else assetsOf type a
    | None => assetsOf type a
    end.
Proof.
  unfold categorize, categoryOf.
  repeat match goal with
         | |- context [if ?b then _ else _] =>
             match b with
             | (_ =? _)%string => fail 1
             | _ => destruct b
             end
         end; destruct type; reflexivity.
Qed.

Lemma typeName_inj (t t' : AssetType) :
  (typeName t =? typeName t')%string = true -> t = t'.
Proof. destruct t, t'; simpl; intros H; try discriminate; reflexivity. Qed.

Lemma typeName_refl (t : AssetType) :
  (typeName t =? typeName t)%string = true.
Proof. apply String.eqb_refl. Qed.

Lemma categoryOf_sound (include : Include) (u : string) (type : AssetType) :
  categoryOf include u = Some type ->
  flagOf type include = true /\ looksLike type u = true.
Proof.
  unfold categoryOf.
  destruct ((endsWith ".js" u || includes ".js?" u) && include_js include)%bool
    eqn:E1.
  { intros H. inversion H. apply andb_true_iff in E1. tauto. }
  destruct ((endsWith ".css" u || includes ".css?" u)
            && include_css include)%bool eqn:E2.
  { intros H. inversion H. apply andb_true_iff in E2. tauto. }
  destruct (Regex.test true imageRegex u && include_images include)%bool
    eqn:E3.
  { intros H. inversion H. apply andb_true_iff in E3. tauto. }
  destruct (Regex.test true fontRegex u && include_fonts include)%bool
    eqn:E4; [|discriminate].
  intros H. inversion H. apply andb_true_iff in E4. tauto.
Qed.

Lemma categorize_inv (include : Include) (u : string) (a : Assets) :
  sets_inv include a -> sets_inv include (categorize include u a).
Proof.
  intros I type. destruct (I type) as [N M].
  rewrite categorize_assetsOf.
  destruct (categoryOf include u) as [type'|] eqn:C; [|auto].
  destruct (typeName type =? typeName type')%string eqn:E; [|auto].
  apply typeName_inj in E. subst type'. split; [apply add_NoDup; exact N|].
  intros x Hx. apply add_In in Hx. destruct Hx as [->|Hx]; auto.
Qed.

Lemma scanMatches_inv (include : Include) (ms : list rmatch_result) :
  forall a, sets_inv include a -> sets_inv include (scanMatches include ms a).
Proof.
  induction ms as [|m ms IH]; intros a I; cbn [scanMatches]; [exact I|].
  destruct (capture 1 (m_groups m)); [|exact I].
  apply IH, categorize_inv, I.
Qed.

Lemma extract_inv (files : list File) (include : Include) :
  sets_inv include (extractAssetsFromFiles files include).
Proof.
  unfold extractAssetsFromFiles.
  assert (G : forall a, sets_inv include a ->
                        sets_inv include (fold_left (scanFile include) files a)).
  { induction files as [|f files IH]; intros a I; [exact I|].
    cbn [fold_left]. apply IH. unfold scanFile.
    destruct (text f); [apply scanMatches_inv|]; exact I. }
  apply G. intros type. split; [destruct type; constructor|].
  intros u Hu. destruct type; contradiction.
Qed.

(** X3: in the result of a scan no set holds a URL twice; a URL in a
    set passed the test of that type while the flag of the type was on;
    no URL is in two sets; and the set of a type whose flag is off is
    empty. *)
Theorem extracted_sets_are_disjoint (files : list File) (include : Include) :
  (forall type,
      NoDup (assetsOf type (extractAssetsFromFiles files include))) /\
  (forall type u,
      In u (assetsOf type (extractAssetsFromFiles files include)) ->
      flagOf type include = true /\ looksLike type u = true) /\
  (forall type type' u,
      In u (assetsOf type (extractAssetsFromFiles files include)) ->
      In u (assetsOf type' (extractAssetsFromFiles files include)) ->
      type = type') /\
  (forall type,
      flagOf type include = false ->
      assetsOf type (extractAssetsFromFiles files include) = []).
Proof.
  pose proof (extract_inv files include) as I.
  split; [intros type; apply I|].
  split; [intros type u Hu; apply categoryOf_sound; apply (I type); exact Hu|].
  split.
  - intros type type' u H H'. apply (I type) in H. apply (I type') in H'.
    congruence.
  - intros type F.
    destruct (assetsOf type (extractAssetsFromFiles files include))
      as [|u l] eqn:E; [reflexivity|].
    assert (Hu : In u (assetsOf type (extractAssetsFromFiles files include)))
      by (rewrite E; left; reflexivity).
    apply (I type), categoryOf_sound in Hu. destruct Hu as [Hf _]. congruence.
Qed.

Lemma extracted_sets_are_disjoint_witness :
  In "https://cdn.example.com/a/b.png"
     (assetsOf Images
        (extractAssetsFromFiles
           [MkFile "page.html" 37 0%Z (Some imgTag)] everyType)) /\
  flagOf Images everyType = true /\
  looksLike Images "https://cdn.example.com/a/b.png" = true.
Proof.
  assert (H : In "https://cdn.example.com/a/b.png"
                (assetsOf Images
                   (extractAssetsFromFiles
                      [MkFile "page.html" 37 0%Z (Some imgTag)] everyType)))
    by (vm_compute; auto).
  split; [exact H|].
  exact (proj1 (proj2 (extracted_sets_are_disjoint
                         [MkFile "page.html" 37 0%Z (Some imgTag)] everyType))
           Images _ H).
Defined.

(** *** Scanning again *)

Lemma subAssets_refl (a : Assets) : subAssets a a.
Proof. intros type. apply incl_refl. Qed.

Lemma subAssets_trans (a b c : Assets) :
  subAssets a b -> subAssets b c -> subAssets a c.
Proof. intros H1 H2 type. eapply incl_tran; [apply H1 | apply H2]. Qed.

Lemma categorize_grows (include : Include) (u : string) (a : Assets) :
  subAssets a (categorize include u a).
Proof.
  intros type x Hx. rewrite categorize_assetsOf.
  destruct (categoryOf include u); [|exact Hx].
  destruct (typeName type =? typeName _)%string; [|exact Hx].
  apply add_keeps. exact Hx.
Qed.

Lemma categorize_holds (include : Include) (u : string) (a : Assets)
    (type : AssetType) :
  categoryOf include u = Some type ->
  In u (assetsOf type (categorize include u a)).
Proof.
  intros C. rewrite categorize_assetsOf, C, typeName_refl. apply add_has.
Qed.

(** A URL that is already in the set of its type changes nothing. *)
Lemma categorize_present (include : Include) (u : string) (a : Assets) :
  (forall type, categoryOf include u = Some type -> In u (assetsOf type a)) ->
  categorize include u a = a.
Proof.
  intros H. unfold categoryOf in H. unfold categorize.
  destruct a as [i c j f]. cbn [assets_images assets_css assets_js
                                  assets_fonts].
  destruct ((endsWith ".js" u || includes ".js?" u) && include_js include)%bool.
  { rewrite add_present; [reflexivity | apply (H Js eq_refl)]. }
  destruct ((endsWith ".css" u || includes ".css?" u)
            && include_css include)%bool.
  { rewrite add_present; [reflexivity | apply (H Css eq_refl)]. }
  destruct (Regex.test true imageRegex u && include_images include)%bool.
  { rewrite add_present; [reflexivity | apply (H Images eq_refl)]. }
  destruct (Regex.test true fontRegex u && include_fonts include)%bool;
    [|reflexivity].
  rewrite add_present; [reflexivity | apply (H Fonts eq_refl)].
Qed.

Lemma scanMatches_grows (include : Include) (ms : list rmatch_result) :
  forall a, subAssets a (scanMatches include ms a).
Proof.
  induction ms as [|m ms IH]; intros a; cbn [scanMatches];
    [apply subAssets_refl|].
  destruct (capture 1 (m_groups m)); [|apply subAssets_refl].
  eapply subAssets_trans; [apply categorize_grows | apply IH].
Qed.

Lemma scanMatches_again (include : Include) (ms : list rmatch_result) :
  forall a b,
    subAssets (scanMatches include ms a) b -> scanMatches include ms b = b.
Proof.
  induction ms as [|m ms IH]; intros a b S; cbn [scanMatches] in *;
    [reflexivity|].
  destruct (capture 1 (m_groups m)) as [raw|]; [|reflexivity].
  rewrite categorize_present; [eapply IH; exact S|].
  intros type C. apply S. apply scanMatches_grows.
  apply categorize_holds. exact C.
Qed.

Lemma scanFile_grows (include : Include) (a : Assets) (f : File) :
  subAssets a (scanFile include a f).
Proof.
  unfold scanFile. destruct (text f);
    [apply scanMatches_grows | apply subAssets_refl].
Qed.

Lemma scanFile_again (include : Include) (a b : Assets) (f : File) :
  subAssets (scanFile include a f) b -> scanFile include b f = b.
Proof.
  unfold scanFile. destruct (text f); [apply scanMatches_again | reflexivity].
Qed.

Lemma scanFiles_grows (include : Include) (files : list File) :
  forall a, subAssets a (fold_left (scanFile include) files a).
Proof.
  induction files as [|f files IH]; intros a; [apply subAssets_refl|].
  cbn [fold_left]. eapply subAssets_trans; [apply scanFile_grows | apply IH].
Qed.

(** Once some files have been scanned, each of them scans as nothing. *)
Lemma scanned_file_again (include : Include) (files : list File) :
  forall a b f,
    subAssets (fold_left (scanFile include) files a) b ->
    In f files -> scanFile include b f = b.
Proof.
  induction files as [|g files IH]; intros a b f S Hf; [contradiction|].
  cbn [fold_left] in S. destruct Hf as [->|Hf]; [|eapply IH; eauto].
  apply (@scanFile_again include a).
  eapply subAssets_trans; [apply scanFiles_grows | exact S].
Qed.

(** X4: files that were already scanned add nothing when they are
    scanned again after the others: the sets and the order of their URLs
    stay as they were. *)
Theorem rescanned_files_add_nothing (files more : list File)
    (include : Include) :
  incl more files ->
  extractAssetsFromFiles (files ++ more) include
  = extractAssetsFromFiles files include.
Proof.
  unfold extractAssetsFromFiles. rewrite fold_left_app. intros I.
  set (b := fold_left (scanFile include) files noAssets).
  assert (S : subAssets (fold_left (scanFile include) files noAssets) b)
    by apply subAssets_refl.
  clearbody b.
  induction more as [|f more IH]; [reflexivity|]. cbn [fold_left].
  rewrite (@scanned_file_again include files noAssets b f S
             (I f (or_introl eq_refl))).
  apply IH. intros g Hg. apply I. right. exact Hg.
Qed.

Lemma rescanned_files_add_nothing_witness :
  incl [upperCasePage] [upperCasePage; sampleScript] /\
  extractAssetsFromFiles ([upperCasePage; sampleScript] ++ [upperCasePage])
    everyType
  = extractAssetsFromFiles [upperCasePage; sampleScript] everyType.
Proof.
  assert (H : incl [upperCasePage] [upperCasePage; sampleScript])
    by (intros f [<-|[]]; left; reflexivity).
  split; [exact H|].
  exact (@rescanned_files_add_nothing [upperCasePage; sampleScript]
           [upperCasePage] everyType H).
Defined.

(** *** The form of an extracted URL *)

(** Whatever holds of every completed match of the URL pattern holds of
    every URL of the four sets. *)
Lemma extract_urls_all (Q : string -> Prop) :
  (forall i w rest, matches true urlBody i w rest -> Q (normalizeProtocol w)) ->
  forall files include u,
    In u (allUrls (extractAssetsFromFiles files include)) -> Q u.
Proof.
  intros HQ files include.
  assert (M : forall ms,
             (forall m, In m ms ->
                        exists j s, match_at true urlRegex j s = Some m) ->
             forall a, (forall x, In x (allUrls a) -> Q x) ->
                       forall x, In x (allUrls (scanMatches include ms a)) ->
                                 Q x).
  { induction ms as [|m ms IH]; intros Hms a Ha; cbn [scanMatches];
      [exact Ha|].
    destruct (Hms m (or_introl eq_refl)) as (j & s & Hm).
    apply urlRegex_group in Hm. destruct Hm as (i & w & rest & -> & Mw).
    apply IH; [intros m' Hm'; apply Hms; right; exact Hm'|].
    intros x Hx. apply categorize_urls in Hx.
    destruct Hx as [->|Hx]; [exact (HQ _ _ _ Mw) | auto]. }
  unfold extractAssetsFromFiles.
  assert (G : forall a, (forall x, In x (allUrls a) -> Q x) ->
                        forall x,
                          In x (allUrls (fold_left (scanFile include) files a))
                          -> Q x).
  { induction files as [|f files IH]; intros a Ha; [exact Ha|].
    cbn [fold_left]. apply IH. unfold scanFile.
    destruct (text f) as [content|]; [|exact Ha].
    apply M; [|exact Ha]. intros m Hm. unfold Regex.matchAll in Hm.
    apply matchAll_from_sound in Hm. exact Hm. }
  apply G. intros y Hy. contradiction.
Qed.

Lemma urlBody_chars (i : nat) (w rest : string) :
  matches true urlBody i w rest -> forallb_str url_char w = true.
Proof. apply matches_consumes. vm_compute. reflexivity. Qed.

Lemma normalizeProtocol_cases (w : string) :
  normalizeProtocol w = w \/ normalizeProtocol w = "https:" ++ w.
Proof. unfold normalizeProtocol. destruct (startsWith "//" w); auto. Qed.

(** X5: every URL of the four sets is made of characters that are not
    white space, not a quote and not a parenthesis. *)
Theorem extracted_url_has_plain_characters (files : list File)
    (include : Include) (u : string) :
  In u (allUrls (extractAssetsFromFiles files include)) ->
  forallb_str url_char u = true.
Proof.
  apply (extract_urls_all (fun u => forallb_str url_char u = true)).
  intros i w rest M. apply urlBody_chars in M.
  destruct (normalizeProtocol_cases w) as [-> | ->]; [exact M|].
  rewrite forallb_str_append, M. reflexivity.
Qed.

Lemma extracted_url_has_plain_characters_witness :
  In "https://cdn.example.com/a/b.png"
     (allUrls (extractAssetsFromFiles
                 [MkFile "page.html" 37 0%Z (Some imgTag)] everyType)) /\
  forallb_str url_char "https://cdn.example.com/a/b.png" = true.
Proof.
  assert (H : In "https://cdn.example.com/a/b.png"
                (allUrls (extractAssetsFromFiles
                            [MkFile "page.html" 37 0%Z (Some imgTag)]
                            everyType)))
    by (vm_compute; auto).
  split; [exact H|].
  exact (extracted_url_has_plain_characters _ _ _ H).
Defined.

Lemma chr_match_fixed (c d : ascii) :
  is_lower c = false -> is_upper c = false ->
  chr_match true c d = true -> d = c.
Proof.
  intros L U E. rewrite chr_match_icase in E. apply Ascii.eqb_eq in E.
  apply lower_char_fixed; [exact L|].
  unfold lower_char in E at 1. rewrite U in E. congruence.
Qed.

Lemma urlBody_parts (i : nat) (w rest : string) :
  matches true urlBody i w rest ->
  exists w0 host path tail,
    w = w0 ++ "//" ++ host ++ "/" ++ path ++ "." ++ tail /\
    host <> "" /\ path <> "" /\
    (w0 = "" \/
     ((toLowerCase w0 = "http:" \/ toLowerCase w0 = "https:") /\
      exists a t, w0 = String a t /\ lower_char a = "h"%char)).
Proof.
  unfold urlBody, Plus, PlusLazy. cbn [matches].
  intros (w0 & r1 & -> & M0 & w1 & r2 & -> & M1 & h & r3 & -> & [Lh _]
          & s1 & r4 & -> & (d1 & -> & E1) & p & r5 & -> & [Lp _]
          & s2 & r6 & -> & (d2 & -> & E2) & _).
  apply matches_Lit_icase in M1. apply toLowerCase_slashes in M1. subst w1.
  apply chr_match_fixed in E1; [|reflexivity..].
  apply chr_match_fixed in E2; [|reflexivity..]. subst d1 d2.
  exists w0, h, p, r6. split; [reflexivity|].
  split; [destruct h; [simpl in Lh; lia | discriminate]|].
  split; [destruct p; [simpl in Lp; lia | discriminate]|].
  destruct M0 as [->|M0]; [left; reflexivity|].
  right. apply scheme_lower in M0. exact M0.
Qed.

(** X6: every URL of the four sets has a scheme, [http:] or [https:] in
    letters of either case, then [//], a host that is not empty, a
    slash, and a name that is not empty before a dot: a URL whose
    extension follows the host at once, without a slash, is never
    extracted. *)
Theorem extracted_url_has_a_path (files : list File) (include : Include)
    (u : string) :
  In u (allUrls (extractAssetsFromFiles files include)) ->
  exists scheme host path tail,
    u = scheme ++ "//" ++ host ++ "/" ++ path ++ "." ++ tail /\
    (toLowerCase scheme = "http:" \/ toLowerCase scheme = "https:") /\
    host <> "" /\ path <> "".
Proof.
  apply (extract_urls_all
           (fun u => exists scheme host path tail,
                u = scheme ++ "//" ++ host ++ "/" ++ path ++ "." ++ tail /\
                (toLowerCase scheme = "http:" \/
                 toLowerCase scheme = "https:") /\
                host <> "" /\ path <> "")).
  intros i w rest M. apply urlBody_parts in M.
  destruct M as (w0 & host & path & tail & -> & Hh & Hp & H0).
  destruct H0 as [->|[L (a & t & -> & Ha)]].
  - exists "https:", host, path, tail. unfold normalizeProtocol, startsWith.
    change ("" ++ "//" ++ host ++ "/" ++ path ++ "." ++ tail)
      with ("//" ++ (host ++ "/" ++ path ++ "." ++ tail)).
    rewrite prefix_append. auto.
  - exists (String a t), host, path, tail.
    unfold normalizeProtocol, startsWith. cbn [append prefix].
    destruct (ascii_dec "/" a) as [<-|]; [discriminate Ha|]. auto.
Qed.

Lemma extracted_url_has_a_path_witness :
  In "https://cdn.example.com/a/b.png"
     (allUrls (extractAssetsFromFiles
                 [MkFile "page.html" 37 0%Z (Some imgTag)] everyType)) /\
  exists scheme host path tail,
    "https://cdn.example.com/a/b.png"
    = scheme ++ "//" ++ host ++ "/" ++ path ++ "." ++ tail /\
    (toLowerCase scheme = "http:" \/ toLowerCase scheme = "https:") /\
    host <> "" /\ path <> "".
Proof.
  assert (H : In "https://cdn.example.com/a/b.png"
                (allUrls (extractAssetsFromFiles
                            [MkFile "page.html" 37 0%Z (Some imgTag)]
                            everyType)))
    by (vm_compute; auto).
  split; [exact H|].
  exact (extracted_url_has_a_path _ _ _ H).
Defined.

(** *** The name and the final path segment *)

Lemma noSlash_append (a b : string) :
  noSlash (a ++ b) = (noSlash a && noSlash b)%bool.
Proof. apply forallb_str_append. Qed.

Lemma url_parts (url : string) :
  url = beforeQuery url ++ queryAndFragment url.
Proof.
  induction url as [|c s IH]; [reflexivity|].
  cbn [beforeQuery queryAndFragment].
  destruct (query_or_hash c); [reflexivity|]. cbn [append]. congruence.
Qed.

Lemma beforeQuery_clean (url : string) :
  forallb_str (fun c => negb (query_or_hash c)) (beforeQuery url) = true.
Proof.
  induction url as [|c s IH]; [reflexivity|]. cbn [beforeQuery].
  destruct (query_or_hash c) eqn:E; [reflexivity|].
  cbn [forallb_str]. rewrite E, IH. reflexivity.
Qed.

Lemma beforeQuery_of_query (url : string) :
  beforeQuery (queryAndFragment url) = "".
Proof.
  induction url as [|c s IH]; [reflexivity|]. cbn [queryAndFragment].
  destruct (query_or_hash c) eqn:E; [|exact IH].
  cbn [beforeQuery]. rewrite E. reflexivity.
Qed.

Lemma beforeQuery_append (x q : string) :
  forallb_str (fun c => negb (query_or_hash c)) x = true ->
  beforeQuery (x ++ q) = x ++ beforeQuery q.
Proof.
  induction x as [|c x IH]; [reflexivity|].
  cbn [forallb_str append beforeQuery].
  rewrite andb_true_iff. intros [Hc Hx].
  destruct (query_or_hash c); [discriminate|]. rewrite (IH Hx). reflexivity.
Qed.

Lemma queryAndFragment_append (x q : string) :
  forallb_str (fun c => negb (query_or_hash c)) x = true ->
  queryAndFragment (x ++ q) = queryAndFragment q.
Proof.
  induction x as [|c x IH]; [reflexivity|].
  cbn [forallb_str append queryAndFragment].
  rewrite andb_true_iff. intros [Hc Hx].
  destruct (query_or_hash c); [discriminate|]. exact (IH Hx).
Qed.

(** Cutting at the first [?] and then at the first [#] is cutting at the
    first of the two. *)
Lemma cut_twice_is_beforeQuery (s : string) :
  first (split (one "#") (first (split (one "?") s))) = beforeQuery s.
Proof.
  induction s as [|c s IH]; [reflexivity|].
  rewrite first_split_step. cbn [beforeQuery]. unfold query_or_hash.
  destruct (one "?" c); [reflexivity|].
  rewrite first_split_step. cbn [orb].
  destruct (one "#" c); [reflexivity|]. rewrite IH. reflexivity.
Qed.

Lemma afterLastSlash_id (s : string) :
  noSlash s = true -> afterLastSlash s = s.
Proof.
  destruct s as [|c s]; [reflexivity|]. unfold noSlash.
  cbn [forallb_str afterLastSlash]. rewrite andb_true_iff. intros [Hc Hs].
  unfold noSlash. rewrite Hs.
  destruct (one "/" c); [discriminate | reflexivity].
Qed.

Lemma afterLastSlash_after (a t : string) :
  afterLastSlash (a ++ String "/" t) = afterLastSlash t.
Proof.
  induction a as [|x a IH]; cbn [append afterLastSlash].
  - destruct (noSlash t) eqn:E; [|reflexivity].
    rewrite (@afterLastSlash_id _ E). reflexivity.
  - rewrite noSlash_append. unfold noSlash at 2. cbn [forallb_str].
    change (one "/" "/"%char) with true. cbn [negb andb].
    rewrite andb_false_r. exact IH.
Qed.

Lemma afterLastSlash_append (b q : string) :
  noSlash q = true -> afterLastSlash (b ++ q) = afterLastSlash b ++ q.
Proof.
  intros Hq. induction b as [|c b IH]; cbn [append afterLastSlash].
  - apply afterLastSlash_id, Hq.
  - rewrite noSlash_append, Hq, andb_true_r.
    destruct (noSlash b); [|exact IH].
    destruct (one "/" c); reflexivity.
Qed.

Lemma afterLastSlash_keeps (p : ascii -> bool) (s : string) :
  forallb_str p s = true -> forallb_str p (afterLastSlash s) = true.
Proof.
  induction s as [|c s IH]; [reflexivity|]. cbn [forallb_str afterLastSlash].
  rewrite andb_true_iff. intros [Hc Hs].
  destruct (noSlash s); [|exact (IH Hs)].
  destruct (one "/" c); [exact Hs|]. cbn [forallb_str]. rewrite Hc, Hs.
  reflexivity.
Qed.

Lemma split_one_piece (s : string) :
  noSlash s = true -> split (one "/") s = [s].
Proof.
  unfold noSlash. induction s as [|c s IH]; [reflexivity|].
  cbn [forallb_str split]. rewrite andb_true_iff. intros [Hc Hs].
  destruct (one "/" c); [discriminate|]. rewrite (IH Hs). reflexivity.
Qed.

Lemma split_two_pieces (s : string) :
  noSlash s = false ->
  exists p1 p2 rest, split (one "/") s = p1 :: p2 :: rest.
Proof.
  unfold noSlash. induction s as [|c s IH]; [discriminate|].
  cbn [forallb_str split]. destruct (one "/" c); cbn [negb andb].
  - intros _. pose proof (split_not_nil (one "/") s) as N.
    destruct (split (one "/") s) as [|p2 rest]; [tauto|].
    exists "", p2, rest. reflexivity.
  - intros H. destruct (IH H) as (p1 & p2 & rest & ->).
    exists (String c p1), p2, rest. reflexivity.
Qed.

(** [url.split('/').pop()] is what follows the last slash. *)
Lemma pop_split_is_afterLastSlash (s : string) :
  pop (split (one "/") s) = afterLastSlash s.
Proof.
  unfold pop. induction s as [|c s IH]; [reflexivity|].
  cbn [split afterLastSlash]. destruct (noSlash s) eqn:E.
  - rewrite (@split_one_piece _ E). destruct (one "/" c); reflexivity.
  - rewrite <- IH. destruct (@split_two_pieces _ E) as (p1 & p2 & rest & ->).
    destruct (one "/" c); reflexivity.
Qed.

(** The base name, in the order of the code: what follows the last slash
    of the whole URL, and of that what stands before the first [?] or
    [#]. *)
Lemma baseOfUrl_cuts_last (url : string) :
  baseOfUrl url = beforeQuery (afterLastSlash url).
Proof.
  unfold baseOfUrl. rewrite pop_split_is_afterLastSlash.
  apply cut_twice_is_beforeQuery.
Qed.

Lemma segment_before_query (url : string) :
  noSlash (queryAndFragment url) = true ->
  beforeQuery (afterLastSlash url) = afterLastSlash (beforeQuery url).
Proof.
  intros H. rewrite (url_parts url) at 1.
  rewrite (@afterLastSlash_append _ _ H).
  rewrite beforeQuery_append
    by (apply afterLastSlash_keeps, beforeQuery_clean).
  rewrite beforeQuery_of_query. apply append_nil_r.
Qed.

Lemma afterScheme_step (c : ascii) (s : string) :
  afterScheme (String c s)
  = match s with
    | "" => ""
    | String d rest =>
        if (one "/" c && one "/" d)%bool then rest else afterScheme s
    end.
Proof. destruct s; reflexivity. Qed.

Lemma one_eq (c d : ascii) : one c d = true -> d = c.
Proof. unfold one. intros H. apply Ascii.eqb_eq in H. congruence. Qed.

Lemma afterScheme_spec (s : string) :
  afterScheme s <> "" -> exists pre, s = pre ++ "//" ++ afterScheme s.
Proof.
  induction s as [|c s IH]; [intros H; contradiction H; reflexivity|].
  rewrite afterScheme_step. destruct s as [|d rest];
    [intros H; contradiction H; reflexivity|].
  destruct (one "/" c && one "/" d)%bool eqn:E.
  - apply andb_true_iff in E. destruct E as [Ec Ed].
    apply one_eq in Ec. apply one_eq in Ed. subst c d.
    intros _. exists "". reflexivity.
  - intros H. destruct (IH H) as [pre E'].
    exists (String c pre). cbn [append]. f_equal. exact E'.
Qed.

Lemma afterScheme_skip (scheme y : string) :
  noSlash scheme = true -> afterScheme (scheme ++ "//" ++ y) = y.
Proof.
  unfold noSlash. induction scheme as [|c scheme IH]; [reflexivity|].
  cbn [forallb_str]. rewrite andb_true_iff. intros [Hc Hs].
  change (afterScheme (String c (scheme ++ "//" ++ y)) = y).
  rewrite afterScheme_step. specialize (IH Hs).
  destruct (scheme ++ "//" ++ y) as [|d rest] eqn:E;
    [destruct scheme; discriminate E|].
  destruct (one "/" c); [discriminate Hc | exact IH].
Qed.

Lemma fromSlash_spec (x : string) :
  fromSlash x <> "" ->
  exists h t, x = h ++ String "/" t /\ fromSlash x = String "/" t.
Proof.
  induction x as [|c x IH]; [intros H; contradiction H; reflexivity|].
  cbn [fromSlash]. destruct (one "/" c) eqn:E.
  - apply one_eq in E. subst c. intros _. exists "", x. auto.
  - intros H. destruct (IH H) as (h & t & E1 & E2).
    exists (String c h), t. cbn [append]. rewrite <- E1. auto.
Qed.

Lemma fromSlash_not_empty (y : string) :
  noSlash y = false -> fromSlash y <> "".
Proof.
  unfold noSlash. induction y as [|c y IH]; [discriminate|].
  cbn [forallb_str fromSlash]. destruct (one "/" c); [discriminate|].
  exact IH.
Qed.

(** With a path in the URL, the last slash before the query string is
    the last slash of the path. *)
Lemma segment_of_path (url : string) :
  pathOf url <> "" -> afterLastSlash (beforeQuery url) = finalSegment url.
Proof.
  unfold finalSegment, pathOf. intros H.
  destruct (@fromSlash_spec _ H) as (h & t & E1 & E2).
  assert (N : afterScheme (beforeQuery url) <> "")
    by (intros E; rewrite E in H; apply H; reflexivity).
  destruct (@afterScheme_spec _ N) as [pre E3].
  rewrite E2, E3, E1.
  replace (pre ++ "//" ++ h ++ String "/" t)
    with ((pre ++ "//" ++ h) ++ String "/" t)
    by (rewrite !append_assoc; reflexivity).
  rewrite afterLastSlash_after.
  symmetry. exact (afterLastSlash_after "" t).
Qed.

Lemma baseOfUrl_is_final_segment (url : string) :
  noSlash (queryAndFragment url) = true ->
  pathOf url <> "" ->
  baseOfUrl url = finalSegment url.
Proof.
  intros Q P.
  rewrite baseOfUrl_cuts_last, (@segment_before_query _ Q).
  apply segment_of_path, P.
Qed.

(** A scheme has no slash, no [?] and no [#]. *)
Lemma scheme_plain (scheme : string) :
  toLowerCase scheme = "http:" \/ toLowerCase scheme = "https:" ->
  forallb_str (fun c => negb (one "/" c || query_or_hash c)) scheme = true.
Proof.
  intros H.
  assert (L : forallb_str (fun c => negb (one "/" c || query_or_hash c))
                (toLowerCase scheme) = true)
    by (destruct H as [-> | ->]; reflexivity).
  clear H. induction scheme as [|c s IH]; [reflexivity|].
  cbn [toLowerCase forallb_str] in L |- *.
  apply andb_true_iff in L. destruct L as [Lc Ls].
  rewrite (IH Ls), andb_true_r. revert Lc.
  apply (all_ascii_impl
           (fun c => negb (one "/" (lower_char c)
                           || query_or_hash (lower_char c)))
           (fun c => negb (one "/" c || query_or_hash c))).
  vm_compute. reflexivity.
Qed.

(** A URL with a scheme, a host, a slash and no slash in its query
    string and fragment has a path. *)
Lemma shaped_url_has_path (scheme host r : string) :
  forallb_str (fun c => negb (one "/" c || query_or_hash c)) scheme = true ->
  noSlash (queryAndFragment (scheme ++ "//" ++ host ++ "/" ++ r)) = true ->
  pathOf (scheme ++ "//" ++ host ++ "/" ++ r) <> "".
Proof.
  intros S Q. set (z := host ++ "/" ++ r) in *.
  assert (S1 : noSlash scheme = true).
  { revert S. apply forallb_str_impl. intros c.
    destruct (one "/" c); [discriminate | reflexivity]. }
  assert (S2 : forallb_str (fun c => negb (query_or_hash c))
                 (scheme ++ "//") = true).
  { rewrite forallb_str_append, andb_true_iff. split; [|reflexivity].
    revert S. apply forallb_str_impl. intros c.
    destruct (one "/" c), (query_or_hash c); try discriminate; reflexivity. }
  assert (A : scheme ++ "//" ++ z = (scheme ++ "//") ++ z)
    by (rewrite append_assoc; reflexivity).
  unfold pathOf. rewrite A in Q |- *.
  rewrite (@queryAndFragment_append _ z S2) in Q.
  rewrite (@beforeQuery_append _ z S2), append_assoc.
  rewrite (@afterScheme_skip _ (beforeQuery z) S1).
  apply fromSlash_not_empty.
  assert (Z : noSlash z = false).
  { unfold z. rewrite noSlash_append. unfold noSlash at 2.
    cbn [append forallb_str]. change (one "/" "/"%char) with true.
    cbn [negb andb]. apply andb_false_r. }
  rewrite (url_parts z), noSlash_append, Q, andb_true_r in Z. exact Z.
Qed.

Lemma extracted_url_has_path_part (files : list File) (include : Include)
    (u : string) :
  In u (allUrls (extractAssetsFromFiles files include)) ->
  noSlash (queryAndFragment u) = true -> pathOf u <> "".
Proof.
  apply (extract_urls_all
           (fun u => noSlash (queryAndFragment u) = true -> pathOf u <> "")).
  intros i w rest M. apply urlBody_parts in M.
  destruct M as (w0 & host & path & tail & -> & _ & _ & H0).
  destruct H0 as [->|[L (a & t & -> & Ha)]].
  - unfold normalizeProtocol, startsWith.
    change ("" ++ "//" ++ host ++ "/" ++ path ++ "." ++ tail)
      with ("//" ++ (host ++ "/" ++ path ++ "." ++ tail)).
    rewrite prefix_append.
    apply (@shaped_url_has_path "https:" host (path ++ "." ++ tail)).
    reflexivity.
  - unfold normalizeProtocol, startsWith. cbn [append prefix].
    destruct (ascii_dec "/" a) as [<-|]; [discriminate Ha|].
    apply (@shaped_url_has_path (String a t) host (path ++ "." ++ tail)).
    apply scheme_plain, L.
Qed.

(** C6, as amended: for a URL of a scan whose query string and fragment
    hold no slash, the name given is the final path segment of the URL,
    or that segment behind [duplicate-<n>-] with [n] from 1 on; and when
    the segment does not itself begin with such a prefix, the name
    stripped of the prefix and of query string and fragment is the final
    path segment. *)
Theorem generated_name_round_trip (files : list File) (include : Include)
    (tracker : JsSet.t) (url : string) :
  In url (allUrls (extractAssetsFromFiles files include)) ->
  noSlash (queryAndFragment url) = true ->
  exists name tracker',
    generateUniqueName tracker url = Some (name, tracker') /\
    (name = finalSegment url \/
     exists n, 1 <= n /\ name = duplicateName n (finalSegment url)) /\
    (stripDuplicatePrefix (finalSegment url) = finalSegment url ->
     beforeQuery (stripDuplicatePrefix name) = finalSegment url).
Proof.
  intros Hin Q.
  pose proof (@extracted_url_has_path_part _ _ _ Hin Q) as P.
  pose proof (@baseOfUrl_is_final_segment _ Q P) as B.
  destruct (generateUniqueName_spec tracker url) as (n & E & _ & _).
  rewrite B in E.
  exists (candidate (finalSegment url) n),
    (JsSet.add (candidate (finalSegment url) n) tracker).
  split; [exact E|].
  assert (C : beforeQuery (finalSegment url) = finalSegment url).
  { rewrite <- B, baseOfUrl_cuts_last.
    pose proof (@beforeQuery_append (beforeQuery (afterLastSlash url))
                  EmptyString (beforeQuery_clean _)) as A.
    cbn [beforeQuery] in A. rewrite !append_nil_r in A. exact A. }
  destruct n as [|n]; cbn [candidate].
  - split; [left; reflexivity|]. intros ->. exact C.
  - split; [right; exists (S n); split; [lia | reflexivity]|].
    intros _. rewrite stripDuplicatePrefix_duplicateName. exact C.
Qed.

Lemma generated_name_round_trip_witness :
  In "https://x.com/a/logo.png?v=2"
     (allUrls (extractAssetsFromFiles [versionPage] everyType)) /\
  noSlash (queryAndFragment "https://x.com/a/logo.png?v=2") = true /\
  stripDuplicatePrefix (finalSegment "https://x.com/a/logo.png?v=2")
  = finalSegment "https://x.com/a/logo.png?v=2" /\
  exists name tracker',
    generateUniqueName ["logo.png"] "https://x.com/a/logo.png?v=2"
    = Some (name, tracker') /\
    beforeQuery (stripDuplicatePrefix name) = "logo.png".
Proof.
  assert (H : In "https://x.com/a/logo.png?v=2"
                (allUrls (extractAssetsFromFiles [versionPage] everyType)))
    by (vm_compute; auto).
  split; [exact H|]. split; [reflexivity|]. split; [reflexivity|].
  destruct (@generated_name_round_trip [versionPage] everyType ["logo.png"]
              "https://x.com/a/logo.png?v=2" H eq_refl)
    as (name & tracker' & E & _ & R).
  exists name, tracker'. split; [exact E|]. apply R. reflexivity.
Defined.

(** C6, as stated, fails for a URL of a scan whose final path segment
    begins with [duplicate-1-]: the name given is the segment, and
    stripping the prefix from it takes away a part of the segment. *)
Lemma generated_name_round_trip_counterexample :
  In "https://x.com/a/duplicate-1-b.png"
     (allUrls (extractAssetsFromFiles [prefixedPage] everyType)) /\
  generateUniqueName JsSet.empty "https://x.com/a/duplicate-1-b.png"
  = Some ("duplicate-1-b.png", ["duplicate-1-b.png"]) /\
  finalSegment "https://x.com/a/duplicate-1-b.png" = "duplicate-1-b.png" /\
  beforeQuery (stripDuplicatePrefix "duplicate-1-b.png") = "b.png" /\
  beforeQuery (stripDuplicatePrefix "duplicate-1-b.png")
  <> finalSegment "https://x.com/a/duplicate-1-b.png".
Proof.
  split; [vm_compute; auto|]. split; [reflexivity|].
  split; [reflexivity|]. split; [reflexivity|]. vm_compute. discriminate.
Qed.

(** With a slash in the query string the name is not taken from the
    path: the URL is cut at its last slash before the query string is
    cut off. *)
Lemma name_after_a_slash_in_the_query :
  In "https://x.com/r/a.png?u=https://cdn.com/x/y.jpg"
     (allUrls (extractAssetsFromFiles [queryPage] everyType)) /\
  generateUniqueName JsSet.empty
    "https://x.com/r/a.png?u=https://cdn.com/x/y.jpg"
  = Some ("y.jpg", ["y.jpg"]) /\
  finalSegment "https://x.com/r/a.png?u=https://cdn.com/x/y.jpg" = "a.png".
Proof.
  split; [vm_compute; auto|]. split; reflexivity.
Qed.

(** *** What is fetched *)

Lemma guard_spec (u : string) :
  Regex.test false guardRegex u = true <->
  startsWith "http://" u = true \/ startsWith "https://" u = true.
Proof.
  split.
  - intros H. apply test_spec in H.
    destruct H as (pre & w & rest & -> & M).
    unfold guardRegex in M. cbn [matches] in M.
    destruct M as (w1 & r1 & -> & [-> Hi] & w2 & r2 & -> & M2
                   & w3 & r3 & -> & M3 & M4).
    apply matches_Lit_exact in M2. apply matches_Lit_exact in M4. subst.
    destruct pre; [|discriminate Hi]. unfold startsWith.
    destruct M3 as [->|(d & -> & E)].
    + left. apply (prefix_append "http://" rest).
    + apply chr_match_exact in E. subst d. right.
      apply (prefix_append "https://" rest).
  - unfold startsWith. intros [H|H]; apply prefix_split in H;
      destruct H as [t ->]; apply guard_accepts_http.
Qed.

Lemma prepare_cases (type : AssetType) (rawUrl : string) :
  (exists url, prepare type rawUrl = inr (type, url) /\
               (startsWith "http://" url = true \/
                startsWith "https://" url = true) /\
               (url = trim rawUrl \/ url = "https:" ++ trim rawUrl)) \/
  prepare type rawUrl
  = inl (MkFailed rawUrl type "Unsupported or local path").
Proof.
  unfold prepare.
  set (url := if startsWith "//" (trim rawUrl)
              then "https:" ++ trim rawUrl else trim rawUrl).
  destruct (Regex.test false guardRegex url) eqn:G; cbn [negb]; [|auto].
  left. exists url. split; [reflexivity|]. split; [apply guard_spec; exact G|].
  unfold url. destruct (startsWith "//" (trim rawUrl)); auto.
Qed.

Lemma dispatchUrls_spec (type : AssetType) (urls : list string) :
  (forall req, In req (snd (dispatchUrls type urls)) ->
               fst req = type /\
               (startsWith "http://" (snd req) = true \/
                startsWith "https://" (snd req) = true)) /\
  (forall f, In f (fst (dispatchUrls type urls)) ->
             failed_type f = type /\ In (failed_url f) urls /\
             failed_reason f = "Unsupported or local path") /\
  List.length (fst (dispatchUrls type urls))
  + List.length (snd (dispatchUrls type urls)) = List.length urls.
Proof.
  induction urls as [|rawUrl urls IH]; cbn [dispatchUrls].
  - cbn [fst snd]. repeat split; try contradiction.
  - destruct (dispatchUrls type urls) as [fs rs].
    cbn [fst snd] in IH. destruct IH as (R & F & L).
    destruct (prepare_cases type rawUrl) as [(url & -> & P & _) | ->];
      cbn [fst snd List.length].
    + split; [|split; [|lia]].
      * intros req [<-|Hr]; [cbn [fst snd]; auto | apply R; exact Hr].
      * intros f Hf. destruct (F f Hf) as (A & B & C).
        split; [exact A|]. split; [right; exact B | exact C].
    + split; [exact R|]. split; [|lia].
      intros f [<-|Hf]; cbn [failed_type failed_url failed_reason].
      * split; [reflexivity|]. split; [left; reflexivity | reflexivity].
      * destruct (F f Hf) as (A & B & C).
        split; [exact A|]. split; [right; exact B | exact C].
Qed.

Lemma dispatch_spec (assets : Assets) :
  (forall req, In req (snd (dispatch (entries assets))) ->
               startsWith "http://" (snd req) = true \/
               startsWith "https://" (snd req) = true) /\
  (forall f, In f (fst (dispatch (entries assets))) ->
             In (failed_url f) (assetsOf (failed_type f) assets) /\
             failed_reason f = "Unsupported or local path") /\
  List.length (fst (dispatch (entries assets)))
  + List.length (snd (dispatch (entries assets)))
  = List.length (allUrls assets).
Proof.
  unfold allUrls, entries. cbn [dispatch flat_map snd].
  pose proof (dispatchUrls_spec Images (assets_images assets)) as (R1 & F1 & L1).
  pose proof (dispatchUrls_spec Css (assets_css assets)) as (R2 & F2 & L2).
  pose proof (dispatchUrls_spec Js (assets_js assets)) as (R3 & F3 & L3).
  pose proof (dispatchUrls_spec Fonts (assets_fonts assets)) as (R4 & F4 & L4).
  destruct (dispatchUrls Images (assets_images assets)) as [f1 r1].
  destruct (dispatchUrls Css (assets_css assets)) as [f2 r2].
  destruct (dispatchUrls Js (assets_js assets)) as [f3 r3].
  destruct (dispatchUrls Fonts (assets_fonts assets)) as [f4 r4].
  cbn [fst snd] in *. rewrite !app_nil_r. split; [|split].
  - intros req H. rewrite !in_app_iff in H.
    destruct H as [H|[H|[H|H]]];
      [apply R1 | apply R2 | apply R3 | apply R4]; exact H.
  - intros f H. rewrite !in_app_iff in H.
    destruct H as [H|[H|[H|H]]];
      [destruct (F1 f H) as (A & B & C) | destruct (F2 f H) as (A & B & C)
      | destruct (F3 f H) as (A & B & C) | destruct (F4 f H) as (A & B & C)];
      rewrite A; cbn [assetsOf]; auto.
  - rewrite !length_app. lia.
Qed.

Lemma prepare_completeUrl (type : AssetType) (rawUrl : string) :
  prepare type rawUrl
  = if Regex.test false guardRegex (completeUrl rawUrl)
    then inr (type, completeUrl rawUrl)
    else inl (MkFailed rawUrl type "Unsupported or local path").
Proof.
  unfold prepare, completeUrl.
  destruct (startsWith "//" (trim rawUrl));
    match goal with
    | |- context [Regex.test false guardRegex ?u] =>
        destruct (Regex.test false guardRegex u)
    end; reflexivity.
Qed.

Lemma guard_rejects (u : string) :
  Regex.test false guardRegex u = false <->
  startsWith "http://" u = false /\ startsWith "https://" u = false.
Proof.
  pose proof (guard_spec u) as G.
  destruct (Regex.test false guardRegex u), (startsWith "http://" u),
    (startsWith "https://" u); intuition congruence.
Qed.

Lemma dispatchUrls_requests (type : AssetType) (urls : list string)
    (req : Request) :
  In req (snd (dispatchUrls type urls)) <->
  exists rawUrl,
    In rawUrl urls /\ req = (type, completeUrl rawUrl) /\
    Regex.test false guardRegex (completeUrl rawUrl) = true.
Proof.
  induction urls as [|rawUrl urls IH]; cbn [dispatchUrls].
  - cbn [snd In]. split; [tauto | intros (r & [] & _)].
  - destruct (dispatchUrls type urls) as [fs rs]. cbn [snd] in IH.
    rewrite prepare_completeUrl.
    destruct (Regex.test false guardRegex (completeUrl rawUrl)) eqn:G;
      cbn [snd In]; rewrite IH; split.
    + intros [<-|(r & Hr & E)]; [exists rawUrl; auto|].
      exists r. split; [right; exact Hr | exact E].
    + intros (r & [<-|Hr] & E & T); [left; congruence|].
      right. exists r. auto.
    + intros (r & Hr & E). exists r. split; [right; exact Hr | exact E].
    + intros (r & [<-|Hr] & E & T); [congruence|]. exists r. auto.
Qed.

Lemma dispatchUrls_turnedAway (type : AssetType) (urls : list string)
    (f : FailedAsset) :
  In f (fst (dispatchUrls type urls)) <->
  exists rawUrl,
    In rawUrl urls /\ f = MkFailed rawUrl type "Unsupported or local path" /\
    Regex.test false guardRegex (completeUrl rawUrl) = false.
Proof.
  induction urls as [|rawUrl urls IH]; cbn [dispatchUrls].
  - cbn [fst In]. split; [tauto | intros (r & [] & _)].
  - destruct (dispatchUrls type urls) as [fs rs]. cbn [fst] in IH.
    rewrite prepare_completeUrl.
    destruct (Regex.test false guardRegex (completeUrl rawUrl)) eqn:G;
      cbn [fst In]; rewrite IH; split.
    + intros (r & Hr & E). exists r. split; [right; exact Hr | exact E].
    + intros (r & [<-|Hr] & E & T); [congruence|]. exists r. auto.
    + intros [<-|(r & Hr & E)]; [exists rawUrl; auto|].
      exists r. split; [right; exact Hr | exact E].
    + intros (r & [<-|Hr] & E & T); [left; congruence|].
      right. exists r. auto.
Qed.

Lemma dispatch_parts (assets : Assets) :
  fst (dispatch (entries assets))
  = (fst (dispatchUrls Images (assets_images assets))
     ++ fst (dispatchUrls Css (assets_css assets))
     ++ fst (dispatchUrls Js (assets_js assets))
     ++ fst (dispatchUrls Fonts (assets_fonts assets)))%list /\
  snd (dispatch (entries assets))
  = (snd (dispatchUrls Images (assets_images assets))
     ++ snd (dispatchUrls Css (assets_css assets))
     ++ snd (dispatchUrls Js (assets_js assets))
     ++ snd (dispatchUrls Fonts (assets_fonts assets)))%list.
Proof.
  unfold entries. cbn [dispatch].
  destruct (dispatchUrls Images (assets_images assets)) as [f1 r1].
  destruct (dispatchUrls Css (assets_css assets)) as [f2 r2].
  destruct (dispatchUrls Js (assets_js assets)) as [f3 r3].
  destruct (dispatchUrls Fonts (assets_fonts assets)) as [f4 r4].
  cbn [fst snd]. rewrite !app_nil_r. auto.
Qed.

(** X7: a URL of a set is requested exactly when, trimmed and completed
    with [https:] after a leading [//], it begins with [http://] or
    [https://] as written, and the request is for that completed URL
    under the type of the set; every other URL of the sets, and nothing
    else, is turned away at once, under the URL as it stood in the set
    and its type, with the reason [Unsupported or local path]; and the
    requests and the entries turned away are as many as the URLs. *)
Theorem only_http_urls_are_fetched (assets : Assets) :
  (forall (type : AssetType) (url : string),
      In (type, url) (snd (dispatch (entries assets))) <->
      exists rawUrl,
        In rawUrl (assetsOf type assets) /\ url = completeUrl rawUrl /\
        (startsWith "http://" url = true \/
         startsWith "https://" url = true)) /\
  (forall f : FailedAsset,
      In f (fst (dispatch (entries assets))) <->
      In (failed_url f) (assetsOf (failed_type f) assets) /\
      failed_reason f = "Unsupported or local path" /\
      startsWith "http://" (completeUrl (failed_url f)) = false /\
      startsWith "https://" (completeUrl (failed_url f)) = false) /\
  List.length (fst (dispatch (entries assets)))
  + List.length (snd (dispatch (entries assets)))
  = List.length (allUrls assets).
Proof.
  destruct (dispatch_parts assets) as [F R].
  split; [|split; [|exact (proj2 (proj2 (dispatch_spec assets)))]].
  - intros type url. rewrite R, !in_app_iff, !dispatchUrls_requests. split.
    + intros H.
      assert (G : exists type' rawUrl,
                 In rawUrl (assetsOf type' assets) /\
                 (type, url) = (type', completeUrl rawUrl) /\
                 Regex.test false guardRegex (completeUrl rawUrl) = true).
      { destruct H as [H|[H|[H|H]]]; destruct H as (r & Hr & E & T);
          [exists Images | exists Css | exists Js | exists Fonts];
          exists r; auto. }
      destruct G as (type' & r & Hr & E & T).
      injection E as -> ->. exists r. split; [exact Hr|].
      split; [reflexivity | apply guard_spec, T].
    + intros (r & Hr & -> & S). apply guard_spec in S.
      destruct type; cbn [assetsOf] in Hr;
        [left | right; left | right; right; left | right; right; right];
        exists r; auto.
  - intros f. rewrite F, !in_app_iff, !dispatchUrls_turnedAway. split.
    + intros H.
      assert (G : exists type rawUrl,
                 In rawUrl (assetsOf type assets) /\
                 f = MkFailed rawUrl type "Unsupported or local path" /\
                 Regex.test false guardRegex (completeUrl rawUrl) = false).
      { destruct H as [H|[H|[H|H]]]; destruct H as (r & Hr & E & T);
          [exists Images | exists Css | exists Js | exists Fonts];
          exists r; auto. }
      destruct G as (type & r & Hr & -> & T).
      cbn [failed_url failed_type failed_reason].
      split; [exact Hr|]. split; [reflexivity | apply guard_rejects, T].
    + destruct f as [rawUrl type reason].
      cbn [failed_url failed_type failed_reason].
      intros (Hr & -> & S). apply guard_rejects in S.
      destruct type; cbn [assetsOf] in Hr;
        [left | right; left | right; right; left | right; right; right];
        exists rawUrl; auto.
Qed.

Lemma only_http_urls_are_fetched_witness :
  In (Images, "https://x.com/a/b.png")
     (snd (dispatch (entries strayAssets))) /\
  In (MkFailed "ftp://x.com/c.png" Images "Unsupported or local path")
     (fst (dispatch (entries strayAssets))).
Proof.
  split.
  - apply (proj1 (only_http_urls_are_fetched strayAssets)).
    exists " //x.com/a/b.png".
    split; [left; reflexivity|]. split; [reflexivity|].
    right. reflexivity.
  - apply (proj1 (proj2 (only_http_urls_are_fetched strayAssets))).
    cbn [failed_url failed_type failed_reason].
    split; [right; left; reflexivity|]. split; [reflexivity|].
    split; reflexivity.
Defined.

(** *** Every request is accounted for *)

Lemma settle_failed_length (st st' : FetchState) (req : Request)
    (out : FetchOutcome) :
  settle st req out = Some st' ->
  List.length (failed st')
  = List.length (failed st) + (if succeeded out then 0 else 1).
Proof.
  unfold settle, succeeded. intros H.
  assert (F : forall reason,
             List.length (failed (fail req reason st))
             = List.length (failed st) + 1)
    by (intros reason; unfold fail; cbn [failed]; rewrite length_app;
        reflexivity).
  destruct out as [res|message]; [|inversion H; apply F].
  destruct (ok res); cbn [negb andb] in *; [|inversion H; apply F].
  destruct (blob res) as [message|b]; [inversion H; apply F|].
  destruct (generateUniqueName (assetNameTracker st) (snd req))
    as [[filename tracker]|]; [|discriminate].
  inversion H; subst. cbn [failed]. lia.
Qed.

Lemma settleAll_count (requests : list Request)
    (network : nat -> FetchOutcome) (order : list nat) :
  forall st,
    batch_inv st ->
    Forall (fun n => n < List.length requests) order ->
    exists st',
      settleAll requests network order st = Some st' /\
      List.length (validNames (valid st')) + List.length (failed st')
      = List.length (validNames (valid st)) + List.length (failed st)
        + List.length order.
Proof.
  induction order as [|n order IH]; intros st I B; cbn [settleAll].
  - exists st. split; [reflexivity|]. simpl. lia.
  - inversion B as [|? ? Bn B']; subst.
    destruct (nth_error requests n) as [req|] eqn:E;
      [|apply nth_error_None in E; lia].
    destruct (settle_inv req (network n) I) as (st1 & E1 & I1 & L1).
    rewrite E1. pose proof (settle_failed_length _ _ _ E1) as F1.
    destruct (IH st1 I1 B') as (st' & E' & L').
    exists st'. split; [exact E'|].
    cbn [List.length]. destruct (succeeded (network n)); lia.
Qed.

(** X8: when every request settles exactly once, in whatever order, the
    batch ends and each URL of the sets has one entry: the number of
    names given plus the number of failures is the number of URLs. *)
Theorem every_url_is_valid_or_failed (assets : Assets)
    (network : nat -> FetchOutcome) (order : list nat) :
  Permutation order
    (seq 0 (List.length (snd (dispatch (entries assets))))) ->
  exists st,
    fetchAssets assets network order = Some st /\
    List.length (validNames (valid st)) + List.length (failed st)
    = List.length (allUrls assets).
Proof.
  intros P. unfold fetchAssets.
  pose proof (dispatch_spec assets) as (_ & _ & L).
  destruct (dispatch (entries assets)) as [turnedAway allFetches].
  cbn [fst snd] in *.
  destruct (@settleAll_count allFetches network order
              (MkFetch noValid turnedAway JsSet.empty))
    as (st & E & C).
  - split; [constructor|]. intros x. simpl. split; [discriminate | tauto].
  - apply Forall_forall. intros n Hn.
    apply (Permutation_in _ P) in Hn. apply in_seq in Hn. lia.
  - exists st. split; [exact E|]. rewrite C. cbn [valid failed validNames].
    simpl. rewrite (Permutation_length P), length_seq. lia.
Qed.

Lemma every_url_is_valid_or_failed_witness :
  Permutation [2; 0; 1]
    (seq 0 (List.length (snd (dispatch (entries sampleAssets))))) /\
  exists st,
    fetchAssets sampleAssets sampleNetwork [2; 0; 1] = Some st /\
    List.length (validNames (valid st)) + List.length (failed st) = 3.
Proof.
  assert (P : Permutation [2; 0; 1]
                (seq 0 (List.length (snd (dispatch (entries sampleAssets))))))
    by (vm_compute; exact (Permutation_cons_append [0; 1] 2)).
  split; [exact P|].
  exact (every_url_is_valid_or_failed sampleAssets sampleNetwork P).
Defined.

(** *** Names that are safe in a folder *)









(** *** The loop of a folder on any map *)

Lemma placeEntries_contract (keep : string -> bool) (dir : string)
    (entries : JsMap.t Blob) :
  forall tracker,
    exists calls,
      placeEntries keep dir entries tracker = Some calls /\
      List.length calls = List.length (placedIn dir calls) /\
      map snd (placedIn dir calls)
      = map (fun e => Fetched (snd e))
          (filter (fun e => keep (fst e)) entries) /\
      NoDup (namesOf (placedIn dir calls)) /\
      (forall n, In n (namesOf (placedIn dir calls)) -> ~ In n tracker) /\
      Forall2 (fun n e =>
                 exists k,
                   n = candidate (first (split query_or_hash (fst e))) k)
        (namesOf (placedIn dir calls))
        (filter (fun e => keep (fst e)) entries).
Proof.
  induction entries as [|[f b] entries IH]; intros tracker;
    cbn [placeEntries filter fst].
  - exists []. cbn. repeat split; try constructor. intros n [].
  - destruct (keep f); [|apply IH].
    destruct (uniqueName_spec tracker (first (split query_or_hash f)))
      as (k & -> & F & _).
    set (name := candidate (first (split query_or_hash f)) k) in *.
    destruct (IH (JsSet.add name tracker))
      as (calls & -> & L & D & N & T & C).
    exists (AddFile dir name (Fetched b) :: calls).
    cbn [placedIn]. rewrite String.eqb_refl.
    cbn [List.length map namesOf fst snd].
    fold (namesOf (placedIn dir calls)).
    split; [reflexivity|]. split; [congruence|]. split; [congruence|].
    assert (Tk : forall n, In n (namesOf (placedIn dir calls)) ->
                           n <> name /\ ~ In n tracker).
    { intros n Hn. specialize (T n Hn). rewrite add_fresh in T by exact F.
      rewrite in_app_iff in T. simpl in T. split; intros X; apply T; auto. }
    split; [|split].
    + constructor; [|exact N]. intros Hn. apply (proj1 (Tk _ Hn)).
      reflexivity.
    + intros n [<-|Hn]; [|apply Tk; exact Hn].
      intros Hin. apply has_In in Hin. congruence.
    + constructor; [exists k; reflexivity | exact C].
Qed.

(** X10: the loop that fills a folder from a map ends on every map; it
    stores one file for each entry that passes the test of the folder,
    in the order of the map and with the entry's data; the names differ
    from one another; and each name is the entry's key cut at the first
    [?] or [#], or that behind [duplicate-<n>-]. *)
Theorem folder_loop_gives_distinct_names (keep : string -> bool)
    (dir : string) (entries : JsMap.t Blob) :
  exists calls,
    placeEntries keep dir entries JsSet.empty = Some calls /\
    List.length calls = List.length (placedIn dir calls) /\
    map snd (placedIn dir calls)
    = map (fun e => Fetched (snd e))
        (filter (fun e => keep (fst e)) entries) /\
    NoDup (namesOf (placedIn dir calls)) /\
    Forall2 (fun n e =>
               exists k,
                 n = candidate (first (split query_or_hash (fst e))) k)
      (namesOf (placedIn dir calls))
      (filter (fun e => keep (fst e)) entries).
Proof.
  destruct (placeEntries_contract keep dir entries JsSet.empty)
    as (calls & E & L & D & N & _ & C).
  exists calls. auto.
Qed.

(** *** The whole archive after a batch *)

Ltac path_differs :=
  first [ path_neq | rewrite String.eqb_sym; path_neq ].

Lemma filter_everything (entries : JsMap.t Blob) :
  filter (fun e => everything (fst e)) entries = entries.
Proof.
  induction entries as [|e entries IH]; [reflexivity|].
  cbn [filter everything]. rewrite IH. reflexivity.
Qed.

Lemma placedIn_locals_same (root : string) (files : list File) :
  placedIn root (map (fun f => AddFile root (name f) (LocalFile f)) files)
  = map (fun f => (name f, LocalFile f)) files.
Proof.
  induction files as [|f files IH]; [reflexivity|].
  cbn [map placedIn]. rewrite String.eqb_refl, IH. reflexivity.
Qed.

Lemma placedIn_assets_block (dir root : string) (cond : bool)
    (blocks : list ZipCall) :
  placedIn dir (if cond then MkFolder root :: blocks else [])
  = if cond then placedIn dir blocks else [].
Proof. destruct cond; reflexivity. Qed.

(** In the layout the root folder holds the local files, [assets/fonts]
    the fonts, [script] the scripts and [style] the style sheets. *)
Lemma placedIn_layout_rest (value : string) (files : list File)
    (zc : ValidAssets) :
  placedIn (rootOf value) (layout value files zc)
  = map (fun f => (name f, LocalFile f)) files /\
  placedIn ((rootOf value ++ "assets/") ++ "fonts/") (layout value files zc)
  = map asPlaced (valid_fonts zc) /\
  placedIn (rootOf value ++ "script/") (layout value files zc)
  = map asPlaced (valid_js zc) /\
  placedIn (rootOf value ++ "style/") (layout value files zc)
  = map asPlaced (valid_css zc).
Proof.
  assert (Empty : forall m : JsMap.t Blob,
             Nat.ltb 0 (JsMap.size m) = false ->
             filter (fun e => everything (fst e)) m = [])
    by (intros m H; rewrite (hasAssets_false_nil m H); reflexivity).
  unfold layout. cbn [placedIn]. rewrite !placedIn_app.
  rewrite !placedIn_assets_block. cbn [placedIn]. rewrite !placedIn_app.
  repeat split.
  - rewrite placedIn_locals_same.
    rewrite !placedIn_block_other by path_differs.
    destruct (hasAssets zc "images" || hasAssets zc "fonts")%bool;
      rewrite ?app_nil_r; reflexivity.
  - rewrite placedIn_locals by path_differs.
    rewrite (@placedIn_block_same (_ ++ "fonts/")) by (apply Empty).
    repeat rewrite (@placedIn_block_other _ (_ ++ "images/"))
      by path_differs.
    repeat rewrite (@placedIn_block_other _ (_ ++ "videos/"))
      by path_differs.
    repeat rewrite (@placedIn_block_other _ (_ ++ "gifs/")) by path_differs.
    repeat rewrite (@placedIn_block_other _ (_ ++ "script/"))
      by path_differs.
    repeat rewrite (@placedIn_block_other _ (_ ++ "style/")) by path_differs.
    rewrite filter_everything. cbn [List.app]. rewrite ?app_nil_r.
    destruct (hasAssets zc "images") eqn:I; cbn [orb]; [reflexivity|].
    destruct (hasAssets zc "fonts") eqn:F; [reflexivity|].
    rewrite (hasAssets_false_nil (valid_fonts zc) F). reflexivity.
  - rewrite placedIn_locals by path_differs.
    rewrite (@placedIn_block_same (_ ++ "script/")) by (apply Empty).
    repeat rewrite (@placedIn_block_other _ (_ ++ "images/"))
      by path_differs.
    repeat rewrite (@placedIn_block_other _ (_ ++ "fonts/")) by path_differs.
    repeat rewrite (@placedIn_block_other _ (_ ++ "videos/"))
      by path_differs.
    repeat rewrite (@placedIn_block_other _ (_ ++ "gifs/")) by path_differs.
    repeat rewrite (@placedIn_block_other _ (_ ++ "style/")) by path_differs.
    rewrite filter_everything. cbn [List.app]. rewrite ?app_nil_r.
    destruct (hasAssets zc "images" || hasAssets zc "fonts")%bool;
      reflexivity.
  - rewrite placedIn_locals by path_differs.
    rewrite (@placedIn_block_same (_ ++ "style/")) by (apply Empty).
    repeat rewrite (@placedIn_block_other _ (_ ++ "images/"))
      by path_differs.
    repeat rewrite (@placedIn_block_other _ (_ ++ "fonts/")) by path_differs.
    repeat rewrite (@placedIn_block_other _ (_ ++ "videos/"))
      by path_differs.
    repeat rewrite (@placedIn_block_other _ (_ ++ "gifs/")) by path_differs.
    repeat rewrite (@placedIn_block_other _ (_ ++ "script/"))
      by path_differs.
    rewrite filter_everything. cbn [List.app]. rewrite ?app_nil_r.
    destruct (hasAssets zc "images" || hasAssets zc "fonts")%bool;
      reflexivity.
Qed.

Lemma created_cons (dir path : string) (calls : list ZipCall) :
  created dir (MkFolder path :: calls)
  = (String.eqb path dir || created dir calls)%bool.
Proof. reflexivity. Qed.

Lemma created_if (dir : string) (cond : bool) (calls : list ZipCall) :
  created dir (if cond then calls else []) = (cond && created dir calls)%bool.
Proof. destruct cond; reflexivity. Qed.

Ltac decide_paths :=
  repeat match goal with
         | |- context [String.eqb ?a ?b] =>
             first [ rewrite (String.eqb_refl a)
                   | replace (String.eqb a b) with false
                       by (symmetry; path_differs) ]
         end.

(** In the layout [assets/] is made when there is an image or a font,
    [assets/fonts] when there is a font, [script] when there is a script
    and [style] when there is a style sheet. *)
Lemma created_layout_rest (value : string) (files : list File)
    (zc : ValidAssets) :
  created (rootOf value ++ "assets/") (layout value files zc)
  = (hasAssets zc "images" || hasAssets zc "fonts")%bool /\
  created ((rootOf value ++ "assets/") ++ "fonts/") (layout value files zc)
  = hasAssets zc "fonts" /\
  created (rootOf value ++ "script/") (layout value files zc)
  = hasAssets zc "js" /\
  created (rootOf value ++ "style/") (layout value files zc)
  = hasAssets zc "css".
Proof.
  unfold layout.
  repeat split;
    rewrite created_cons, !created_app, created_files, created_if,
      created_cons, !created_app, !created_block;
    decide_paths;
    rewrite ?andb_false_r, ?andb_true_r, ?orb_false_r, ?orb_true_r;
    cbn [orb andb];
    rewrite ?andb_false_r, ?andb_true_r, ?orb_false_r, ?orb_true_r;
    try reflexivity.
  destruct (hasAssets zc "images"), (hasAssets zc "fonts"); reflexivity.
Qed.

(** X11: with the result of a fetch batch as [zipContent] and local
    files of different keys, the listener ends with the calls of the
    layout: the root folder holds every local file under its own name,
    [assets/fonts], [script] and [style] hold the fonts, the scripts and
    the style sheets under the names of the batch, in the order of the
    maps, and each of these folders, like [assets/], is made exactly
    when it has something to hold. *)
Theorem archive_follows_the_layout :
  forall assets network order st fuel date value page,
    fetchAssets assets network order = Some st ->
    NoDup (map fileKey (collectedFiles page)) ->
    zipContent page = Some (valid st) ->
    exists filename calls,
      generateZip fuel date value page = Finished (filename, calls) /\
      calls = layout value (collectedFiles page) (valid st) /\
      placedIn (rootOf value) calls
      = map (fun f => (name f, LocalFile f)) (collectedFiles page) /\
      placedIn ((rootOf value ++ "assets/") ++ "fonts/") calls
      = map asPlaced (valid_fonts (valid st)) /\
      placedIn (rootOf value ++ "script/") calls
      = map asPlaced (valid_js (valid st)) /\
      placedIn (rootOf value ++ "style/") calls
      = map asPlaced (valid_css (valid st)) /\
      created (rootOf value ++ "assets/") calls
      = (hasAssets (valid st) "images" || hasAssets (valid st) "fonts")%bool /\
      created ((rootOf value ++ "assets/") ++ "fonts/") calls
      = hasAssets (valid st) "fonts" /\
      created (rootOf value ++ "script/") calls = hasAssets (valid st) "js" /\
      created (rootOf value ++ "style/") calls = hasAssets (valid st) "css".
Proof.
  intros assets network order st fuel date value page Hst Nk Hzc.
  destruct (fetchAssets_names _ _ _ Hst) as [N C].
  destruct (@generateZip_layout fuel date value page (valid st) Nk Hzc N C)
    as [filename E].
  exists filename, (layout value (collectedFiles page) (valid st)).
  split; [exact E|]. split; [reflexivity|].
  destruct (placedIn_layout_rest value (collectedFiles page) (valid st))
    as (P1 & P2 & P3 & P4).
  destruct (created_layout_rest value (collectedFiles page) (valid st))
    as (C1 & C2 & C3 & C4).
  repeat split; assumption.
Qed.

Lemma archive_follows_the_layout_witness :
  fetchAssets sampleAssets sampleNetwork [2; 0; 1] = Some sampleBatch /\
  NoDup (map fileKey (collectedFiles samplePage)) /\
  zipContent samplePage = Some (valid sampleBatch) /\
  exists filename calls,
    generateZip 0 "02 November 2026" "Test" samplePage
    = Finished (filename, calls) /\
    placedIn "Test-devpack/" calls = [("main.js", LocalFile sampleScript)] /\
    created "Test-devpack/script/" calls = false.
Proof.
  assert (H1 : fetchAssets sampleAssets sampleNetwork [2; 0; 1]
               = Some sampleBatch) by reflexivity.
  assert (H2 : NoDup (map fileKey (collectedFiles samplePage)))
    by (repeat constructor; simpl; tauto).
  assert (H3 : zipContent samplePage = Some (valid sampleBatch))
    by reflexivity.
  split; [exact H1|]. split; [exact H2|]. split; [exact H3|].
  destruct (@archive_follows_the_layout sampleAssets sampleNetwork
              [2; 0; 1] sampleBatch 0 "02 November 2026" "Test" samplePage
              H1 H2 H3)
    as (filename & calls & E & _ & P & _ & _ & _ & _ & _ & C & _).
  exists filename, calls. split; [exact E|]. split; [exact P | exact C].
Defined.

(** X12: as long as no scan has ended, [zipContent] is [null]: with a
    local file on the page the download button opens the modal, but the
    listener that generates the archive stops with a type error after
    the local files, whatever the name and the date, and saves
    nothing. *)
Theorem generate_without_scan_throws (fuel : nat) (date value : string)
    (page : AppState) :
  NoDup (map fileKey (collectedFiles page)) ->
  collectedFiles page <> [] ->
  zipContent page = None ->
  onDownload page = true /\ generateZip fuel date value page = TypeError.
Proof.
  intros N F Z. split.
  - unfold onDownload. rewrite Z. destruct (collectedFiles page); [tauto|].
    reflexivity.
  - unfold generateZip, folder.
    rewrite addLocalFiles_total by (auto; intros x []). rewrite Z.
    reflexivity.
Qed.

Lemma generate_without_scan_throws_witness :
  NoDup (map fileKey (collectedFiles unscannedPage)) /\
  collectedFiles unscannedPage <> [] /\
  zipContent unscannedPage = None /\
  onDownload unscannedPage = true /\
  generateZip 3 "02 November 2026" "Test" unscannedPage = TypeError.
Proof.
  assert (H1 : NoDup (map fileKey (collectedFiles unscannedPage)))
    by (repeat constructor; simpl; tauto).
  assert (H2 : collectedFiles unscannedPage <> []) by discriminate.
  assert (H3 : zipContent unscannedPage = None) by reflexivity.
  split; [exact H1|]. split; [exact H2|]. split; [exact H3|].
  exact (@generate_without_scan_throws 3 "02 November 2026" "Test"
           unscannedPage H1 H2 H3).
Defined.

(** *** The name field *)

Lemma keepChars_id (p : ascii -> bool) (s : string) :
  forallb_str p s = true -> keepChars p s = s.
Proof.
  induction s as [|c s IH]; [reflexivity|]. cbn [forallb_str keepChars].
  rewrite andb_true_iff. intros [-> H]. rewrite IH; auto.
Qed.

Lemma hyphenate_id (s : string) :
  forallb_str (fun c => negb (is_space c)) s = true ->
  forall inRun, hyphenate inRun s = s.
Proof.
  induction s as [|c s IH]; [reflexivity|]. cbn [forallb_str hyphenate].
  rewrite andb_true_iff. intros [Hc H] inRun.
  destruct (is_space c); [discriminate|]. rewrite IH; auto.
Qed.

Lemma sanitize_chars (value : string) :
  forallb_str name_char (sanitize value) = true.
Proof. rewrite sanitize_spec. apply keepChars_forall. Qed.

Lemma sanitize_fixed (s : string) :
  forallb_str name_char s = true -> sanitize s = s.
Proof.
  intros H. rewrite sanitize_spec.
  assert (N : forallb_str (fun c => negb (is_space c)) s = true)
    by (revert H; apply forallb_str_impl; exact name_char_no_space).
  rewrite (trim_no_space _ N), (hyphenate_id _ N). apply keepChars_id, H.
Qed.

(** X13: the listener of the name field leaves its own output alone: run
    on the value that it wrote, it writes the same value and sets the
    button the same way. *)
Theorem validateInputs_is_idempotent (value : string) :
  validateInputs (fst (validateInputs value)) = validateInputs value.
Proof.
  unfold validateInputs. cbn [fst].
  rewrite (sanitize_fixed _ (sanitize_chars value)). reflexivity.
Qed.

Lemma validName_test (s : string) :
  forallb_str name_char s = true -> s <> "" ->
  Regex.test false validNameRegex s = true.
Proof.
  intros H N. apply test_spec. exists "", s, "".
  split; [rewrite append_nil_r; reflexivity|].
  unfold validNameRegex, Plus. cbn [matches].
  exists "", s. split; [reflexivity|]. split; [auto|].
  exists s, "". rewrite append_nil_r. split; [reflexivity|].
  split; [|auto]. split; [|exact H]. destruct s; [tauto | simpl; lia].
Qed.

(** X14: the button that generates the archive is disabled exactly when
    the sanitized name is empty; when it is enabled the name written to
    the field is made of letters, digits and hyphens only. *)
Theorem generate_button_needs_a_name (value : string) :
  (snd (validateInputs value) = true <-> fst (validateInputs value) = "") /\
  forallb_str name_char (fst (validateInputs value)) = true.
Proof.
  unfold validateInputs. cbn [fst snd]. split; [|apply sanitize_chars].
  destruct (String.eqb_spec (sanitize value) "") as [E|E].
  - rewrite E. split; reflexivity.
  - rewrite (validName_test (sanitize_chars value) E).
    destruct (sanitize value); [tauto|]. cbn. split; [discriminate | tauto].
Qed.

(** *** Grouping the failures *)

Lemma get_set (V : Type) (k k' : string) (v : V) (m : JsMap.t V) :
  JsMap.get k' (JsMap.set k v m)
  = if (k' =? k)%string then Some v else JsMap.get k' m.
Proof.
  induction m as [|[k0 v0] m IH]; cbn [JsMap.set JsMap.get]; [reflexivity|].
  destruct (String.eqb_spec k k0) as [->|N]; cbn [JsMap.get].
  - destruct (k' =? k0)%string; reflexivity.
  - rewrite IH. destruct (String.eqb_spec k' k0) as [->|N'];
      [|reflexivity].
    destruct (String.eqb_spec k0 k); [congruence | reflexivity].
Qed.

Lemma get_None_keys (V : Type) (k : string) (m : JsMap.t V) :
  JsMap.get k m = None -> ~ In k (JsMap.keys m).
Proof.
  induction m as [|[k0 v0] m IH]; cbn [JsMap.get JsMap.keys map fst];
    [tauto|].
  destruct (String.eqb_spec k k0); [discriminate|].
  intros H [E|E]; [congruence | exact (IH H E)].
Qed.

Lemma keys_set_present (V : Type) (k : string) (v v' : V) (m : JsMap.t V) :
  JsMap.get k m = Some v' ->
  JsMap.keys (JsMap.set k v m) = JsMap.keys m.
Proof.
  induction m as [|[k0 v0] m IH]; cbn [JsMap.get JsMap.set]; [discriminate|].
  destruct (String.eqb_spec k k0) as [->|N]; [reflexivity|].
  intros H. cbn [JsMap.keys map fst]. f_equal. exact (IH H).
Qed.

Lemma grouped_set_present (V : Type) (k : string) (v v' : list V)
    (m : JsMap.t (list V)) :
  JsMap.get k m = Some v' ->
  grouped (JsMap.set k v m) + List.length v' = grouped m + List.length v.
Proof.
  unfold grouped.
  induction m as [|[k0 v0] m IH]; cbn [JsMap.get JsMap.set]; [discriminate|].
  destruct (String.eqb_spec k k0) as [->|N]; cbn [map list_sum fold_right snd].
  - intros [= ->]. lia.
  - intros H. specialize (IH H). unfold list_sum in IH. lia.
Qed.

Lemma grouped_set_fresh (V : Type) (k : string) (v : list V)
    (m : JsMap.t (list V)) :
  JsMap.get k m = None ->
  grouped (JsMap.set k v m) = grouped m + List.length v.
Proof.
  unfold grouped.
  induction m as [|[k0 v0] m IH]; cbn [JsMap.get JsMap.set];
    [cbn; lia|].
  destruct (String.eqb_spec k k0) as [->|N]; [discriminate|].
  cbn [map list_sum fold_right snd]. intros H. specialize (IH H).
  unfold list_sum in IH. lia.
Qed.

Lemma failuresOf_snoc (key : string) (arr : list FailedAsset)
    (item : FailedAsset) :
  failuresOf key (arr ++ [item])
  = (failuresOf key arr
     ++ if (typeName (failed_type item) =? key)%string
        then [item] else [])%list.
Proof.
  unfold failuresOf. rewrite filter_app. cbn [filter].
  destruct (typeName (failed_type item) =? key)%string; reflexivity.
Qed.

Lemma groupBy_snoc (arr : list FailedAsset) (item : FailedAsset) :
  groupBy (arr ++ [item]) = groupStep (groupBy arr) item.
Proof. unfold groupBy. rewrite fold_left_app. reflexivity. Qed.

Lemma groupBy_inv (arr : list FailedAsset) :
  NoDup (JsMap.keys (groupBy arr)) /\
  (forall key : string,
      JsMap.get key (groupBy arr)
      = match failuresOf key arr with
        | [] => None
        | items => Some items
        end) /\
  grouped (groupBy arr) = List.length arr.
Proof.
  induction arr as [|item arr (ND & G & S)] using rev_ind.
  - split; [constructor|]. split; [intros key|]; reflexivity.
  - rewrite groupBy_snoc. unfold groupStep.
    pose proof (G (typeName (failed_type item))) as Gk.
    destruct (JsMap.get (typeName (failed_type item)) (groupBy arr))
      as [old|] eqn:E.
    + split; [|split].
      * rewrite (@keys_set_present _ _ _ _ _ E). exact ND.
      * intros key. rewrite get_set, failuresOf_snoc, String.eqb_sym.
        destruct (String.eqb_spec (typeName (failed_type item)) key)
          as [<-|N].
        -- destruct (failuresOf (typeName (failed_type item)) arr);
             [discriminate|]. injection Gk as ->. reflexivity.
        -- rewrite app_nil_r. apply G.
      * pose proof (@grouped_set_present _ _ (old ++ [item])%list _ _ E) as P.
        rewrite length_app in P |- *. cbn [List.length] in P |- *. lia.
    + split; [|split].
      * rewrite (@keys_set_fresh _ _ _ _ (get_None_keys _ _ E)).
        apply NoDup_app; [exact ND | repeat constructor; simpl; tauto |].
        intros x Hx [<-|[]]. exact (get_None_keys _ _ E Hx).
      * intros key. rewrite get_set, failuresOf_snoc, String.eqb_sym.
        destruct (String.eqb_spec (typeName (failed_type item)) key)
          as [<-|N].
        -- destruct (failuresOf (typeName (failed_type item)) arr);
             [reflexivity | discriminate].
        -- rewrite app_nil_r. apply G.
      * rewrite (@grouped_set_fresh _ _ _ _ E), length_app. cbn. lia.
Qed.

(** X15: [groupBy] splits the failed downloads by type and loses none:
    the keys of the object are distinct, the group of a type holds the
    failures of that type in the order of the list, a type without a
    failure has no key, and the sizes of the groups add up to the length
    of the list. *)
Theorem groupBy_partitions_the_failures (arr : list FailedAsset) :
  NoDup (JsMap.keys (groupBy arr)) /\
  (forall type : AssetType,
      JsMap.get (typeName type) (groupBy arr)
      = match failuresOf (typeName type) arr with
        | [] => None
        | items => Some items
        end) /\
  (forall (key : string) (items : list FailedAsset),
      In (key, items) (groupBy arr) ->
      items <> [] /\
      exists type : AssetType,
        key = typeName type /\ items = failuresOf key arr) /\
  grouped (groupBy arr) = List.length arr.
Proof.
  destruct (groupBy_inv arr) as (ND & G & S).
  split; [exact ND|]. split; [intros type; apply G|]. split; [|exact S].
  intros key items Hin.
  assert (E : JsMap.get key (groupBy arr) = Some items).
  { revert ND Hin. generalize (groupBy arr) as m.
    induction m as [|[k0 v0] m IH]; cbn [JsMap.keys map fst JsMap.get In];
      [tauto|].
    intros ND [[= -> ->]|Hin]; [rewrite String.eqb_refl; reflexivity|].
    inversion ND as [|? ? Hk ND']; subst.
    destruct (String.eqb_spec key k0) as [->|N].
    - exfalso. apply Hk. change k0 with (fst (k0, items)).
      apply in_map, Hin.
    - apply IH; assumption. }
  rewrite G in E. destruct (failuresOf key arr) as [|x xs] eqn:F;
    [discriminate|]. injection E as <-.
  split; [discriminate|].
  assert (Hx : In x (failuresOf key arr)) by (rewrite F; left; reflexivity).
  apply filter_In in Hx. destruct Hx as [_ Hx].
  apply String.eqb_eq in Hx. exists (failed_type x). auto.
Qed.

(** *** From the scan to the archive *)

Lemma every_batch_ends (assets : Assets)
    (network : nat -> FetchOutcome) (order : list nat) :
  Permutation order
    (seq 0 (List.length (snd (dispatch (entries assets))))) ->
  exists st,
    fetchAssets assets network order = Some st /\
    List.length (validNames (valid st)) + List.length (failed st)
    = List.length (allUrls assets).
Proof.
  intros P. unfold fetchAssets.
  pose proof (dispatch_spec assets) as (_ & _ & L).
  destruct (dispatch (entries assets)) as [turnedAway allFetches].
  cbn [fst snd] in *.
  destruct (@settleAll_count allFetches network order
              (MkFetch noValid turnedAway JsSet.empty))
    as (st & E & C).
  - split; [constructor|]. intros x. simpl. split; [discriminate | tauto].
  - apply Forall_forall. intros n Hn.
    apply (Permutation_in _ P) in Hn. apply in_seq in Hn. lia.
  - exists st. split; [exact E|]. rewrite C. cbn [valid failed validNames].
    simpl. rewrite (Permutation_length P), length_seq. lia.
Qed.




(** *** Each asset stays with its type *)

Lemma size_set_fresh (V : Type) (k : string) (v : V) (m : JsMap.t V) :
  ~ In k (JsMap.keys m) -> JsMap.size (JsMap.set k v m) = S (JsMap.size m).
Proof.
  intros H. unfold JsMap.size.
  rewrite <- !(length_map fst). fold (JsMap.keys (JsMap.set k v m)).
  fold (JsMap.keys m). rewrite (@keys_set_fresh _ _ _ _ H), length_app.
  cbn. lia.
Qed.

Lemma validOf_validSet (type type' : AssetType) (k : string) (b : Blob)
    (v : ValidAssets) :
  validOf type (validSet type' k b v)
  = if (typeName type' =? typeName type)%string
    then JsMap.set k b (validOf type v) else validOf type v.
Proof. destruct type, type'; reflexivity. Qed.

Lemma validOf_keys (type : AssetType) (v : ValidAssets) (k : string) :
  In k (JsMap.keys (validOf type v)) -> In k (validNames v).
Proof.
  unfold validNames. rewrite !in_app_iff. destruct type; cbn [validOf]; tauto.
Qed.

Lemma settle_accounted (type : AssetType) (st st' : FetchState)
    (req : Request) (out : FetchOutcome) :
  batch_inv st ->
  settle st req out = Some st' ->
  accounted type st' = accounted type st + (if isType type req then 1 else 0).
Proof.
  intros [N T]. unfold settle.
  assert (Keep : forall reason,
             accounted type (fail req reason st)
             = accounted type st + (if isType type req then 1 else 0)).
  { intros reason. unfold accounted, fail, isType. cbn [valid failed].
    rewrite failuresOf_snoc, length_app. cbn [failed_type].
    destruct (typeName (fst req) =? typeName type)%string; cbn; lia. }
  destruct out as [res|message]; [|intros [= <-]; apply Keep].
  destruct (ok res); cbn [negb]; [|intros [= <-]; apply Keep].
  destruct (blob res) as [message|b]; [intros [= <-]; apply Keep|].
  destruct (generateUniqueName_spec (assetNameTracker st) (snd req))
    as (n & E & F & _).
  rewrite E. intros [= <-]. unfold accounted, isType. cbn [valid failed].
  rewrite validOf_validSet.
  destruct (typeName (fst req) =? typeName type)%string; [|lia].
  rewrite size_set_fresh; [lia|].
  intros H. apply validOf_keys, T in H. congruence.
Qed.

Lemma settleAll_accounted (type : AssetType) (requests : list Request)
    (network : nat -> FetchOutcome) (order : list nat) :
  forall st st',
    batch_inv st ->
    settleAll requests network order st = Some st' ->
    accounted type st'
    = accounted type st + List.length (settledOf type requests order).
Proof.
  unfold settledOf.
  induction order as [|n order IH]; intros st st' I; cbn [settleAll filter].
  - intros [= <-]. cbn. lia.
  - destruct (nth_error requests n) as [req|]; [|apply IH, I].
    destruct (settle_inv req (network n) I) as (st1 & E & I1 & _).
    rewrite E. intros H.
    rewrite (IH _ _ I1 H), (@settle_accounted type st st1 req _ I E).
    destruct (isType type req); cbn [List.length]; lia.
Qed.

Lemma filter_length_perm (A : Type) (p : A -> bool) (l l' : list A) :
  Permutation l l' -> List.length (filter p l) = List.length (filter p l').
Proof.
  induction 1 as [|x l l' _ IH|x y l|l l' l'' _ IH _ IH'];
    cbn [filter]; try congruence.
  - destruct (p x); cbn [List.length]; congruence.
  - destruct (p x), (p y); reflexivity.
Qed.

Lemma settledOf_all (type : AssetType) (requests : list Request) :
  List.length (settledOf type requests (seq 0 (List.length requests)))
  = List.length (filter (isType type) requests).
Proof.
  unfold settledOf.
  induction requests as [|req requests IH] using rev_ind; [reflexivity|].
  rewrite length_app, Nat.add_comm. cbn [List.length Nat.add].
  rewrite seq_S, !filter_app, !length_app. cbn [Nat.add filter].
  rewrite nth_error_app2, Nat.sub_diag by lia. cbn [nth_error].
  rewrite <- IH. f_equal; [|destruct (isType type req); reflexivity].
  f_equal. apply filter_ext_in.
  intros n Hn. apply in_seq in Hn. rewrite nth_error_app1 by lia. reflexivity.
Qed.

Lemma filter_all (A : Type) (p : A -> bool) (l : list A) :
  (forall x, In x l -> p x = true) -> filter p l = l.
Proof.
  induction l as [|x l IH]; intros H; [reflexivity|]. cbn [filter].
  rewrite (H x) by (left; reflexivity). f_equal. apply IH.
  intros y Hy. apply H. right. exact Hy.
Qed.

Lemma filter_none (A : Type) (p : A -> bool) (l : list A) :
  (forall x, In x l -> p x = false) -> filter p l = [].
Proof.
  induction l as [|x l IH]; intros H; [reflexivity|]. cbn [filter].
  rewrite (H x) by (left; reflexivity). apply IH.
  intros y Hy. apply H. right. exact Hy.
Qed.

Lemma dispatchUrls_accounted (type type' : AssetType) (urls : list string) :
  List.length (failuresOf (typeName type) (fst (dispatchUrls type' urls)))
  + List.length (filter (isType type) (snd (dispatchUrls type' urls)))
  = if (typeName type' =? typeName type)%string
    then List.length urls else 0.
Proof.
  pose proof (dispatchUrls_spec type' urls) as (R & F & L).
  unfold failuresOf.
  destruct (typeName type' =? typeName type)%string eqn:E.
  - rewrite !filter_all; [exact L | |].
    + intros req H. unfold isType. destruct (R req H) as [-> _]. exact E.
    + intros f H. destruct (F f H) as [-> _]. exact E.
  - rewrite !filter_none; [reflexivity | |].
    + intros req H. unfold isType. destruct (R req H) as [-> _]. exact E.
    + intros f H. destruct (F f H) as [-> _]. exact E.
Qed.

Lemma dispatch_accounted (type : AssetType) (assets : Assets) :
  List.length (failuresOf (typeName type) (fst (dispatch (entries assets))))
  + List.length (filter (isType type) (snd (dispatch (entries assets))))
  = List.length (assetsOf type assets).
Proof.
  unfold entries. cbn [dispatch].
  pose proof (dispatchUrls_accounted type Images (assets_images assets)) as A1.
  pose proof (dispatchUrls_accounted type Css (assets_css assets)) as A2.
  pose proof (dispatchUrls_accounted type Js (assets_js assets)) as A3.
  pose proof (dispatchUrls_accounted type Fonts (assets_fonts assets)) as A4.
  destruct (dispatchUrls Images (assets_images assets)) as [f1 r1].
  destruct (dispatchUrls Css (assets_css assets)) as [f2 r2].
  destruct (dispatchUrls Js (assets_js assets)) as [f3 r3].
  destruct (dispatchUrls Fonts (assets_fonts assets)) as [f4 r4].
  cbn [fst snd] in *. unfold failuresOf in *.
  rewrite !filter_app, !length_app. cbn [filter List.length].
  destruct type; cbn [typeName String.eqb Ascii.eqb Bool.eqb assetsOf] in *;
    lia.
Qed.

(** X17: an asset stays with its type.  When every request settles
    exactly once, in whatever order, the batch ends, and for each of the
    four types the files stored in the map of the type plus the failures
    reported with the type are as many as the URLs in the set of the
    type: no URL is stored or reported under another type. *)
Theorem fetched_assets_keep_their_type (assets : Assets)
    (network : nat -> FetchOutcome) (order : list nat) :
  Permutation order
    (seq 0 (List.length (snd (dispatch (entries assets))))) ->
  exists st,
    fetchAssets assets network order = Some st /\
    forall type : AssetType,
      JsMap.size (validOf type (valid st))
      + List.length (failuresOf (typeName type) (failed st))
      = List.length (assetsOf type assets).
Proof.
  intros P. destruct (every_batch_ends assets network P) as (st & E & _).
  exists st. split; [exact E|]. intros type.
  pose proof (dispatch_accounted type assets) as D.
  unfold fetchAssets in E.
  destruct (dispatch (entries assets)) as [turnedAway allFetches].
  cbn [fst snd] in *.
  assert (I : batch_inv (MkFetch noValid turnedAway JsSet.empty)).
  { split; [constructor|]. intros x. simpl. split; [discriminate | tauto]. }
  pose proof (settleAll_accounted type _ _ _ I E) as A.
  unfold settledOf in A. rewrite (filter_length_perm _ P) in A.
  fold (settledOf type allFetches (seq 0 (List.length allFetches))) in A.
  rewrite settledOf_all in A.
  unfold accounted in A. cbn [valid failed] in A.
  replace (JsMap.size (validOf type noValid)) with 0 in A
    by (destruct type; reflexivity).
  lia.
Qed.

Lemma fetched_assets_keep_their_type_witness :
  Permutation [2; 0; 1]
    (seq 0 (List.length (snd (dispatch (entries sampleAssets))))) /\
  exists st,
    fetchAssets sampleAssets sampleNetwork [2; 0; 1] = Some st /\
    forall type : AssetType,
      JsMap.size (validOf type (valid st))
      + List.length (failuresOf (typeName type) (failed st))
      = List.length (assetsOf type sampleAssets).
Proof.
  assert (P : Permutation [2; 0; 1]
                (seq 0 (List.length (snd (dispatch (entries sampleAssets))))))
    by (vm_compute; exact (Permutation_cons_append [0; 1] 2)).
  split; [exact P|].
  exact (fetched_assets_keep_their_type sampleAssets sampleNetwork P).
Defined.
